(** * Hamlib UI: the capability catalog, the filesystem resolver, the release
      installer and the process supervisor of [Hamlib_UI.py].

    Python [str] values are modelled as [string]: sequences of characters
    with code points below 256.  Python [int] is [Z]. *)

From Stdlib Require Import String Ascii List ZArith NArith Bool Lia Arith.
From Stdlib Require Import Permutation.
Import ListNotations.

Local Open Scope list_scope.
Local Open Scope string_scope.

(** ** Python string primitives used by the program *)

Module PyStr.

Definition code (c : ascii) : N := N_of_ascii c.

Definition between (lo hi : N) (c : ascii) : bool :=
  (lo <=? code c)%N && (code c <=? hi)%N.

(** [str.isspace] on one character, which is also what [\s] matches in a
    [str] pattern and what [str.strip()] removes: TAB..CR, FS..US, space,
    NEL and NBSP. *)
Definition is_space (c : ascii) : bool :=
  between 9 13 c || between 28 31 c || (code c =? 32)%N
  || (code c =? 133)%N || (code c =? 160)%N.

(** Line boundaries of [str.splitlines]: LF, VT, FF, CR, FS, GS, RS, NEL. *)
Definition is_linebreak (c : ascii) : bool :=
  between 10 13 c || between 28 30 c || (code c =? 133)%N.

Definition is_digit (c : ascii) : bool := between 48 57 c.

Definition digit_value (c : ascii) : Z := Z.of_N (code c) - 48.

Definition LF : ascii := "010"%char.
Definition CR : ascii := "013"%char.

Definition is_empty (s : string) : bool :=
  match s with EmptyString => true | String _ _ => false end.

(** [bool(s)] of a string. *)
Definition truthy (s : string) : bool := negb (is_empty s).

Definition snoc (s : string) (c : ascii) : string := s ++ String c "".

(** [c.lower()] for one character below 256. *)
Definition lower_char (c : ascii) : ascii :=
  if between 65 90 c
     || (between 192 222 c && negb (code c =? 215)%N)
  then ascii_of_N (code c + 32) else c.

(** [s.lower()] *)
Fixpoint lower (s : string) : string :=
  match s with
  | EmptyString => EmptyString
  | String c r => String (lower_char c) (lower r)
  end.

(** [s.startswith(p)] *)
Fixpoint startswith (p s : string) : bool :=
  match p, s with
  | EmptyString, _ => true
  | String a p', String b s' => Ascii.eqb a b && startswith p' s'
  | String _ _, EmptyString => false
  end.

(** [p in s] *)
Fixpoint contains (p s : string) : bool :=
  startswith p s
  || match s with
     | EmptyString => false
     | String _ r => contains p r
     end.

(** [s.endswith(p)] *)
Fixpoint endswith (p s : string) : bool :=
  String.eqb p s
  || match s with
     | EmptyString => false
     | String _ r => endswith p r
     end.

(** [s.lstrip()], [s.rstrip()], [s.strip()] *)
Fixpoint lstrip (s : string) : string :=
  match s with
  | EmptyString => EmptyString
  | String c r => if is_space c then lstrip r else s
  end.

Fixpoint rstrip (s : string) : string :=
  match s with
  | EmptyString => EmptyString
  | String c r =>
      let r' := rstrip r in
      if is_empty r' && is_space c then EmptyString else String c r'
  end.

Definition strip (s : string) : string := rstrip (lstrip s).

(** [s.rstrip('\n')] *)
Fixpoint rstrip_nl (s : string) : string :=
  match s with
  | EmptyString => EmptyString
  | String c r =>
      let r' := rstrip_nl r in
      if is_empty r' && Ascii.eqb c LF then EmptyString else String c r'
  end.

(** [s.splitlines()]: [cur] is the line being collected; [after_cr] says
    that the previous character was a CR, so that a LF that follows belongs
    to the same boundary.  A line is emitted at each boundary, and at the end
    of the text when characters were collected after the last boundary. *)
Fixpoint splitlines_from (cur : string) (after_cr : bool) (s : string)
  : list string :=
  match s with
  | EmptyString => if is_empty cur then [] else [cur]
  | String c r =>
      if after_cr && Ascii.eqb c LF then splitlines_from "" false r
      else if is_linebreak c
           then cur :: splitlines_from "" (Ascii.eqb c CR) r
           else splitlines_from (snoc cur c) false r
  end.

Definition splitlines (s : string) : list string :=
  splitlines_from "" false s.

Definition starts_with_space (s : string) : bool :=
  match s with
  | EmptyString => false
  | String c _ => is_space c
  end.

(** [re.split(r'\s{2,}', s)]: the separators are the maximal runs of two or
    more whitespace characters, found left to right.  [in_sep] says that the
    scan is inside a separator. *)
Fixpoint re_split_from (cur : string) (in_sep : bool) (s : string)
  : list string :=
  match s with
  | EmptyString => [cur]
  | String c r =>
      if in_sep then
        if is_space c then re_split_from "" true r
        else re_split_from (String c "") false r
      else if is_space c && starts_with_space r
           then cur :: re_split_from "" true r
           else re_split_from (snoc cur c) false r
  end.

Definition re_split_ws2 (s : string) : list string :=
  re_split_from "" false s.

(** Digits of [int(s)] after the sign: decimal digits, single underscores
    allowed between digits. *)
Fixpoint int_digits (acc : Z) (after_us : bool) (s : string) : option Z :=
  match s with
  | EmptyString => if after_us then None else Some acc
  | String c r =>
      if is_digit c then int_digits (10 * acc + digit_value c) false r
      else if Ascii.eqb c "_"%char && negb after_us
           then int_digits acc true r
           else None
  end.

Definition int_unsigned (s : string) : option Z :=
  match s with
  | EmptyString => None
  | String c r => if is_digit c then int_digits (digit_value c) false r
                  else None
  end.

(** What [int()] skips at the two ends of its argument: TAB..CR and space,
    and NEL and NBSP, which it reads as spaces; FS..US are no spaces for
    it. *)
Definition is_int_space (c : ascii) : bool :=
  between 9 13 c || (code c =? 32)%N || (code c =? 133)%N
  || (code c =? 160)%N.

Fixpoint int_lstrip (s : string) : string :=
  match s with
  | EmptyString => EmptyString
  | String c r => if is_int_space c then int_lstrip r else s
  end.

Fixpoint int_rstrip (s : string) : string :=
  match s with
  | EmptyString => EmptyString
  | String c r =>
      let r' := int_rstrip r in
      if is_empty r' && is_int_space c then EmptyString else String c r'
  end.

Definition int_strip (s : string) : string := int_rstrip (int_lstrip s).

(** [int(s)] for a string [s], base 10: [None] stands for [ValueError].
    (The limit on the number of digits that recent interpreters apply is
    not modelled.) *)
Definition int (s : string) : option Z :=
  match int_strip s with
  | String "+"%char r => int_unsigned r
  | String "-"%char r => option_map Z.opp (int_unsigned r)
  | t => int_unsigned t
  end.

(** [len(s)] of a list, and [l[i]] where the index is known to be in range. *)
Definition item (l : list string) (i : nat) : string := nth i l "".

End PyStr.

(** ** Capability catalog: parsers of the [--list] output *)

Module Catalog.
Import PyStr.

(** The dictionaries [{'id':…, 'mfg':…, 'model':…, 'label':…}]. *)
Record HardwareRecord := mkRecord
  { id : Z; mfg : string; model : string; label : string }.

(** [re.search(r'Rig\s*#', line)] *)
(** The pattern matched at the start of [s]: the letters, any run of
    whitespace, the sign. *)
Definition rig_marker_here (s : string) : bool :=
  match s with
  | String "R" (String "i" (String "g" r)) => startswith "#" (lstrip r)
  | _ => false
  end.

Fixpoint search_rig_marker (line : string) : bool :=
  rig_marker_here line
  || match line with
     | EmptyString => false
     | String _ r => search_rig_marker r
     end.

(** [re.search(r'Rotator|Amplifier|Device|Model', line, re.I)] *)
Definition search_device_marker (line : string) : bool :=
  let l := lower line in
  contains "rotator" l || contains "amplifier" l
  || contains "device" l || contains "model" l.

(** The first loop of both parsers: [start] is one past the index of the
    first line that matches the marker, and 0 when no line matches. *)
Fixpoint find_start (marker : string -> bool) (i : nat) (lines : list string)
  : nat :=
  match lines with
  | [] => 0
  | line :: rest => if marker line then i + 1
                    else find_start marker (i + 1) rest
  end.

(** The second loop of both parsers (the two bodies are the same text):
    [acc] is the list the loop appends to. *)
Fixpoint data_loop (lines : list string) (acc : list HardwareRecord)
  : list HardwareRecord :=
  match lines with
  | [] => acc
  | line :: rest =>
      if is_empty (strip line) then data_loop rest acc
      else
        let parts := re_split_ws2 (strip line) in
        if (List.length parts <? 3)%nat then data_loop rest acc
        else
          match int (item parts 0) with
          | None => data_loop rest acc
          | Some rid =>
              let mfg := strip (item parts 1) in
              let model := strip (item parts 2) in
              let label := mfg ++ " - " ++ model in
              data_loop rest (acc ++ [mkRecord rid mfg model label])%list
          end
  end.

Definition parse_with (marker : string -> bool) (text : string)
  : list HardwareRecord :=
  let lines := splitlines text in
  let start := find_start marker 0 lines in
  data_loop (skipn start lines) [].

Definition parse_rig_list (text : string) : list HardwareRecord :=
  parse_with search_rig_marker text.

Definition parse_device_list (text : string) : list HardwareRecord :=
  parse_with search_device_marker text.

(** *** Vocabulary of the statements about the parsers *)

(** The fields of a data line, as the loop body computes them. *)
Definition fields (line : string) : list string :=
  re_split_ws2 (strip line).

(** A line the loop skips: fewer than three fields, or a first field that
    [int] rejects.  (A blank line has the single field [""].) *)
Definition malformed (line : string) : Prop :=
  (List.length (fields line) < 3)%nat \/ int (item (fields line) 0) = None.

(** A line with at least three fields whose first field is the integer [n]. *)
Definition well_formed (line : string) (n : Z) : Prop :=
  (3 <= List.length (fields line))%nat /\ int (item (fields line) 0) = Some n.

(** The record a well-formed line stands for. *)
Definition record_of (line : string) (n : Z) : HardwareRecord :=
  let m := strip (item (fields line) 1) in
  let d := strip (item (fields line) 2) in
  mkRecord n m d (m ++ " - " ++ d).

(** What one iteration of the second loop appends, if anything. *)
Definition line_record (line : string) : option HardwareRecord :=
  if is_empty (strip line) then None
  else if (List.length (fields line) <? 3)%nat then None
       else match int (item (fields line) 0) with
            | None => None
            | Some n => Some (record_of line n)
            end.

(** A string that holds no line boundary, so that it is one line. *)
Fixpoint is_line (s : string) : bool :=
  match s with
  | EmptyString => true
  | String c r => negb (is_linebreak c) && is_line r
  end.

Definition nl : string := String LF "".

(** The text whose lines are [ls], each ended by a line feed. *)
Fixpoint unlines (ls : list string) : string :=
  match ls with
  | [] => ""
  | l :: r => l ++ nl ++ unlines r
  end.

(** [bad] is not the line that the first loop stops at: a marker line comes
    before it, or it is no marker line itself. *)
Definition not_the_header (marker : string -> bool) (pre : list string)
  (bad : string) : Prop :=
  Exists (fun l => marker l = true) pre \/ marker bad = false.

(** The lines after the first marker line, if there is one. *)
Fixpoint after_first (marker : string -> bool) (lines : list string)
  : option (list string) :=
  match lines with
  | [] => None
  | l :: r => if marker l then Some r else after_first marker r
  end.

End Catalog.

(** ** Filesystem resolver *)

Module Resolver.
Import PyStr.

(** The tree below [HAMLIB_DIR].  A directory lists its entries in the
    order in which the operating system enumerates them ([iterdir],
    [os.walk]); [mtime] is its [st_mtime]. *)
#[local] Set Warnings "-register-all".

Inductive Node :=
| File (content : string)
| Dir (mtime : Z) (entries : list (string * Node)).

Definition Entries := list (string * Node).

(** [HAMLIB_DIR]: [None] when the directory does not exist. *)
Definition Root := option Entries.

(** A path below [HAMLIB_DIR], as its components. *)
Definition Path := list string.

Fixpoint lookup (name : string) (es : Entries) : option Node :=
  match es with
  | [] => None
  | (n, x) :: r => if String.eqb n name then Some x else lookup name r
  end.

Definition is_some {A} (o : option A) : bool :=
  match o with Some _ => true | None => false end.

(** [(d / name).exists()] for the directory entries [d]. *)
Definition exists_in (name : string) (es : Entries) : bool :=
  is_some (lookup name es).

(** [(x / "bin" / name).exists()] *)
Definition has_bin_exe (name : string) (x : Node) : bool :=
  match x with
  | File _ => false
  | Dir _ es =>
      match lookup "bin" es with
      | Some (Dir _ bes) => exists_in name bes
      | _ => false
      end
  end.

Definition st_mtime (x : Node) : Z :=
  match x with
  | File _ => 0%Z
  | Dir t _ => t
  end.

(** [max(candidates, key=lambda p: p.stat().st_mtime)] on a non-empty list
    [best :: rest]: the first of the candidates with the greatest key. *)
Fixpoint max_by_mtime (best : string * Node) (rest : Entries) : string * Node :=
  match rest with
  | [] => best
  | c :: r => if (st_mtime (snd best) <? st_mtime (snd c))%Z
              then max_by_mtime c r
              else max_by_mtime best r
  end.

(** The candidates of [get_latest_bin_dir]: the entries of [HAMLIB_DIR]
    that hold [bin/rigctld.exe]. *)
Definition candidates (es : Entries) : Entries :=
  filter (fun e => has_bin_exe "rigctld.exe" (snd e)) es.

Definition get_latest_bin_dir (root : Root) : option Path :=
  match root with
  | None => None
  | Some es =>
      match candidates es with
      | c :: cs => Some [fst (max_by_mtime c cs); "bin"]
      | [] =>
          if has_bin_exe "rigctld.exe" (Dir 0 es) then Some ["bin"] else None
      end
  end.

(** The node at a path below the directory entries [es], if any. *)
Fixpoint resolve (p : Path) (es : Entries) : option Node :=
  match p with
  | [] => None
  | [n] => lookup n es
  | n :: p' =>
      match lookup n es with
      | Some (Dir _ es') => resolve p' es'
      | _ => None
      end
  end.

(** [name in files] for one directory of the walk: [files] are the entries
    that are not directories. *)
Fixpoint in_files (name : string) (es : Entries) : bool :=
  match es with
  | [] => false
  | (n, File _) :: r => String.eqb n name || in_files name r
  | (_, Dir _ _) :: r => in_files name r
  end.

(** The first result of [f] over a list, in order. *)
Fixpoint first_some {A B} (f : A -> option B) (l : list A) : option B :=
  match l with
  | [] => None
  | a :: r => match f a with
              | Some b => Some b
              | None => first_some f r
              end
  end.

(** The loop over [os.walk(HAMLIB_DIR)], top down: a directory is visited
    before its sub-directories, which are walked in enumeration order
    (an entry that is a file is no directory to walk). *)
Fixpoint walk (name : string) (here : Path) (x : Node) : option Path :=
  match x with
  | File _ => None
  | Dir _ es =>
      if in_files name es then Some (here ++ [name])%list
      else first_some
             (fun e => match e with
                       | (d, child) => walk name (here ++ [d])%list child
                       end) es
  end.

(** [p.exists()] for a path below [HAMLIB_DIR]. *)
Definition path_exists (p : Path) (root : Root) : bool :=
  match root with
  | Some es => is_some (resolve p es)
  | None => false
  end.

(** [for root, dirs, files in os.walk(HAMLIB_DIR): ...]: nothing to visit
    when the directory does not exist. *)
Definition os_walk (name : string) (root : Root) : option Path :=
  match root with
  | Some es => walk name [] (Dir 0 es)
  | None => None
  end.

Definition find_exe (name : string) (root : Root) : option Path :=
  match get_latest_bin_dir root with
  | Some bin_dir =>
      if path_exists (bin_dir ++ [name])%list root
      then Some (bin_dir ++ [name])%list
      else os_walk name root
  | None => os_walk name root
  end.

(** [os.walk(top)] itself, top down: the directories in the order in which
    they are yielded, each with its [files], the names of its entries that
    are not directories.  A directory is yielded before its
    sub-directories, and the whole tree below a sub-directory before the
    next sub-directory. *)
Fixpoint files (es : Entries) : list string :=
  match es with
  | [] => []
  | (n, File _) :: r => n :: files r
  | (_, Dir _ _) :: r => files r
  end.

Fixpoint walk_yields (here : Path) (x : Node) : list (Path * list string) :=
  match x with
  | File _ => []
  | Dir _ es =>
      (here, files es)
      :: flat_map (fun e => match e with
                            | (d, child) => walk_yields (here ++ [d])%list child
                            end) es
  end.

(** [for root, dirs, files in …: if name in files: return Path(root)/name]
    over a list of yields; [None] when the loop runs out. *)
Definition first_match (name : string) (yields : list (Path * list string))
  : option Path :=
  match find (fun y => existsb (String.eqb name) (snd y)) yields with
  | Some (dir, _) => Some (dir ++ [name])%list
  | None => None
  end.

(** *** The resolution order as the specification words it: the candidates
    are the sub-directories whose [bin/] holds the executable asked for. *)
Definition candidates_for (name : string) (es : Entries) : Entries :=
  filter (fun e => has_bin_exe name (snd e)) es.

Definition resolve_as_specified (name : string) (root : Root) : option Path :=
  match root with
  | None => None
  | Some es =>
      match candidates_for name es with
      | c :: cs => Some [fst (max_by_mtime c cs); "bin"; name]
      | [] =>
          if has_bin_exe name (Dir 0 es) then Some ["bin"; name]
          else os_walk name root
      end
  end.

End Resolver.
(** ** Release installer *)

Module Installer.
Import PyStr Resolver.

(** One element of [latest["assets"]]: [a.get("name","")] and
    [a["browser_download_url"]].  Every asset is taken to have both keys,
    as the release feed delivers them. *)
Record Asset := mkAsset
  { name : string; browser_download_url : string }.

(** The release descriptor [latest = r.json()]: [None] in an optional field
    is a key that is absent.  [assets] is [latest.get("assets", [])]. *)
Record Release := mkRelease
  { tag_name : option string;
    assets : list Asset;
    zipball_url : option string }.

(** The test of the first loop: [name.endswith(".zip") and "w64" in name]
    on the lower-cased name. *)
Definition is_w64_zip (a : Asset) : bool :=
  let n := lower (name a) in endswith ".zip" n && contains "w64" n.

(** The test of the second loop. *)
Definition is_zip (a : Asset) : bool :=
  endswith ".zip" (lower (name a)).

(** [for a in assets: if test(a): asset_url, asset_name = …; break] from
    the current value [sel] of the two variables. *)
Definition first_asset (test : Asset -> bool) (l : list Asset)
  (sel : option (string * string)) : option (string * string) :=
  match find test l with
  | Some a => Some (browser_download_url a, name a)
  | None => sel
  end.

(** [not asset_url]: the variable is [None] or an empty string. *)
Definition no_url (sel : option (string * string)) : bool :=
  match sel with
  | None => true
  | Some (u, _) => is_empty u
  end.

Definition or_default (o : option string) (d : string) : string :=
  match o with Some s => s | None => d end.

(** Lines 65 to 81: the values of [asset_url] and [asset_name] after the
    selection. *)
Definition select_asset (latest : Release) : option string * string :=
  let sel := first_asset is_w64_zip (assets latest) None in
  let sel := if no_url sel then first_asset is_zip (assets latest) sel
             else sel in
  if no_url sel
  then (zipball_url latest,
        "hamlib-" ++ or_default (tag_name latest) "latest" ++ ".zip")
  else match sel with
       | Some (u, n) => (Some u, n)
       | None => (None, "")
       end.

(** The exceptions the [try] block can raise, with their text. *)
Inductive Exn :=
| RequestException (msg : string)   (* requests: connection, timeout, URL *)
| HTTPError (msg : string)          (* raise_for_status *)
| ValueError (msg : string)         (* int of a bad Content-Length *)
| OSError (msg : string)            (* mkdir, open, write, rmtree, unlink *)
| BadZipFile (msg : string).        (* ZipFile, extractall *)

Definition str (e : Exn) : string :=
  match e with
  | RequestException m | HTTPError m | ValueError m | OSError m
  | BadZipFile m => m
  end.

(** What the server answers to [requests.get(asset_url, stream=True)]:
    [stream_error] is raised inside the chunk loop once the chunks of
    [chunks] have been delivered. *)
Record AssetResponse := mkResponse
  { status_error : option string;
    content_length : option string;
    chunks : list string;
    stream_error : option Exn }.

(** What the archive at [dest] holds: [members] are the top-level entries
    that [extractall] writes before it returns or raises [zip_error]. *)
Record ZipOutcome := mkZip
  { members : Entries; zip_error : option string }.

(** The environment of one call. *)
Record Env := mkEnv
  { feed : string + Release;          (* GET …/latest, status check, json *)
    mkdir_error : option string;      (* os.mkdir of HAMLIB_DIR refused *)
    fetch : string -> string + AssetResponse;
    open_error : option string;       (* open(dest, 'wb') refused *)
    remove_error : string -> Node -> option (string * Node);
      (* rmtree or unlink of the entry raises: the text, and the entry as
         it is afterwards *)
    unzip : string -> ZipOutcome }.   (* by the bytes of the archive *)

(** The state the call works on: the directory and the values passed to
    [progress_callback], as pairs [(downloaded, total)] standing for the
    quotient. *)
Record St := mkSt
  { hamlib : Root; progress : list (Z * Z) }.

(** State and exception monad of the [try] block. *)
Definition M (A : Type) : Type := St -> (Exn + A) * St.

Definition ret {A} (a : A) : M A := fun s => (inr a, s).
Definition raise {A} (e : Exn) : M A := fun s => (inl e, s).
Definition bind {A B} (m : M A) (k : A -> M B) : M B :=
  fun s => match m s with
           | (inl e, s') => (inl e, s')
           | (inr a, s') => k a s'
           end.

Notation "x <- m ;; k" := (bind m (fun x => k))
  (at level 61, m at next level, right associativity).
Notation "m ;;; k" := (bind m (fun _ => k))
  (at level 61, right associativity).

Definition get_root : M Root := fun s => (inr (hamlib s), s).
Definition set_root (r : Root) : M unit :=
  fun s => (inr tt, mkSt r (progress s)).
Definition report (p : Z * Z) : M unit :=
  fun s => (inr tt, mkSt (hamlib s) (progress s ++ [p])%list).

(** Replace the entry called [n], or add it at the end. *)
Fixpoint put_entry (n : string) (x : Node) (es : Entries) : Entries :=
  match es with
  | [] => [(n, x)]
  | (m, y) :: r => if String.eqb m n then (n, x) :: r
                   else (m, y) :: put_entry n x r
  end.

Definition entries_of (r : Root) : Entries :=
  match r with Some es => es | None => [] end.

(** [HAMLIB_DIR.mkdir(exist_ok=True)]: nothing happens when the directory
    exists; otherwise it is created, unless the environment refuses. *)
Definition ensure_hamlib_dir (env : Env) : M unit :=
  r <- get_root ;;
  match r with
  | Some _ => ret tt
  | None =>
      match mkdir_error env with
      | Some m => raise (OSError m)
      | None => set_root (Some [])
      end
  end.

(** [open(dest, 'wb')]: refused by the environment, or because [dest] is a
    directory; otherwise the file is created or truncated. *)
Definition open_wb (env : Env) (dest : string) : M unit :=
  match open_error env with
  | Some m => raise (OSError m)
  | None =>
      r <- get_root ;;
      match lookup dest (entries_of r) with
      | Some (Dir _ _) => raise (OSError "Is a directory")
      | _ => set_root (Some (put_entry dest (File "") (entries_of r)))
      end
  end.

(** [int(rr.headers.get('Content-Length', 0))]: [None] when [int] raises. *)
Definition header_total (rr : AssetResponse) : option Z :=
  match content_length rr with
  | None => Some 0%Z
  | Some h => PyStr.int h
  end.

(** [f.write(chunk)] *)
Definition write (dest chunk : string) : M unit :=
  r <- get_root ;;
  match lookup dest (entries_of r) with
  | Some (File c) =>
      set_root (Some (put_entry dest (File (c ++ chunk)) (entries_of r)))
  | _ => raise (OSError "Bad file descriptor")
  end.

(** The loop over [rr.iter_content(chunk_size=8192)]. *)
Fixpoint write_chunks (dest : string) (total downloaded : Z)
  (cs : list string) : M unit :=
  match cs with
  | [] => ret tt
  | chunk :: rest =>
      if truthy chunk then
        write dest chunk ;;;
        let downloaded := (downloaded + Z.of_nat (String.length chunk))%Z in
        (if (total =? 0)%Z then ret tt else report (downloaded, total)) ;;;
        write_chunks dest total downloaded rest
      else write_chunks dest total downloaded rest
  end.

(** Lines 84 to 94: the download of the asset into [dest]. *)
Definition download (env : Env) (asset_url : option string) (dest : string)
  : M unit :=
  match asset_url with
  | None => raise (RequestException "Invalid URL")
  | Some url =>
      match fetch env url with
      | inl m => raise (RequestException m)
      | inr rr =>
          match status_error rr with
          | Some m => raise (HTTPError m)
          | None =>
              match header_total rr with
              | None => raise (ValueError "invalid literal for int()")
              | Some total =>
                  open_wb env dest ;;;
                  write_chunks dest total 0 (chunks rr) ;;;
                  match stream_error rr with
                  | Some e => raise e
                  | None => ret tt
                  end
              end
          end
      end
  end.

(** The loop of lines 95 to 98 over the entries [items], in the order of
    the directory: the exception of the first removal that raises, if one
    does, and the entries that are left. *)
Fixpoint clear_items (env : Env) (dest : string) (items : Entries)
  : option Exn * Entries :=
  match items with
  | [] => (None, [])
  | (n, x) :: rest =>
      if String.eqb n dest
      then let (e, left) := clear_items env dest rest in (e, (n, x) :: left)
      else match remove_error env n x with
           | Some (m, remains) => (Some (OSError m), (n, remains) :: rest)
           | None => clear_items env dest rest
           end
  end.

(** Lines 95 to 98: every entry other than [dest] is removed, up to the
    first removal that raises. *)
Definition clear (env : Env) (dest : string) : M unit :=
  r <- get_root ;;
  match r with
  | None => raise (OSError "No such file or directory")
  | Some es =>
      let (e, left) := clear_items env dest es in
      set_root (Some left) ;;;
      match e with
      | Some e => raise e
      | None => ret tt
      end
  end.

(** Lines 99 and 100: the archive is read from [dest] and its members are
    written below [HAMLIB_DIR]. *)
Definition extract (env : Env) (dest : string) : M unit :=
  r <- get_root ;;
  match lookup dest (entries_of r) with
  | Some (File bytes) =>
      let z := unzip env bytes in
      set_root (Some (fold_left (fun es m => put_entry (fst m) (snd m) es)
                                (members z) (entries_of r))) ;;;
      match zip_error z with
      | Some m => raise (BadZipFile m)
      | None => ret tt
      end
  | _ => raise (OSError "No such file")
  end.

(** The body of the [try] block.  The names of assets are taken to be
    single path components. *)
Definition try_block (env : Env) : M string :=
  match feed env with
  | inl m => raise (RequestException m)
  | inr latest =>
      let '(asset_url, asset_name) := select_asset latest in
      ensure_hamlib_dir env ;;;
      let dest := asset_name in
      download env asset_url dest ;;;
      clear env dest ;;;
      extract env dest ;;;
      ret ("Installed release " ++ or_default (tag_name latest) "unknown")
  end.

(** [download_latest_release(progress_callback=cb)], as [DownloadThread.run]
    calls it. *)
Definition download_latest_release (env : Env) (s : St)
  : (bool * string) * St :=
  match try_block env s with
  | (inr msg, s') => ((true, msg), s')
  | (inl e, s') => ((false, "Download/extract failed: " ++ str e), s')
  end.

(** *** Vocabulary of the statements about the installer *)

(** The call fails in the download step: the feed answered, and lines 84 to
    94 raise. *)
Definition fails_in_download (env : Env) (s : St) : Prop :=
  exists latest e s1 s2,
    feed env = inr latest
    /\ ensure_hamlib_dir env s = (inr tt, s1)
    /\ download env (fst (select_asset latest)) (snd (select_asset latest)) s1
       = (inl e, s2).

(** The download step gets as far as the chunk loop, which raises [e] after
    the chunks of [rr]: the stream fails partway.  (The directory is there
    or can be created, the feed and the server answer, the file can be
    opened.) *)
Definition fails_partway (env : Env) (s : St) (dest : string)
  (rr : AssetResponse) (e : Exn) : Prop :=
  exists latest url,
    feed env = inr latest
    /\ (hamlib s = None -> mkdir_error env = None)
    /\ select_asset latest = (Some url, dest)
    /\ fetch env url = inr rr
    /\ status_error rr = None
    /\ header_total rr <> None
    /\ open_error env = None
    /\ (forall t es, lookup dest (entries_of (hamlib s)) <> Some (Dir t es))
    /\ stream_error rr = Some e.

(** Everything up to and including the extraction runs without error and
    leaves the state [s']. *)
Definition extraction_completes (env : Env) (s : St) (latest : Release)
  (s' : St) : Prop :=
  feed env = inr latest
  /\ (ensure_hamlib_dir env ;;;
      download env (fst (select_asset latest)) (snd (select_asset latest)) ;;;
      clear env (snd (select_asset latest)) ;;;
      extract env (snd (select_asset latest))) s = (inr tt, s').

(** The name of the asset holds the platform marker. *)
Definition has_marker (a : Asset) : bool := contains "w64" (lower (name a)).

(** The entries of a directory other than the one called [dest]. *)
Definition others (dest : string) (es : Entries) : Entries :=
  filter (fun e => negb (String.eqb (fst e) dest)) es.

(** The bytes of a sequence of chunks. *)
Fixpoint bytes_of (cs : list string) : string :=
  match cs with
  | [] => ""
  | c :: r => c ++ bytes_of r
  end.

(** The environment with another content of the archives. *)
Definition with_unzip (u : string -> ZipOutcome) (env : Env) : Env :=
  mkEnv (feed env) (mkdir_error env) (fetch env) (open_error env)
        (remove_error env) u.

(** The entry called [dest], if there is one, is not a directory. *)
Definition not_dir (dest : string) (es : Entries) : Prop :=
  forall t es', lookup dest es <> Some (Dir t es').

(** The three daemon executables. *)
Definition daemons : list string :=
  ["rigctld.exe"; "rotctld.exe"; "ampctld.exe"].

End Installer.
(** ** Capability catalog: the three list threads *)

Module ListThreads.
Import PyStr Resolver Catalog.

(** What [subprocess.run([exe, '--list'], capture_output=True, text=True,
    timeout=…)] does: it raises (time-out included), or it returns the two
    captured streams. *)
Inductive RunOutcome :=
| Raised (msg : string)
| Completed (stdout stderr : string).

(** The signals a list thread emits, in order. *)
Inductive ListSignal :=
| result (records : list HardwareRecord)
| message (text : string).

Definition RigctlListThread_run (root : Root) (p : RunOutcome)
  : list ListSignal :=
  match find_exe "rigctld.exe" root with
  | None => [result []; message "rigctld.exe not found"]
  | Some _ =>
      match p with
      | Completed stdout stderr => [result (parse_rig_list (stdout ++ stderr))]
      | Raised e => [message ("Failed to run rigctld --list: " ++ e); result []]
      end
  end.

Definition RotctlListThread_run (root : Root) (p : RunOutcome)
  : list ListSignal :=
  match find_exe "rotctld.exe" root with
  | None => [result []; message "rotctld.exe not found"]
  | Some _ =>
      match p with
      | Completed stdout stderr => [result (parse_device_list stdout)]
      | Raised e => [message ("rotctld --list failed: " ++ e); result []]
      end
  end.

Definition AmpctlListThread_run (root : Root) (p : RunOutcome)
  : list ListSignal :=
  match find_exe "ampctld.exe" root with
  | None => [result []; message "ampctld.exe not found"]
  | Some _ =>
      match p with
      | Completed stdout stderr => [result (parse_device_list stdout)]
      | Raised e => [message ("ampctld --list failed: " ++ e); result []]
      end
  end.

Inductive DaemonKind := Radio | Rotor | Amplifier.

(** The list thread of each kind. *)
Definition list_thread_run (k : DaemonKind) : Root -> RunOutcome -> list ListSignal :=
  match k with
  | Radio => RigctlListThread_run
  | Rotor => RotctlListThread_run
  | Amplifier => AmpctlListThread_run
  end.

(** The parser each thread hands the text to. *)
Definition parser_of (k : DaemonKind) : string -> list HardwareRecord :=
  match k with
  | Radio => parse_rig_list
  | Rotor | Amplifier => parse_device_list
  end.

End ListThreads.

(** ** Process supervisor *)

Module Supervisor.
Import PyStr Resolver.
Export ListThreads.

(** The signals of [HamlibRunner]. *)
Inductive Signal :=
| started
| stopped
| output (text : string).

(** A [subprocess.Popen] object: the command, its arguments, its working
    directory. *)
Record Popen := mkPopen
  { exe : Path; args : list string; cwd : Path }.

(** One [HamlibRunner] with the part of the world it acts on.  A child
    process is named by its index in [children].  A reader thread is in
    [readers] while it is inside the [try] block of [_reader_thread], in
    [finishing] between the two statements of the [finally] block, and its
    child is in [exited] once the thread has ended.  [abandoned] lists the
    children that were spawned by a call of [start] whose [try] block raised
    after [Popen] had returned: the handler drops the handle, and no reader
    thread was started for them. *)
Record HamlibRunner := mkRunner
  { exe_name : string;
    process : option nat;        (* [self.process] *)
    emitted : list Signal;       (* signals emitted, oldest first *)
    children : list Popen;       (* every process spawned, oldest first *)
    readers : list nat;          (* [_reader_thread]s in their [try] block *)
    finishing : list nat;        (* [_reader_thread]s inside [finally] *)
    terminated : list nat;       (* [terminate()] calls, by child *)
    exited : list nat;           (* children whose reader thread has ended *)
    abandoned : list nat }.      (* children left without a reader thread *)

(** [HamlibRunner(exe_name)] *)
Definition new_runner (exe_name : string) : HamlibRunner :=
  mkRunner exe_name None [] [] [] [] [] [] [].

Definition emit (s : Signal) (w : HamlibRunner) : HamlibRunner :=
  mkRunner (exe_name w) (process w) (emitted w ++ [s])%list (children w)
           (readers w) (finishing w) (terminated w) (exited w) (abandoned w).

Definition set_process (p : option nat) (w : HamlibRunner) : HamlibRunner :=
  mkRunner (exe_name w) p (emitted w) (children w)
           (readers w) (finishing w) (terminated w) (exited w) (abandoned w).

(** [subprocess.Popen(…)] returns: a new child. *)
Definition spawn (c : Popen) (w : HamlibRunner) : HamlibRunner :=
  mkRunner (exe_name w) (process w) (emitted w) (children w ++ [c])%list
           (readers w) (finishing w) (terminated w) (exited w) (abandoned w).

(** [threading.Thread(target=self._reader_thread, daemon=True).start()]
    returns: the thread runs, and reads the child of the handle. *)
Definition start_reader (k : nat) (w : HamlibRunner) : HamlibRunner :=
  mkRunner (exe_name w) (process w) (emitted w) (children w)
           (readers w ++ [k])%list (finishing w) (terminated w) (exited w)
           (abandoned w).

Definition without (k : nat) (l : list nat) : list nat :=
  filter (fun j => negb (Nat.eqb j k)) l.

(** [self.process.terminate()]; what it raises is swallowed. *)
Definition terminate (k : nat) (w : HamlibRunner) : HamlibRunner :=
  mkRunner (exe_name w) (process w) (emitted w) (children w)
           (readers w) (finishing w) (terminated w ++ [k])%list (exited w)
           (abandoned w).

(** The child [k] stays behind without a handle and without a reader. *)
Definition abandon (k : nat) (w : HamlibRunner) : HamlibRunner :=
  mkRunner (exe_name w) (process w) (emitted w) (children w)
           (readers w) (finishing w) (terminated w) (exited w)
           (abandoned w ++ [k])%list.

(** The statement of the [try] block of [start] that raises, with the text
    of its exception. *)
Inductive Raise :=
| in_Popen (e : string)          (* [subprocess.Popen(…)] *)
| in_started_emit (e : string)   (* [self.started.emit()] *)
| in_Thread_start (e : string).  (* [threading.Thread(…).start()] *)

(** [self.process=subprocess.Popen([str(exe_path)]+args,
    cwd=str(exe_path.parent), …)] when [Popen] returns. *)
Definition popen (exe_path : Path) (args : list string) (w : HamlibRunner)
  : HamlibRunner :=
  set_process (Some (List.length (children w)))
              (spawn (mkPopen exe_path args (removelast exe_path)) w).

(** The [except] clause of [start]:
    [self.output.emit(f"Failed to start: {e}"); self.process=None].
    A child that [Popen] had spawned runs on; nothing reads it. *)
Definition failed_to_start (e : string) (w : HamlibRunner) : HamlibRunner :=
  let w := emit (output ("Failed to start: " ++ e)) w in
  match process w with
  | Some k => set_process None (abandon k w)
  | None => set_process None w
  end.

(** [start(args)].  [root] is the directory as [find_exe] sees it; [raised]
    tells which statement of the [try] block raises, if one does.  A call
    of [emit] that raises has emitted nothing; the calls of [output.emit]
    return.  The call runs on the thread of the user interface and is one
    step: a reader thread that moves meanwhile has cleared the handle
    before the guard was passed, and all that is left for it to do is to
    emit [stopped], which is placed before or after the call. *)
Definition start (root : Root) (args : list string)
  (raised : option Raise) (w : HamlibRunner) : HamlibRunner :=
  match process w with
  | Some _ => emit (output "Already running") w
  | None =>
      match find_exe (exe_name w) root with
      | None => emit (output (exe_name w ++ " not found!")) w
      | Some exe_path =>
          match raised with
          | Some (in_Popen e) => failed_to_start e w
          | Some (in_started_emit e) =>
              failed_to_start e (popen exe_path args w)
          | Some (in_Thread_start e) =>
              failed_to_start e (emit started (popen exe_path args w))
          | None =>
              start_reader (List.length (children w))
                           (emit started (popen exe_path args w))
          end
      end
  end.

(** [stop()].  A reader thread that clears the handle between the test and
    the call makes the call raise, which is swallowed: that is [stop] after
    the reader's step. *)
Definition stop (w : HamlibRunner) : HamlibRunner :=
  match process w with
  | Some k => terminate k w
  | None => w
  end.

(** One turn of the loop of [_reader_thread]: a line of the child arrived. *)
Definition reader_line (line : string) (w : HamlibRunner) : HamlibRunner :=
  emit (output (rstrip_nl line)) w.

(** The first statement of the [finally] block of [_reader_thread], reached
    by the end of the stream or by an exception: [self.process=None]. *)
Definition reader_clear (k : nat) (w : HamlibRunner) : HamlibRunner :=
  let w := set_process None w in
  mkRunner (exe_name w) (process w) (emitted w) (children w)
           (without k (readers w)) (finishing w ++ [k])%list
           (terminated w) (exited w) (abandoned w).

(** The second statement of the [finally] block: [self.stopped.emit()],
    which is taken to return; the thread ends. *)
Definition reader_stopped (k : nat) (w : HamlibRunner) : HamlibRunner :=
  let w := emit stopped w in
  mkRunner (exe_name w) (process w) (emitted w) (children w)
           (readers w) (without k (finishing w))
           (terminated w) (exited w ++ [k])%list (abandoned w).

(** What can happen to one runner: the two calls of the user interface and
    the moves of a reader thread. *)
Inductive Op :=
| Start (root : Root) (args : list string) (raised : option Raise)
| Stop
| ReaderLine (k : nat) (line : string)
| ReaderClear (k : nat)
| ReaderStopped (k : nat).

Definition reading (k : nat) (w : HamlibRunner) : bool :=
  existsb (Nat.eqb k) (readers w).

Definition in_finally (k : nat) (w : HamlibRunner) : bool :=
  existsb (Nat.eqb k) (finishing w).

(** One step; a reader thread moves only where it is. *)
Definition step (op : Op) (w : HamlibRunner) : option HamlibRunner :=
  match op with
  | Start root args e => Some (start root args e w)
  | Stop => Some (stop w)
  | ReaderLine k line => if reading k w then Some (reader_line line w) else None
  | ReaderClear k => if reading k w then Some (reader_clear k w) else None
  | ReaderStopped k =>
      if in_finally k w then Some (reader_stopped k w) else None
  end.

(** The three runners of [MainWindow]. *)
Record MainWindow := mkWindow
  { radio_runner : HamlibRunner;
    rotor_runner : HamlibRunner;
    amp_runner : HamlibRunner }.

Definition new_window : MainWindow :=
  mkWindow (new_runner "rigctld.exe") (new_runner "rotctld.exe")
           (new_runner "ampctld.exe").

Definition runner_of (k : DaemonKind) (m : MainWindow) : HamlibRunner :=
  match k with
  | Radio => radio_runner m
  | Rotor => rotor_runner m
  | Amplifier => amp_runner m
  end.

Definition set_runner (k : DaemonKind) (w : HamlibRunner) (m : MainWindow)
  : MainWindow :=
  match k with
  | Radio => mkWindow w (rotor_runner m) (amp_runner m)
  | Rotor => mkWindow (radio_runner m) w (amp_runner m)
  | Amplifier => mkWindow (radio_runner m) (rotor_runner m) w
  end.

(** A step of the runner of one kind. *)
Definition step_kind (k : DaemonKind) (op : Op) (m : MainWindow)
  : option MainWindow :=
  match step op (runner_of k m) with
  | Some w => Some (set_runner k w m)
  | None => None
  end.

(** A run: steps of the three runners in any interleaving. *)
Fixpoint run (ops : list (DaemonKind * Op)) (m : MainWindow)
  : option MainWindow :=
  match ops with
  | [] => Some m
  | (k, op) :: rest =>
      match step_kind k op m with
      | Some m' => run rest m'
      | None => None
      end
  end.

(** The number of [stopped] signals in a list. *)
Fixpoint count_stopped (l : list Signal) : nat :=
  match l with
  | [] => 0
  | stopped :: r => S (count_stopped r)
  | _ :: r => count_stopped r
  end.

(** The children that are supervised and have not ended: they have a
    reader thread inside its [try] block. *)
Definition live (w : HamlibRunner) : list nat := readers w.

(** Where every child ever spawned is. *)
Definition whereabouts (w : HamlibRunner) : list nat :=
  (readers w ++ finishing w ++ exited w ++ abandoned w)%list.

(** The list [l] holds each of the first [n] children once, and nothing
    else. *)
Definition placed (n : nat) (l : list nat) : Prop :=
  (forall j, j < n <-> In j l) /\ NoDup l.

(** The state of one runner is consistent: the handle and the reader thread
    inside its [try] block go together, every child ever spawned is in
    exactly one of the four places, and there are as many [stopped] signals
    as reader threads that have ended. *)
Record consistent (w : HamlibRunner) : Prop := mkConsistent
  { handle_reader : readers w = match process w with
                                | Some k => [k]
                                | None => []
                                end;
    accounted : forall j, j < List.length (children w)
                          <-> In j (whereabouts w);
    in_one_place : NoDup (whereabouts w);
    stopped_count : count_stopped (emitted w) = List.length (exited w) }.

End Supervisor.
(** ** Concrete directories, releases and environments used in examples *)

Module Samples.
Import PyStr Resolver Installer.

Definition exe_file : Node := File "MZ".

(** An extracted release that holds the three daemons. *)
Definition full_bin : Node :=
  Dir 100 [("rigctld.exe", exe_file); ("rotctld.exe", exe_file);
           ("ampctld.exe", exe_file)].

(** An older tree with [rigctld.exe] and [rotctld.exe], and a newer tree
    that holds [rotctld.exe] only. *)
Definition two_trees : Root :=
  Some [("hamlib-w64-4.5",
         Dir 100 [("bin", Dir 100 [("rigctld.exe", exe_file);
                                   ("rotctld.exe", exe_file)])]);
        ("hamlib-w64-4.6",
         Dir 200 [("bin", Dir 200 [("rotctld.exe", exe_file)])])].

(** Two complete trees of different ages. *)
Definition two_full_trees : Entries :=
  [("hamlib-w64-4.5", Dir 100 [("bin", full_bin)]);
   ("hamlib-w64-4.6", Dir 200 [("bin", full_bin)])].

(** The directory after release 4.5 was installed: the archive and the
    tree extracted from it. *)
Definition installed_45 : Root :=
  Some [("hamlib-w64-4.5.zip", File "PK-complete-archive-of-4.5");
        ("hamlib-w64-4.5", Dir 100 [("bin", full_bin)])].

Definition release_45 : Release :=
  mkRelease (Some "4.5")
    [mkAsset "hamlib-4.5.tar.gz" "https://example.org/hamlib-4.5.tar.gz";
     mkAsset "hamlib-w32-4.5.zip" "https://example.org/hamlib-w32-4.5.zip";
     mkAsset "hamlib-w64-4.5.zip" "https://example.org/hamlib-w64-4.5.zip"]
    (Some "https://example.org/zipball/4.5").

(** The connection breaks after the first chunk of the archive. *)
Definition broken_stream : Env :=
  mkEnv (inr release_45) None
        (fun _ => inr (mkResponse None (Some "4096") ["PK"]
                         (Some (RequestException "Connection broken"))))
        None (fun _ _ => None)
        (fun _ => mkZip [] None).

(** The archive arrives whole and extracts without error, but holds no
    daemon. *)
Definition archive_without_daemons : Env :=
  mkEnv (inr release_45) None
        (fun _ => inr (mkResponse None (Some "4") ["PK"; "ZZ"] None))
        None (fun _ _ => None)
        (fun _ => mkZip [("README.txt", File "Hamlib")] None).

(** A table as [rotctld --list] prints it. *)
Definition rot_table : string :=
  " Rot #  Mfg    Model" ++ String LF "" ++ "1  Hamlib  Dummy" ++ String LF "".

Definition rig_table : string :=
  " Rig #  Mfg    Model" ++ String LF "" ++ "1  Yaesu  FT-817" ++ String LF "".

End Samples.
(** ** More Python primitives: [str.split()], [str(int)], [' '.join] *)

Module PyMore.
Import PyStr.

(** [s.split()]: the maximal runs of characters that are not whitespace. *)
Fixpoint split_from (cur : string) (s : string) : list string :=
  match s with
  | EmptyString => if is_empty cur then [] else [cur]
  | String c r =>
      if is_space c
      then if is_empty cur then split_from "" r else cur :: split_from "" r
      else split_from (snoc cur c) r
  end.

Definition split (s : string) : list string := split_from "" s.

Definition digit_char (d : Z) : ascii := ascii_of_N (Z.to_N (48 + d)).

(** The decimal digits of [n >= 0] in front of [acc]; [fuel] bounds the
    number of digits. *)
Fixpoint digits_from (fuel : nat) (n : Z) (acc : string) : string :=
  match fuel with
  | O => acc
  | S f =>
      let acc' := String (digit_char (n mod 10)) acc in
      if (n <? 10)%Z then acc' else digits_from f (n / 10)%Z acc'
  end.

Definition str_nonneg (n : Z) : string :=
  digits_from (S (Z.to_nat (Z.log2 n))) n "".

(** [str(n)] for an [int]. *)
Definition str_int (z : Z) : string :=
  if (z <? 0)%Z then "-" ++ str_nonneg (- z) else str_nonneg z.

(** [sep.join(l)] *)
Fixpoint join (sep : string) (l : list string) : string :=
  match l with
  | [] => ""
  | [x] => x
  | x :: r => x ++ sep ++ join sep r
  end.

(** The last character of the string is whitespace. *)
Fixpoint ends_with_space (s : string) : bool :=
  match s with
  | EmptyString => false
  | String c EmptyString => is_space c
  | String _ r => ends_with_space r
  end.

(** No character of the string is whitespace. *)
Fixpoint no_space (s : string) : bool :=
  match s with
  | EmptyString => true
  | String c r => negb (is_space c) && no_space r
  end.

(** A string that is not empty and has no whitespace at either end. *)
Definition trimmed (f : string) : Prop :=
  f <> "" /\ starts_with_space f = false /\ ends_with_space f = false.

End PyMore.

(** ** The installed version *)

Module Version.
Import PyStr PyMore Resolver ListThreads.

(** [get_installed_version()].  [p] is what
    [subprocess.run([rig_path, '--version'], …, timeout=5)] does; the bare
    [except] turns whatever is raised, the [IndexError] of [[0]] included,
    into ['unknown']. *)
Definition get_installed_version (root : Root) (p : RunOutcome)
  : option string :=
  match find_exe "rigctld.exe" root with
  | None => None
  | Some _ =>
      match p with
      | Raised _ => Some "unknown"
      | Completed stdout stderr =>
          let out := if truthy (strip stdout) then strip stdout
                     else strip stderr in
          if is_empty out then Some "unknown"
          else
            let parts := split out in
            if (4 <=? List.length parts)%nat
            then Some (item parts 1 ++ " " ++ item parts 2 ++ " "
                       ++ last parts "")
            else match splitlines out with
                 | first :: _ => Some first
                 | [] => Some "unknown"
                 end
      end
  end.

End Version.

(** ** The argument vector of a session and the calls of the buttons *)

Module Session.
Import PyStr PyMore Catalog Resolver Supervisor.

(** What the widgets of the radio tab hold when the button is pressed:
    [radio_combo.itemData(currentIndex())], the texts of the combo boxes and
    of the line edit, the check box, the spin box. *)
Record RadioTab := mkRadioTab
  { radio_data : option HardwareRecord;
    serial_text : string;
    civ_text : string;
    ptt_checked : bool;
    ptt_port_text : string;
    ptt_type_text : string;
    baud_text : string;
    tcp_value : Z }.

(** The widgets of the rotor tab and of the amplifier tab. *)
Record DeviceTab := mkDeviceTab
  { dev_serial_text : string;
    dev_baud_text : string;
    dev_port_value : Z }.

Record Widgets := mkWidgets
  { radio_tab : RadioTab; rotor_tab : DeviceTab; amp_tab : DeviceTab }.

(** The [tab] argument of the three connections. *)
Definition tab_name (k : DaemonKind) : string :=
  match k with
  | Radio => "radio"
  | Rotor => "rotor"
  | Amplifier => "amp"
  end.

(** ["icom" in data.get("mfg","").lower()] *)
Definition is_icom (data : HardwareRecord) : bool :=
  contains "icom" (lower (mfg data)).

(** [_on_radio_changed]: whether the CI-V field is enabled. *)
Definition civ_enabled (data : option HardwareRecord) : bool :=
  match data with
  | Some d => is_icom d
  | None => false
  end.

(** The f-string [f"{flag}{value}"]. *)
Definition arg (flag value : string) : string := flag ++ value.

(** [if value: args.append(f"{flag}{value}")] *)
Definition opt_arg (flag value : string) : list string :=
  if truthy value then [arg flag value] else [].

(** The list [args] of [_start_runner] before the filter, or [None] when
    the method shows the warning and returns. *)
Definition raw_args (tab : DaemonKind) (ui : Widgets)
  : option (list string) :=
  match tab with
  | Radio =>
      let r := radio_tab ui in
      match radio_data r with
      | None => None
      | Some data =>
          Some ([arg "--model=" (str_int (id data))]
                ++ opt_arg "--rig-file=" (serial_text r)
                ++ (if is_icom data
                    then opt_arg "--civaddr=" (strip (civ_text r))
                    else [])
                ++ (if ptt_checked r
                    then [arg "--ptt-file=" (ptt_port_text r);
                          arg "--ptt-type=" (ptt_type_text r)]
                    else [])
                ++ opt_arg "--serial-speed=" (baud_text r)
                ++ [arg "--port=" (str_int (tcp_value r))])%list
      end
  | Rotor =>
      let d := rotor_tab ui in
      Some [if truthy (dev_serial_text d)
            then arg "--rot-file=" (dev_serial_text d) else "";
            if truthy (dev_baud_text d)
            then arg "--serial-speed=" (dev_baud_text d) else "";
            arg "--port=" (str_int (dev_port_value d))]
  | Amplifier =>
      let d := amp_tab ui in
      Some [if truthy (dev_serial_text d)
            then arg "--amp-file=" (dev_serial_text d) else "";
            if truthy (dev_baud_text d)
            then arg "--serial-speed=" (dev_baud_text d) else "";
            arg "--port=" (str_int (dev_port_value d))]
  end.

(** [args = [a for a in args if a]; args.append("-vvvv")] *)
Definition session_args (tab : DaemonKind) (ui : Widgets)
  : option (list string) :=
  match raw_args tab ui with
  | None => None
  | Some args => Some (filter truthy args ++ ["-vvvv"])%list
  end.

(** [_start_runner(runner, tab)] for the runner of the tab, as the buttons
    are connected.  The result is the line appended to the output pane, if
    any, and the runners. *)
Definition _start_runner (tab : DaemonKind) (ui : Widgets) (root : Root)
  (raised : option Raise) (m : MainWindow)
  : option string * MainWindow :=
  match session_args tab ui with
  | None => (None, m)
  | Some args =>
      (Some ("Starting " ++ tab_name tab ++ " with: " ++ join " " args),
       set_runner tab (start root args raised (runner_of tab m)) m)
  end.

(** The value of the spin box of the tab. *)
Definition port_of (tab : DaemonKind) (ui : Widgets) : Z :=
  match tab with
  | Radio => tcp_value (radio_tab ui)
  | Rotor => dev_port_value (rotor_tab ui)
  | Amplifier => dev_port_value (amp_tab ui)
  end.

(** The vector of the radio tab, written out. *)
Definition radio_vector (r : RadioTab) (data : HardwareRecord) : list string :=
  ([arg "--model=" (str_int (id data))]
   ++ opt_arg "--rig-file=" (serial_text r)
   ++ (if is_icom data then opt_arg "--civaddr=" (strip (civ_text r)) else [])
   ++ (if ptt_checked r
       then [arg "--ptt-file=" (ptt_port_text r);
             arg "--ptt-type=" (ptt_type_text r)]
       else [])
   ++ opt_arg "--serial-speed=" (baud_text r)
   ++ [arg "--port=" (str_int (tcp_value r))])%list.

(** Some argument of the vector starts with the flag. *)
Definition has_flag (flag : string) (args : list string) : bool :=
  existsb (startswith flag) args.

End Session.

(** ** The stored selection *)

Module Settings.
Import PyStr PyMore Catalog.

(** A value of the settings store, as [str()] sees it: the store hands an
    integer back as an integer or as its text, depending on the platform. *)
Inductive Value :=
| VInt (z : Z)
| VStr (s : string).

(** [str(v)] *)
Definition str (v : Value) : string :=
  match v with
  | VInt z => str_int z
  | VStr s => s
  end.

(** What [save_settings] stores under ["radio_id"], ["rotor_id"] and
    ["amp_id"]: [data['id'] if data else ""]. *)
Definition saved_id (data : option HardwareRecord) : Value :=
  match data with
  | Some d => VInt (id d)
  | None => VStr ""
  end.

(** The inner loop of [restore_selected_items] for one combo box whose
    items carry [items], from index [i]: the index given to
    [setCurrentIndex], or [None] when the loop ends without a call. *)
Fixpoint restore_from (i : nat) (items : list HardwareRecord)
  (id_value : Value) : option nat :=
  match items with
  | [] => None
  | data :: rest =>
      if String.eqb (str_int (id data)) (str id_value) then Some i
      else restore_from (S i) rest id_value
  end.

Definition restore_index (items : list HardwareRecord) (id_value : Value)
  : option nat :=
  restore_from 0 items id_value.

End Settings.

(** ** Vocabulary of further statements *)

Module Vocabulary.
Import PyStr Resolver Installer Supervisor.

(** The node [x] is at the path [p] below the entries [es]. *)
Inductive At : Path -> Entries -> Node -> Prop :=
| At_here n x es : In (n, x) es -> At [n] es x
| At_below n t es' es p x :
    In (n, Dir t es') es -> At p es' x -> At (n :: p) es x.

(** The number of [started] signals in a list. *)
Fixpoint count_started (l : list Signal) : nat :=
  match l with
  | [] => 0
  | started :: r => S (count_started r)
  | _ :: r => count_started r
  end.

(** The number of [result] signals of a list thread. *)
Fixpoint count_results (l : list ListSignal) : nat :=
  match l with
  | [] => 0
  | result _ :: r => S (count_results r)
  | message _ :: r => count_results r
  end.

Fixpoint count_messages (l : list ListSignal) : nat :=
  match l with
  | [] => 0
  | result _ :: r => count_messages r
  | message _ :: r => S (count_messages r)
  end.

(** The last character of the string is a line feed. *)
Fixpoint ends_with_lf (s : string) : bool :=
  match s with
  | EmptyString => false
  | String c EmptyString => Ascii.eqb c LF
  | String _ r => ends_with_lf r
  end.

(** The executable of each kind. *)
Definition exe_of (k : DaemonKind) : string :=
  match k with
  | Radio => "rigctld.exe"
  | Rotor => "rotctld.exe"
  | Amplifier => "ampctld.exe"
  end.

(** The signals and the children tally: every reader thread that runs or
    has ended had its [started] signal, and every [started] signal had its
    child. *)
Definition tallies (w : HamlibRunner) : Prop :=
  consistent w
  /\ (count_stopped (emitted w) + List.length (readers w)
      + List.length (finishing w) <= count_started (emitted w))%nat
  /\ (count_started (emitted w) <= List.length (children w))%nat.

(** The children of a runner run its own executable, from the folder of
    that executable. *)
Definition in_own_folder (k : DaemonKind) (w : HamlibRunner) : Prop :=
  exe_name w = exe_of k
  /\ Forall (fun c => exe c = (cwd c ++ [exe_of k])%list) (children w).

(** Strictly increasing. *)
Fixpoint increasing (l : list Z) : Prop :=
  match l with
  | [] => True
  | x :: r => match r with
              | [] => True
              | y :: _ => (x < y)%Z
              end /\ increasing r
  end.

End Vocabulary.
(** ** Properties of the parsers *)

Module CatalogFacts.
Import PyStr Catalog.

Lemma data_loop_cons line rest acc :
  data_loop (line :: rest) acc =
  data_loop rest (match line_record line with
                  | Some r => acc ++ [r]
                  | None => acc
                  end)%list.
Proof.
  unfold line_record, record_of, fields; simpl.
  destruct (is_empty (strip line)); [reflexivity|].
  destruct (List.length (re_split_ws2 (strip line)) <? 3)%nat; [reflexivity|].
  destruct (int (item (re_split_ws2 (strip line)) 0)); reflexivity.
Qed.

Lemma data_loop_app l1 : forall l2 acc,
  data_loop (l1 ++ l2) acc = data_loop l2 (data_loop l1 acc).
Proof.
  induction l1 as [|line l1 IH]; intros l2 acc; [reflexivity|].
  rewrite <- app_comm_cons, !data_loop_cons. apply IH.
Qed.

Lemma malformed_no_record line : malformed line -> line_record line = None.
Proof.
  unfold malformed, line_record. intros [Hlen|Hint].
  - destruct (is_empty (strip line)); [reflexivity|].
    apply Nat.ltb_lt in Hlen. now rewrite Hlen.
  - destruct (is_empty (strip line)); [reflexivity|].
    destruct (List.length (fields line) <? 3)%nat; [reflexivity|].
    now rewrite Hint.
Qed.

Lemma re_split_from_nonempty s : forall cur b, re_split_from cur b s <> [].
Proof.
  induction s as [|c r IH]; intros cur b; simpl; [discriminate|].
  destruct b.
  - destruct (is_space c); apply IH.
  - destruct (is_space c && starts_with_space r); [discriminate|apply IH].
Qed.

Lemma well_formed_record line n :
  well_formed line n -> line_record line = Some (record_of line n).
Proof.
  unfold well_formed, line_record. intros [Hlen Hint].
  destruct (is_empty (strip line)) eqn:He.
  - unfold fields in Hlen. destruct (strip line); [simpl in Hlen; lia|discriminate].
  - destruct (Nat.ltb_spec (List.length (fields line)) 3); [lia|].
    now rewrite Hint.
Qed.

Lemma skip_malformed pre bad post acc :
  malformed bad ->
  data_loop (pre ++ bad :: post) acc = data_loop (pre ++ post) acc.
Proof.
  intros Hbad. rewrite !data_loop_app, data_loop_cons.
  now rewrite (malformed_no_record _ Hbad).
Qed.

Lemma data_loop_In r lines : forall acc,
  In r (data_loop lines acc) <->
  In r acc \/ exists line, In line lines /\ line_record line = Some r.
Proof.
  induction lines as [|line rest IH]; intros acc.
  - simpl. split; [auto|]. intros [H|[l [[] _]]]; exact H.
  - rewrite data_loop_cons, IH. split.
    + intros [H|[l [Hl Hr]]].
      * destruct (line_record line) as [r'|] eqn:E; [|auto].
        apply in_app_or in H. destruct H as [H|[H|[]]]; [auto|].
        subst r'. right. exists line. split; [now left|exact E].
      * right. exists l. split; [now right|exact Hr].
    + intros [H|[l [[Hl|Hl] Hr]]].
      * left. destruct (line_record line); [apply in_or_app|]; auto.
      * subst l. rewrite Hr. left. apply in_or_app. right. now left.
      * right. exists l. auto.
Qed.

(** The slice [lines[start:]] is the part after the first marker line, or
    the whole list when no line matches. *)
Lemma find_start_spec marker lines : forall i,
  (after_first marker lines = None /\ find_start marker i lines = 0%nat)
  \/ exists a h b, lines = (a ++ h :: b)%list
       /\ after_first marker lines = Some b
       /\ find_start marker i lines = (i + List.length a + 1)%nat.
Proof.
  induction lines as [|l r IH]; intros i; simpl.
  - now left.
  - destruct (marker l) eqn:E.
    + right. exists [], l, r. simpl. repeat split. lia.
    + destruct (IH (i + 1)%nat) as [[H1 H2]|[a [h [b [H1 [H2 H3]]]]]].
      * now left.
      * right. exists (l :: a), h, b. subst r. simpl. repeat split; [exact H2|lia].
Qed.

Lemma data_region marker lines :
  skipn (find_start marker 0 lines) lines =
  match after_first marker lines with Some b => b | None => lines end.
Proof.
  destruct (find_start_spec marker lines 0)
    as [[H1 H2]|[a [h [b [H1 [H2 H3]]]]]].
  - now rewrite H1, H2.
  - rewrite H2, H3. subst lines. simpl.
    replace (List.length a + 1)%nat with (List.length a + 1 + 0)%nat by lia.
    rewrite <- Nat.add_assoc. rewrite skipn_app.
    rewrite skipn_all2 by lia.
    replace (List.length a + (1 + 0) - List.length a)%nat with 1%nat by lia.
    reflexivity.
Qed.

Lemma after_first_app marker x y :
  after_first marker (x ++ y) =
  match after_first marker x with
  | Some r => Some (r ++ y)%list
  | None => after_first marker y
  end.
Proof.
  induction x as [|l r IH]; simpl; [reflexivity|].
  destruct (marker l); [reflexivity|exact IH].
Qed.

Lemma after_first_none marker lines :
  Forall (fun l => marker l = false) lines -> after_first marker lines = None.
Proof.
  induction 1 as [|l r Hl _ IH]; simpl; [reflexivity|now rewrite Hl].
Qed.

Lemma after_first_some marker lines :
  Exists (fun l => marker l = true) lines ->
  exists b, after_first marker lines = Some b.
Proof.
  induction 1 as [l r Hl|l r _ IH]; simpl.
  - rewrite Hl. eauto.
  - destruct (marker l); eauto.
Qed.

Lemma splitlines_from_line line : forall cur rest,
  is_line line = true ->
  splitlines_from cur false (line ++ String LF rest) =
  (cur ++ line) :: splitlines_from "" false rest.
Proof.
  induction line as [|c r IH]; intros cur rest Hl.
  - simpl. replace (cur ++ "") with cur; [reflexivity|].
    clear. induction cur; simpl; congruence.
  - simpl in Hl. apply andb_true_iff in Hl. destruct Hl as [Hc Hr].
    apply negb_true_iff in Hc. simpl. rewrite Hc.
    rewrite IH by exact Hr. f_equal. unfold snoc.
    clear. induction cur; simpl; congruence.
Qed.

Lemma splitlines_unlines ls :
  Forall (fun l => is_line l = true) ls -> splitlines (unlines ls) = ls.
Proof.
  induction 1 as [|l r Hl _ IH]; [reflexivity|].
  unfold splitlines in *.
  change (unlines (l :: r)) with (l ++ String LF (unlines r)).
  rewrite splitlines_from_line by exact Hl. simpl. now rewrite IH.
Qed.

Lemma parse_with_lines marker text :
  parse_with marker text =
  data_loop (match after_first marker (splitlines text) with
             | Some b => b
             | None => splitlines text
             end) [].
Proof. unfold parse_with. now rewrite data_region. Qed.

Lemma parse_with_skip marker text text' pre bad post :
  splitlines text = (pre ++ bad :: post)%list ->
  splitlines text' = (pre ++ post)%list ->
  malformed bad ->
  not_the_header marker pre bad ->
  parse_with marker text = parse_with marker text'.
Proof.
  intros Htext Htext' Hbad Hhdr.
  rewrite !parse_with_lines, Htext, Htext', !after_first_app. simpl.
  destruct (after_first marker pre) as [b|] eqn:Epre.
  - apply skip_malformed, Hbad.
  - destruct Hhdr as [Hex|Hm].
    + apply after_first_some in Hex. destruct Hex as [b Hb]. congruence.
    + rewrite Hm. destruct (after_first marker post); [reflexivity|].
      apply skip_malformed, Hbad.
Qed.

(** C4. The listing made of the header line "Rig #  Mfg    Model" and the
    data line "1  Yaesu  FT-817" parses to the single record
    {id 1, mfg "Yaesu", model "FT-817", label "Yaesu - FT-817"}, and a
    following line "abc  X  Y" adds nothing.  For every text, with lines
    [pre], [bad], [post]: when [bad] splits into fewer than three fields or
    its first field is no integer, both parsers return exactly the records
    they return for a text with the lines [pre], [post] alone. *)
Theorem malformed_line_is_skipped (text text' : string)
  (pre post : list string) (bad : string) :
  splitlines text = (pre ++ bad :: post)%list ->
  splitlines text' = (pre ++ post)%list ->
  malformed bad ->
  parse_rig_list ("Rig #  Mfg    Model" ++ nl ++ "1  Yaesu  FT-817")
    = [mkRecord 1 "Yaesu" "FT-817" "Yaesu - FT-817"]
  /\ parse_rig_list ("Rig #  Mfg    Model" ++ nl ++ "1  Yaesu  FT-817"
                     ++ nl ++ "abc  X  Y")
    = [mkRecord 1 "Yaesu" "FT-817" "Yaesu - FT-817"]
  /\ (not_the_header search_rig_marker pre bad ->
      parse_rig_list text = parse_rig_list text')
  /\ (not_the_header search_device_marker pre bad ->
      parse_device_list text = parse_device_list text').
Proof.
  intros Htext Htext' Hbad. split; [reflexivity|]. split; [reflexivity|].
  split; intros Hhdr; eapply parse_with_skip; eassumption.
Qed.

Lemma malformed_line_is_skipped_witness :
  malformed "abc  X  Y"
  /\ parse_rig_list ("Rig #  Mfg    Model" ++ nl ++ "1  Yaesu  FT-817" ++ nl
                     ++ "abc  X  Y" ++ nl ++ "2  Icom  IC-7300")
     = parse_rig_list ("Rig #  Mfg    Model" ++ nl ++ "1  Yaesu  FT-817" ++ nl
                       ++ "2  Icom  IC-7300")
  /\ parse_device_list (" Rot #  Mfg    Model" ++ nl ++ "1  Hamlib  Dummy"
                        ++ nl ++ "7" ++ nl ++ "2  Hamlib  NET rotctl" ++ nl)
     = parse_device_list (" Rot #  Mfg    Model" ++ nl ++ "1  Hamlib  Dummy"
                          ++ nl ++ "2  Hamlib  NET rotctl" ++ nl).
Proof.
  split; [right; reflexivity|]. split.
  - apply (malformed_line_is_skipped _ _
             ["Rig #  Mfg    Model"; "1  Yaesu  FT-817"]
             ["2  Icom  IC-7300"] "abc  X  Y").
    + reflexivity.
    + reflexivity.
    + right; reflexivity.
    + left. apply Exists_cons_hd. reflexivity.
  - apply (malformed_line_is_skipped _ _
             [" Rot #  Mfg    Model"; "1  Hamlib  Dummy"]
             ["2  Hamlib  NET rotctl"] "7").
    + reflexivity.
    + reflexivity.
    + left. vm_compute. lia.
    + left. apply Exists_cons_hd. reflexivity.
Defined.

(** C10. For every text none of whose lines matches the header marker, the
    parsers take the whole text, from its first line, as the data region:
    the result is what the data loop yields on all the lines, and every
    line with at least three fields and an integer first field has its
    record in the result. *)
Theorem no_header_whole_text_is_data (text line : string) (n : Z) :
  In line (splitlines text) ->
  well_formed line n ->
  (Forall (fun l => search_rig_marker l = false) (splitlines text) ->
   parse_rig_list text = data_loop (splitlines text) []
   /\ In (record_of line n) (parse_rig_list text))
  /\ (Forall (fun l => search_device_marker l = false) (splitlines text) ->
      parse_device_list text = data_loop (splitlines text) []
      /\ In (record_of line n) (parse_device_list text)).
Proof.
  intros Hin Hwf.
  assert (Hgen : forall marker,
    Forall (fun l => marker l = false) (splitlines text) ->
    parse_with marker text = data_loop (splitlines text) []
    /\ In (record_of line n) (parse_with marker text)).
  { intros marker Hno. rewrite parse_with_lines.
    rewrite (after_first_none _ _ Hno). split; [reflexivity|].
    apply data_loop_In. right. exists line. split; [exact Hin|].
    apply well_formed_record, Hwf. }
  split; intros Hno; apply Hgen, Hno.
Qed.

Lemma no_header_whole_text_is_data_witness :
  parse_rig_list ("1  Yaesu  FT-817" ++ nl ++ "2  Icom  IC-7300")
  = data_loop ["1  Yaesu  FT-817"; "2  Icom  IC-7300"] []
  /\ In (mkRecord 2 "Icom" "IC-7300" "Icom - IC-7300")
        (parse_rig_list ("1  Yaesu  FT-817" ++ nl ++ "2  Icom  IC-7300"))
  /\ In (mkRecord 2 "Icom" "IC-7300" "Icom - IC-7300")
        (parse_device_list ("1  Yaesu  FT-817" ++ nl ++ "2  Icom  IC-7300")).
Proof.
  pose (text := "1  Yaesu  FT-817" ++ nl ++ "2  Icom  IC-7300").
  assert (Hs : splitlines text = ["1  Yaesu  FT-817"; "2  Icom  IC-7300"])
    by reflexivity.
  assert (Hin : In "2  Icom  IC-7300" (splitlines text))
    by (rewrite Hs; right; left; reflexivity).
  assert (Hwf : well_formed "2  Icom  IC-7300" 2%Z)
    by (split; [vm_compute; lia|reflexivity]).
  assert (Hrig : Forall (fun l => search_rig_marker l = false)
                        (splitlines text)).
  { rewrite Hs. apply Forall_cons; [reflexivity|].
    apply Forall_cons; [reflexivity|]. apply Forall_nil. }
  assert (Hdev : Forall (fun l => search_device_marker l = false)
                        (splitlines text)).
  { rewrite Hs. apply Forall_cons; [reflexivity|].
    apply Forall_cons; [reflexivity|]. apply Forall_nil. }
  pose proof (no_header_whole_text_is_data text "2  Icom  IC-7300" 2%Z
                Hin Hwf) as [Hr Hd].
  destruct (Hr Hrig) as [H1 H2]. destruct (Hd Hdev) as [_ H3].
  rewrite Hs in H1. exact (conj H1 (conj H2 H3)).
Defined.

End CatalogFacts.
(** ** Properties of the resolver *)

Module ResolverFacts.
Import PyStr Resolver.

Lemma max_by_mtime_In rest : forall best,
  In (max_by_mtime best rest) (best :: rest).
Proof.
  induction rest as [|c r IH]; intros best; simpl; [now left|].
  destruct (st_mtime (snd best) <? st_mtime (snd c))%Z.
  - right. apply IH.
  - destruct (IH best) as [H|H]; [left; exact H|right; right; exact H].
Qed.

Lemma max_by_mtime_ge rest : forall best x,
  In x (best :: rest) ->
  (st_mtime (snd x) <= st_mtime (snd (max_by_mtime best rest)))%Z.
Proof.
  induction rest as [|c r IH]; intros best x Hx; simpl.
  - destruct Hx as [<-|[]]. lia.
  - destruct (Z.ltb_spec (st_mtime (snd best)) (st_mtime (snd c))) as [Hlt|Hge].
    + destruct Hx as [<-|Hx].
      * specialize (IH c c (or_introl eq_refl)). lia.
      * apply IH, Hx.
    + destruct Hx as [<-|[<-|Hx]].
      * apply IH. now left.
      * specialize (IH best best (or_introl eq_refl)). lia.
      * apply IH. now right.
Qed.

Lemma lookup_In name x es :
  NoDup (map fst es) -> In (name, x) es -> lookup name es = Some x.
Proof.
  induction es as [|[n y] r IH]; intros Hnd Hin; [destruct Hin|].
  simpl in *. inversion Hnd as [|? ? Hnotin Hnd']; subst.
  destruct Hin as [Heq|Hin].
  - inversion Heq; subst. now rewrite String.eqb_refl.
  - destruct (String.eqb_spec n name) as [->|_].
    + exfalso. apply Hnotin. change name with (fst (name, x)).
      apply in_map, Hin.
    + apply IH; assumption.
Qed.

Lemma path_exists_bin d x name es :
  lookup d es = Some x ->
  path_exists [d; "bin"; name] (Some es) = has_bin_exe name x.
Proof.
  intros Hl. unfold path_exists, has_bin_exe, exists_in. simpl. rewrite Hl.
  destruct x as [c|t es']; [reflexivity|].
  destruct (lookup "bin" es') as [[c|t' bes]|]; reflexivity.
Qed.

Lemma path_exists_root_bin name es :
  path_exists ["bin"; name] (Some es) = has_bin_exe name (Dir 0 es).
Proof.
  unfold path_exists, has_bin_exe, exists_in. simpl.
  destruct (lookup "bin" es) as [[c|t' bes]|]; reflexivity.
Qed.

Lemma candidates_sound e es :
  In e (candidates es) -> In e es /\ has_bin_exe "rigctld.exe" (snd e) = true.
Proof. unfold candidates. apply filter_In. Qed.

(** *** The recursive walk *)

(** Induction on the tree, with the hypothesis for every entry of a
    directory. *)
Lemma Node_tree_ind (P : Node -> Prop) :
  (forall c, P (File c)) ->
  (forall t es, Forall (fun e => P (snd e)) es -> P (Dir t es)) ->
  forall x, P x.
Proof.
  intros HF HD. fix IH 1. intros [c|t es]; [apply HF|]. apply HD.
  induction es as [|[n y] r IHr]; constructor; [apply IH|exact IHr].
Qed.

Lemma in_files_files name es :
  in_files name es = existsb (String.eqb name) (files es).
Proof.
  induction es as [|[n [c|t es']] r IH]; simpl; [reflexivity| |exact IH].
  now rewrite IH, String.eqb_sym.
Qed.

Lemma first_match_app name l1 l2 :
  first_match name (l1 ++ l2)
  = match first_match name l1 with
    | Some p => Some p
    | None => first_match name l2
    end.
Proof.
  unfold first_match. induction l1 as [|[d fs] r IH]; [reflexivity|].
  simpl. destruct (existsb (String.eqb name) fs); [reflexivity|exact IH].
Qed.

Lemma In_existsb name fs :
  existsb (String.eqb name) fs = true <-> In name fs.
Proof.
  rewrite existsb_exists. split.
  - intros [x [Hin Hx]]. apply String.eqb_eq in Hx. now subst.
  - intros H. exists name. split; [exact H|apply String.eqb_refl].
Qed.

Lemma first_match_None name l :
  first_match name l = None
  <-> forall dir fs, In (dir, fs) l -> ~ In name fs.
Proof.
  unfold first_match. induction l as [|[d fs] r IH]; simpl.
  - split; [intros _ dir fs []|reflexivity].
  - destruct (existsb (String.eqb name) fs) eqn:E.
    + split; [discriminate|]. intros H. exfalso.
      apply (H d fs); [now left|]. now apply In_existsb.
    + rewrite IH. split.
      * intros H dir fs' [Heq|Hin]; [|now apply (H dir fs')].
        inversion Heq; subst. rewrite <- In_existsb. congruence.
      * intros H dir fs' Hin. apply (H dir fs'). now right.
Qed.

Lemma first_match_Some name l p :
  first_match name l = Some p ->
  exists before dir fs after,
    l = (before ++ (dir, fs) :: after)%list
    /\ p = (dir ++ [name])%list
    /\ In name fs
    /\ forall d' fs', In (d', fs') before -> ~ In name fs'.
Proof.
  unfold first_match. induction l as [|[d fs] r IH]; simpl; [discriminate|].
  destruct (existsb (String.eqb name) fs) eqn:E.
  - intros H. inversion H; subst. exists [], d, fs, r.
    split; [reflexivity|]. split; [reflexivity|].
    split; [now apply In_existsb|]. intros d' fs' [].
  - intros H. destruct (IH H) as [b [dir [fs0 [a [Hl [Hp [Hin Hb]]]]]]].
    exists ((d, fs) :: b), dir, fs0, a. subst r.
    split; [reflexivity|]. split; [exact Hp|]. split; [exact Hin|].
    intros d' fs' [Heq|Hx]; [|now apply (Hb d' fs')].
    inversion Heq; subst. rewrite <- In_existsb. congruence.
Qed.

(** The search of [walk] returns what the loop of [find_exe] returns over
    the yields of [os.walk]: the first directory, in the order of the
    yields, that has a file of the name. *)
Lemma walk_first_match name x : forall here,
  walk name here x = first_match name (walk_yields here x).
Proof.
  induction x as [c|t es IH] using Node_tree_ind; intros here;
    [reflexivity|].
  cbn [walk walk_yields]. rewrite in_files_files.
  unfold first_match at 1. cbn [find snd].
  destruct (existsb (String.eqb name) (files es)); [reflexivity|].
  fold (first_match name
          (flat_map (fun e => match e with
                              | (d, child) =>
                                  walk_yields (here ++ [d])%list child
                              end) es)).
  induction es as [|[d child] r IHr]; [reflexivity|].
  inversion IH as [|? ? Hd Hr]; subst. cbn [first_some flat_map].
  cbn [snd] in Hd. rewrite first_match_app, <- (Hd (here ++ [d])%list).
  destruct (walk name (here ++ [d])%list child); [reflexivity|].
  now apply IHr.
Qed.

(** C5, as the code has it.  The candidates are the immediate
    sub-directories whose [bin/] holds [rigctld.exe], whatever executable is
    asked for.  When there are candidates, the first of those with the
    greatest modification time is chosen and the executable is returned from
    its [bin/] if it is there; when there is none and the root's own [bin/]
    holds [rigctld.exe], the executable is returned from the root's [bin/]
    if it is there; in every other case the result is that of the recursive
    walk.  The walk returns its first match, or nothing: the file of that
    name in the first directory that has one, in the order in which
    [os.walk] yields the directories, and nothing exactly when no directory
    has one.  For [rigctld.exe] itself this is the order the specification
    gives. *)
Theorem find_exe_resolution_order (name : string) (es : Entries) :
  NoDup (map fst es) ->
  match candidates es with
  | c :: cs =>
      let best := max_by_mtime c cs in
      In best (candidates es)
      /\ (forall x, In x (candidates es) ->
                    (st_mtime (snd x) <= st_mtime (snd best))%Z)
      /\ find_exe name (Some es) =
         if has_bin_exe name (snd best)
         then Some [fst best; "bin"; name]
         else os_walk name (Some es)
  | [] =>
      find_exe name (Some es) =
      if has_bin_exe "rigctld.exe" (Dir 0 es) && has_bin_exe name (Dir 0 es)
      then Some ["bin"; name]
      else os_walk name (Some es)
  end
  /\ os_walk name (Some es)
     = first_match name (walk_yields [] (Dir 0 es))
  /\ (os_walk name (Some es) = None
      <-> forall dir fs, In (dir, fs) (walk_yields [] (Dir 0 es)) ->
                         ~ In name fs)
  /\ (forall p, os_walk name (Some es) = Some p ->
        exists before dir fs after,
          walk_yields [] (Dir 0 es) = (before ++ (dir, fs) :: after)%list
          /\ p = (dir ++ [name])%list
          /\ In name fs
          /\ forall d' fs', In (d', fs') before -> ~ In name fs')
  /\ find_exe name None = None
  /\ find_exe "rigctld.exe" (Some es)
     = resolve_as_specified "rigctld.exe" (Some es).
Proof.
  intros Hnd.
  assert (Hbest : forall c cs, candidates es = c :: cs ->
            lookup (fst (max_by_mtime c cs)) es
            = Some (snd (max_by_mtime c cs))
            /\ has_bin_exe "rigctld.exe" (snd (max_by_mtime c cs)) = true).
  { intros c cs E.
    pose proof (max_by_mtime_In cs c) as Hin. rewrite <- E in Hin.
    apply candidates_sound in Hin. destruct Hin as [Hin Hm].
    split; [|exact Hm]. apply lookup_In; [exact Hnd|].
    now destruct (max_by_mtime c cs). }
  assert (Hwalk : os_walk name (Some es)
                  = first_match name (walk_yields [] (Dir 0 es)))
    by apply walk_first_match.
  split; [|split; [exact Hwalk|split; [|split; [|split; [reflexivity|]]]]].
  - destruct (candidates es) as [|c cs] eqn:E.
    + unfold find_exe, get_latest_bin_dir. rewrite E.
      destruct (has_bin_exe "rigctld.exe" (Dir 0 es)) eqn:Hroot;
        [|reflexivity].
      change (["bin"] ++ [name])%list with ["bin"; name].
      now rewrite path_exists_root_bin.
    + destruct (Hbest c cs eq_refl) as [Hl _].
      split; [apply max_by_mtime_In|].
      split; [apply max_by_mtime_ge|].
      unfold find_exe, get_latest_bin_dir. rewrite E.
      change ([fst (max_by_mtime c cs); "bin"] ++ [name])%list
        with [fst (max_by_mtime c cs); "bin"; name].
      now rewrite (path_exists_bin _ _ _ _ Hl).
  - rewrite Hwalk. apply first_match_None.
  - rewrite Hwalk. apply first_match_Some.
  - unfold find_exe, get_latest_bin_dir, resolve_as_specified, candidates_for.
    fold (candidates es).
    destruct (candidates es) as [|c cs] eqn:E.
    + destruct (has_bin_exe "rigctld.exe" (Dir 0 es)) eqn:Hroot;
        [|reflexivity].
      change (["bin"] ++ ["rigctld.exe"])%list with ["bin"; "rigctld.exe"].
      now rewrite path_exists_root_bin, Hroot.
    + destruct (Hbest c cs eq_refl) as [Hl Hm].
      change ([fst (max_by_mtime c cs); "bin"] ++ ["rigctld.exe"])%list
        with [fst (max_by_mtime c cs); "bin"; "rigctld.exe"].
      now rewrite (path_exists_bin _ _ _ _ Hl), Hm.
Qed.

(** With two complete trees of different ages, every daemon resolves below
    the newer tree. *)
Lemma find_exe_resolution_order_witness :
  find_exe "rotctld.exe" (Some Samples.two_full_trees)
  = Some ["hamlib-w64-4.6"; "bin"; "rotctld.exe"].
Proof.
  pose proof (find_exe_resolution_order "rotctld.exe" Samples.two_full_trees)
    as H.
  assert (Hnd : NoDup (map fst Samples.two_full_trees)).
  { simpl. constructor.
    - simpl. intros [H0|[]]. discriminate H0.
    - constructor; [intros []|constructor]. }
  destruct (H Hnd) as [[_ [_ Hfind]] _]. exact Hfind.
Defined.

(** C5, as the specification words it, fails: asked for [rotctld.exe] in a
    root where the older tree holds [rigctld.exe] and [rotctld.exe] and the
    newer tree holds [rotctld.exe] only, the code returns the path below the
    older tree, while the newest sub-directory whose [bin/] holds the
    executable is the newer one. *)
Lemma find_exe_candidates_by_rigctld :
  find_exe "rotctld.exe" Samples.two_trees
    = Some ["hamlib-w64-4.5"; "bin"; "rotctld.exe"]
  /\ resolve_as_specified "rotctld.exe" Samples.two_trees
    = Some ["hamlib-w64-4.6"; "bin"; "rotctld.exe"]
  /\ find_exe "rotctld.exe" Samples.two_trees
     <> resolve_as_specified "rotctld.exe" Samples.two_trees.
Proof. repeat split; try reflexivity. discriminate. Qed.

End ResolverFacts.
(** ** Properties of the installer *)

Module InstallerFacts.
Import PyStr Resolver Installer.

Lemma append_nil_r (s : string) : s ++ "" = s.
Proof. induction s; simpl; congruence. Qed.

Lemma append_assoc (a b c : string) : (a ++ b) ++ c = a ++ b ++ c.
Proof. induction a; simpl; congruence. Qed.

Lemma lower_app (a b : string) : lower (a ++ b) = lower a ++ lower b.
Proof. induction a; simpl; congruence. Qed.

Lemma endswith_app (p a : string) : endswith p (a ++ p) = true.
Proof.
  induction a as [|c a IH]; simpl.
  - destruct p; simpl; [reflexivity|].
    now rewrite Ascii.eqb_refl, String.eqb_refl.
  - rewrite IH. apply orb_true_r.
Qed.

(** *** The selection of the asset *)

Lemma no_url_found (test : Asset -> bool) l a :
  Forall (fun x => browser_download_url x <> "") l ->
  find test l = Some a ->
  no_url (Some (browser_download_url a, name a)) = false.
Proof.
  intros Hall Hf. apply find_some in Hf. destruct Hf as [Hin _].
  rewrite Forall_forall in Hall. specialize (Hall a Hin). simpl.
  destruct (browser_download_url a); [congruence|reflexivity].
Qed.

(** C6. For every release descriptor whose download addresses are not
    empty, the installer selects one archive by this order of preference:
    the first asset whose lower-cased name ends in ".zip" and holds the
    marker "w64"; else the first asset whose name ends in ".zip"; else the
    source archive [zipball_url] under the name "hamlib-<tag>.zip".  In
    particular, of two zip assets of which exactly one holds the marker,
    the one with the marker is selected, in whichever order they come. *)
Theorem asset_preference_order (latest : Release) (a b : Asset) :
  Forall (fun x => browser_download_url x <> "") (assets latest) ->
  select_asset latest =
    match find is_w64_zip (assets latest) with
    | Some x => (Some (browser_download_url x), name x)
    | None =>
        match find is_zip (assets latest) with
        | Some x => (Some (browser_download_url x), name x)
        | None => (zipball_url latest,
                   "hamlib-" ++ or_default (tag_name latest) "latest" ++ ".zip")
        end
    end
  /\ (is_zip a = true -> is_zip b = true ->
      has_marker a = true -> has_marker b = false ->
      assets latest = [a; b] \/ assets latest = [b; a] ->
      select_asset latest = (Some (browser_download_url a), name a)).
Proof.
  intros Hall.
  assert (Horder : select_asset latest =
    match find is_w64_zip (assets latest) with
    | Some x => (Some (browser_download_url x), name x)
    | None =>
        match find is_zip (assets latest) with
        | Some x => (Some (browser_download_url x), name x)
        | None => (zipball_url latest,
                   "hamlib-" ++ or_default (tag_name latest) "latest" ++ ".zip")
        end
    end).
  { unfold select_asset, first_asset.
    destruct (find is_w64_zip (assets latest)) as [x|] eqn:E1.
    - now rewrite !(no_url_found _ _ _ Hall E1).
    - simpl. destruct (find is_zip (assets latest)) as [y|] eqn:E2.
      + now rewrite !(no_url_found _ _ _ Hall E2).
      + reflexivity. }
  split; [exact Horder|].
  intros Za Zb Ma Mb Hassets. rewrite Horder.
  assert (Wa : is_w64_zip a = true).
  { unfold is_w64_zip. unfold is_zip in Za. unfold has_marker in Ma.
    now rewrite Za, Ma. }
  assert (Wb : is_w64_zip b = false).
  { unfold is_w64_zip. unfold has_marker in Mb. rewrite Mb.
    apply andb_false_r. }
  destruct Hassets as [-> | ->]; simpl; rewrite ?Wb, Wa; reflexivity.
Qed.

Lemma asset_preference_order_witness :
  select_asset Samples.release_45
  = (Some "https://example.org/hamlib-w64-4.5.zip", "hamlib-w64-4.5.zip")
  /\ select_asset
       (mkRelease (Some "4.5")
          [mkAsset "hamlib-w32-4.5.zip" "https://example.org/w32";
           mkAsset "Hamlib-W64-4.5.ZIP" "https://example.org/w64"] None)
     = (Some "https://example.org/w64", "Hamlib-W64-4.5.ZIP").
Proof.
  split.
  - apply (asset_preference_order Samples.release_45
             (mkAsset "" "") (mkAsset "" "")).
    repeat constructor; discriminate.
  - apply (asset_preference_order
             (mkRelease (Some "4.5")
                [mkAsset "hamlib-w32-4.5.zip" "https://example.org/w32";
                 mkAsset "Hamlib-W64-4.5.ZIP" "https://example.org/w64"] None)
             (mkAsset "Hamlib-W64-4.5.ZIP" "https://example.org/w64")
             (mkAsset "hamlib-w32-4.5.zip" "https://example.org/w32")).
    + repeat constructor; discriminate.
    + reflexivity.
    + reflexivity.
    + reflexivity.
    + reflexivity.
    + right. reflexivity.
Defined.

Lemma asset_name_is_zip (latest : Release) :
  endswith ".zip" (lower (snd (select_asset latest))) = true.
Proof.
  assert (Hfirst : forall test sel,
    (forall x, test x = true -> endswith ".zip" (lower (name x)) = true) ->
    (forall u n, sel = Some (u, n) -> endswith ".zip" (lower n) = true) ->
    forall u n, first_asset test (assets latest) sel = Some (u, n) ->
                endswith ".zip" (lower n) = true).
  { intros test sel Ht Hs u n. unfold first_asset.
    destruct (find test (assets latest)) as [x|] eqn:E.
    - intros H. inversion H; subst. apply Ht.
      apply find_some in E. apply E.
    - apply Hs. }
  assert (H1 : forall u n,
    first_asset is_w64_zip (assets latest) None = Some (u, n) ->
    endswith ".zip" (lower n) = true).
  { apply Hfirst; [|discriminate].
    intros x Hx. unfold is_w64_zip in Hx.
    apply andb_true_iff in Hx. apply Hx. }
  unfold select_asset.
  set (sel1 := first_asset is_w64_zip (assets latest) None) in *.
  set (sel2 := if no_url sel1 then first_asset is_zip (assets latest) sel1
               else sel1).
  assert (H2 : forall u n, sel2 = Some (u, n) ->
                           endswith ".zip" (lower n) = true).
  { unfold sel2. destruct (no_url sel1); [|exact H1].
    apply Hfirst; [|exact H1]. intros x Hx. exact Hx. }
  destruct (no_url sel2) eqn:E.
  - cbn [snd]. rewrite <- append_assoc, lower_app.
    apply (endswith_app ".zip").
  - destruct sel2 as [[u n]|]; [|discriminate]. simpl. now apply (H2 u).
Qed.

Lemma dest_is_no_daemon (latest : Release) :
  snd (select_asset latest) <> "bin"
  /\ ~ In (snd (select_asset latest)) daemons.
Proof.
  pose proof (asset_name_is_zip latest) as H.
  split.
  - intros E. rewrite E in H. discriminate H.
  - intros [E|[E|[E|[]]]]; rewrite <- E in H; discriminate H.
Qed.

(** *** The directory after a write to [dest] *)

Section WriteToDest.

Variable dest : string.

Lemma not_dir_tail m y r :
  String.eqb m dest = false -> not_dir dest ((m, y) :: r) -> not_dir dest r.
Proof. intros E H t es'. specialize (H t es'). simpl in H. now rewrite E in H. Qed.

Lemma not_dir_head m y r :
  String.eqb m dest = true -> not_dir dest ((m, y) :: r) ->
  exists c, y = File c.
Proof.
  intros E H. destruct y as [c|t es']; [eauto|].
  exfalso. apply (H t es'). simpl. now rewrite E.
Qed.

Lemma lookup_put_same x es : lookup dest (put_entry dest x es) = Some x.
Proof.
  induction es as [|[m y] r IH]; simpl.
  - now rewrite String.eqb_refl.
  - destruct (String.eqb m dest) eqn:E; simpl.
    + now rewrite String.eqb_refl.
    + now rewrite E.
Qed.

Lemma lookup_put_other n x es :
  n <> dest -> lookup n (put_entry dest x es) = lookup n es.
Proof.
  intros Hn. induction es as [|[m y] r IH]; simpl.
  - destruct (String.eqb_spec dest n); [congruence|reflexivity].
  - destruct (String.eqb_spec m dest) as [->|Hm]; simpl.
    + destruct (String.eqb_spec dest n); [congruence|reflexivity].
    + now rewrite IH.
Qed.

Lemma put_put x y es :
  put_entry dest x (put_entry dest y es) = put_entry dest x es.
Proof.
  induction es as [|[m z] r IH]; simpl.
  - now rewrite String.eqb_refl.
  - destruct (String.eqb m dest) eqn:E; simpl.
    + now rewrite String.eqb_refl.
    + now rewrite E, IH.
Qed.

Lemma others_put x es : others dest (put_entry dest x es) = others dest es.
Proof.
  induction es as [|[m y] r IH]; simpl.
  - now rewrite String.eqb_refl.
  - unfold others in *. destruct (String.eqb m dest) eqn:E; simpl.
    + now rewrite String.eqb_refl.
    + now rewrite E, IH.
Qed.

Lemma candidates_put c es :
  not_dir dest es -> candidates (put_entry dest (File c) es) = candidates es.
Proof.
  induction es as [|[m y] r IH]; intros Hnd; [reflexivity|]. simpl.
  destruct (String.eqb m dest) eqn:E.
  - destruct (not_dir_head _ _ _ E Hnd) as [c0 ->]. reflexivity.
  - unfold candidates in *. simpl. rewrite IH; [reflexivity|].
    eapply not_dir_tail; eassumption.
Qed.

Lemma in_files_put n c es :
  n <> dest -> not_dir dest es ->
  in_files n (put_entry dest (File c) es) = in_files n es.
Proof.
  intros Hn. induction es as [|[m y] r IH]; intros Hnd; simpl.
  - destruct (String.eqb_spec dest n); [congruence|reflexivity].
  - destruct (String.eqb m dest) eqn:E.
    + destruct (not_dir_head _ _ _ E Hnd) as [c0 ->]. simpl.
      apply String.eqb_eq in E. subst m. reflexivity.
    + destruct y as [c0|t es']; simpl; rewrite IH;
        try reflexivity; eapply not_dir_tail; eassumption.
Qed.

Lemma first_some_put {B} (f : string * Node -> option B) c es :
  (forall c', f (dest, File c') = None) ->
  not_dir dest es ->
  first_some f (put_entry dest (File c) es) = first_some f es.
Proof.
  intros Hf. induction es as [|[m y] r IH]; intros Hnd; simpl.
  - now rewrite Hf.
  - destruct (String.eqb m dest) eqn:E.
    + destruct (not_dir_head _ _ _ E Hnd) as [c0 ->].
      apply String.eqb_eq in E. subst m. simpl. now rewrite !Hf.
    + simpl. rewrite IH; [reflexivity|]. eapply not_dir_tail; eassumption.
Qed.

Lemma walk_put n here t c es :
  n <> dest -> not_dir dest es ->
  walk n here (Dir t (put_entry dest (File c) es)) = walk n here (Dir t es).
Proof.
  intros Hn Hnd. simpl. rewrite in_files_put by assumption.
  rewrite first_some_put; [reflexivity| |exact Hnd].
  intros c'. reflexivity.
Qed.

Lemma resolve_put x y q c es :
  not_dir dest es ->
  resolve (x :: y :: q) (put_entry dest (File c) es) = resolve (x :: y :: q) es.
Proof.
  intros Hnd. change (resolve (x :: y :: q) (put_entry dest (File c) es))
    with (match lookup x (put_entry dest (File c) es) with
          | Some (Dir _ es') => resolve (y :: q) es'
          | _ => None
          end).
  change (resolve (x :: y :: q) es)
    with (match lookup x es with
          | Some (Dir _ es') => resolve (y :: q) es'
          | _ => None
          end).
  destruct (String.eqb_spec x dest) as [->|Hx].
  - rewrite lookup_put_same.
    destruct (lookup dest es) as [[c0|t es']|] eqn:E; try reflexivity.
    exfalso. apply (Hnd t es'), E.
  - now rewrite lookup_put_other.
Qed.

Lemma get_latest_bin_dir_put c es :
  dest <> "bin" -> not_dir dest es ->
  get_latest_bin_dir (Some (put_entry dest (File c) es))
  = get_latest_bin_dir (Some es).
Proof.
  intros Hb Hnd. unfold get_latest_bin_dir.
  rewrite candidates_put by exact Hnd.
  destruct (candidates es); [|reflexivity].
  unfold has_bin_exe. rewrite lookup_put_other; [reflexivity|congruence].
Qed.

Lemma get_latest_bin_dir_shape r p :
  get_latest_bin_dir r = Some p -> exists x q, p = x :: q.
Proof.
  unfold get_latest_bin_dir. destruct r as [es|]; [|discriminate].
  destruct (candidates es).
  - destruct (has_bin_exe "rigctld.exe" (Dir 0 es)); [|discriminate].
    intros H. inversion H. eauto.
  - intros H. inversion H. eauto.
Qed.

Lemma find_exe_put n c es :
  n <> dest -> dest <> "bin" -> not_dir dest es ->
  find_exe n (Some (put_entry dest (File c) es)) = find_exe n (Some es).
Proof.
  intros Hn Hb Hnd. unfold find_exe.
  rewrite get_latest_bin_dir_put by assumption.
  assert (Hw : os_walk n (Some (put_entry dest (File c) es))
               = os_walk n (Some es)).
  { unfold os_walk. now apply walk_put. }
  destruct (get_latest_bin_dir (Some es)) as [p|] eqn:E; [|exact Hw].
  destruct (get_latest_bin_dir_shape _ _ E) as [x [q ->]].
  rewrite Hw. unfold path_exists.
  destruct q as [|y q]; simpl app; now rewrite resolve_put.
Qed.

End WriteToDest.

Lemma find_exe_ensure n r : find_exe n (Some (entries_of r)) = find_exe n r.
Proof. destruct r; reflexivity. Qed.

(** *** The steps of the call *)

(** When [mkdir] returns, the directory is there, with what it held. *)
Lemma ensure_effect env s s1 :
  ensure_hamlib_dir env s = (inr tt, s1) ->
  s1 = mkSt (Some (entries_of (hamlib s))) (progress s).
Proof.
  unfold ensure_hamlib_dir, bind, get_root.
  destruct s as [[es|] pr]; cbn [hamlib progress entries_of].
  - intros H. now inversion H.
  - destruct (mkdir_error env); [discriminate|]. intros H. now inversion H.
Qed.

Lemma ensure_returns env s :
  (hamlib s = None -> mkdir_error env = None) ->
  ensure_hamlib_dir env s
  = (inr tt, mkSt (Some (entries_of (hamlib s))) (progress s)).
Proof.
  unfold ensure_hamlib_dir, bind, get_root.
  destruct s as [[es|] pr]; cbn [hamlib progress entries_of]; intros H.
  - reflexivity.
  - now rewrite (H eq_refl).
Qed.

Lemma write_chunks_effect dest total es0 cs : forall d c s,
  hamlib s = Some (put_entry dest (File c) es0) ->
  exists s', write_chunks dest total d cs s = (inr tt, s')
             /\ hamlib s' = Some (put_entry dest (File (c ++ bytes_of cs)) es0).
Proof.
  induction cs as [|chunk rest IH]; intros d c s Hs.
  - exists s. simpl. now rewrite append_nil_r.
  - simpl. destruct chunk as [|a chunk'].
    + simpl. apply IH, Hs.
    + set (chunk := String a chunk') in *.
      change (truthy chunk) with true. cbv iota.
      unfold bind at 1. unfold write, bind, get_root. rewrite Hs.
      unfold entries_of. rewrite lookup_put_same. unfold set_root.
      rewrite put_put.
      set (s1 := mkSt (Some (put_entry dest (File (c ++ chunk)) es0))
                      (progress s)).
      set (d1 := (d + Z.of_nat (String.length chunk))%Z).
      assert (Hrep : exists s2,
        (if (total =? 0)%Z then ret tt else report (d1, total)) s1
        = (inr tt, s2)
        /\ hamlib s2 = Some (put_entry dest (File (c ++ chunk)) es0)).
      { destruct (total =? 0)%Z; eexists; split; reflexivity. }
      destruct Hrep as [s2 [E2 H2]]. rewrite E2.
      destruct (IH d1 (c ++ chunk) s2 H2) as [s' [E' H']].
      exists s'. split; [exact E'|]. now rewrite H', append_assoc.
Qed.

(** A branch of the download that raises before anything is written. *)
Ltac raised_early :=
  let H := fresh in intros H; inversion H; now left.

(** What the download step does to the directory, whether it raises or
    not: nothing, or a write to [dest], which was no directory. *)
Lemma download_effect env url dest s r s' :
  download env url dest s = (r, s') ->
  hamlib s' = hamlib s
  \/ (not_dir dest (entries_of (hamlib s))
      /\ exists c,
           hamlib s' = Some (put_entry dest (File c) (entries_of (hamlib s)))).
Proof.
  unfold download.
  destruct url as [u|]; [|raised_early].
  destruct (fetch env u) as [m|rr]; [raised_early|].
  destruct (status_error rr); [raised_early|].
  destruct (header_total rr) as [total|]; [|raised_early].
  unfold bind at 1. unfold open_wb.
  destruct (open_error env); [raised_early|].
  unfold bind at 1. unfold get_root.
  assert (Hwritten : not_dir dest (entries_of (hamlib s)) ->
    (write_chunks dest total 0 (chunks rr);;;
     match stream_error rr with
     | Some e => raise e
     | None => ret tt
     end) (mkSt (Some (put_entry dest (File "") (entries_of (hamlib s))))
                (progress s)) = (r, s') ->
    hamlib s' = hamlib s
    \/ (not_dir dest (entries_of (hamlib s))
        /\ exists c,
             hamlib s'
             = Some (put_entry dest (File c) (entries_of (hamlib s))))).
  { intros Hnd H. right. split; [exact Hnd|].
    destruct (write_chunks_effect dest total (entries_of (hamlib s))
                (chunks rr) 0%Z ""
                (mkSt (Some (put_entry dest (File "") (entries_of (hamlib s))))
                      (progress s)) eq_refl) as [s2 [E2 H2]].
    unfold bind in H. rewrite E2 in H.
    exists ("" ++ bytes_of (chunks rr)).
    destruct (stream_error rr); inversion H; subst; exact H2. }
  destruct (lookup dest (entries_of (hamlib s))) as [[c0|t es']|] eqn:El.
  - apply Hwritten. intros t es'. congruence.
  - raised_early.
  - apply Hwritten. intros t es'. congruence.
Qed.

Lemma try_block_download_fails env s latest e s1 s2 :
  feed env = inr latest ->
  ensure_hamlib_dir env s = (inr tt, s1) ->
  download env (fst (select_asset latest)) (snd (select_asset latest)) s1
  = (inl e, s2) ->
  download_latest_release env s
  = ((false, "Download/extract failed: " ++ str e), s2).
Proof.
  intros Hfeed Hens Hdl. unfold download_latest_release, try_block.
  rewrite Hfeed. destruct (select_asset latest) as [url dest].
  simpl in Hdl. unfold bind at 1. rewrite Hens.
  unfold bind at 1. now rewrite Hdl.
Qed.

(** C2, as the code has it.  When an install attempt fails in the download
    step, the call reports failure, the entries of the installation root
    other than the file the archive is downloaded to are what they were, in
    the same order (nothing was cleared), and each of the three daemons
    resolves to what it resolved to before. *)
Theorem failed_download_keeps_other_entries (env : Env) (s : St) :
  fails_in_download env s ->
  exists latest,
    feed env = inr latest
    /\ let dest := snd (select_asset latest) in
       let out := download_latest_release env s in
       fst (fst out) = false
       /\ others dest (entries_of (hamlib (snd out)))
          = others dest (entries_of (hamlib s))
       /\ (forall n, In n daemons ->
                     find_exe n (hamlib (snd out)) = find_exe n (hamlib s)).
Proof.
  intros [latest [e [s1 [s2 [Hfeed [Hens Hdl]]]]]].
  exists latest. split; [exact Hfeed|].
  rewrite (try_block_download_fails _ _ _ _ _ _ Hfeed Hens Hdl). simpl.
  apply ensure_effect in Hens. subst s1.
  split; [reflexivity|].
  destruct (dest_is_no_daemon latest) as [Hbin Hdaemon].
  apply download_effect in Hdl. simpl in Hdl.
  destruct Hdl as [Hsame|[Hnd [c Hput]]].
  - rewrite Hsame. simpl. split; [reflexivity|].
    intros n _. apply find_exe_ensure.
  - rewrite Hput. simpl. split; [apply others_put|].
    intros n Hn. rewrite find_exe_put; [apply find_exe_ensure| |exact Hbin|exact Hnd].
    intros ->. exact (Hdaemon Hn).
Qed.

Lemma failed_download_keeps_other_entries_witness :
  fails_in_download Samples.broken_stream (mkSt Samples.installed_45 [])
  /\ find_exe "rigctld.exe"
       (hamlib (snd (download_latest_release Samples.broken_stream
                       (mkSt Samples.installed_45 []))))
     = find_exe "rigctld.exe" Samples.installed_45.
Proof.
  assert (H : fails_in_download Samples.broken_stream
                (mkSt Samples.installed_45 [])).
  { unfold fails_in_download. do 4 eexists.
    split; [reflexivity|]. split; reflexivity. }
  split; [exact H|].
  destruct (failed_download_keeps_other_entries _ _ H) as [latest [_ Hout]].
  destruct Hout as [_ [_ Hfind]].
  apply Hfind. left. reflexivity.
Defined.

(** C2, as the specification words it, fails: the archive is downloaded
    into the installation root itself.  With release 4.5 installed and its
    archive still in the root, a new attempt whose connection breaks after
    the first chunk fails in the download step and leaves that archive
    truncated to the bytes received. *)
Lemma failed_download_overwrites_old_archive :
  fails_in_download Samples.broken_stream (mkSt Samples.installed_45 [])
  /\ lookup "hamlib-w64-4.5.zip" (entries_of Samples.installed_45)
     = Some (File "PK-complete-archive-of-4.5")
  /\ lookup "hamlib-w64-4.5.zip"
       (entries_of (hamlib (snd (download_latest_release Samples.broken_stream
                                   (mkSt Samples.installed_45 [])))))
     = Some (File "PK")
  /\ entries_of (hamlib (snd (download_latest_release Samples.broken_stream
                                (mkSt Samples.installed_45 []))))
     <> entries_of Samples.installed_45.
Proof.
  split.
  - unfold fails_in_download. do 4 eexists.
    split; [reflexivity|]. split; reflexivity.
  - split; [reflexivity|]. split; [reflexivity|]. discriminate.
Qed.

Lemma download_ext env env' url dest s :
  fetch env' = fetch env -> open_error env' = open_error env ->
  download env' url dest s = download env url dest s.
Proof.
  intros Hf Ho. unfold download, open_wb. now rewrite Hf, Ho.
Qed.

Lemma download_stream_fails env url dest rr e es pr :
  fetch env url = inr rr -> status_error rr = None ->
  header_total rr <> None -> open_error env = None ->
  not_dir dest es -> stream_error rr = Some e ->
  exists s2,
    download env (Some url) dest (mkSt (Some es) pr) = (inl e, s2)
    /\ hamlib s2 = Some (put_entry dest (File (bytes_of (chunks rr))) es).
Proof.
  intros Hfetch Hstatus Htotal Hopen Hnd Hstream.
  destruct (header_total rr) as [total|] eqn:Etotal; [clear Htotal|congruence].
  destruct (write_chunks_effect dest total es (chunks rr) 0%Z ""
              (mkSt (Some (put_entry dest (File "") es)) pr) eq_refl)
    as [s2 [E2 H2]].
  exists s2. split; [|exact H2].
  unfold download. rewrite Hfetch, Hstatus, Etotal.
  unfold bind at 1. unfold open_wb. rewrite Hopen.
  unfold bind at 1. unfold get_root. cbn [hamlib entries_of].
  destruct (lookup dest es) as [[c0|t es']|] eqn:El.
  - unfold set_root. cbn [hamlib progress].
    unfold bind. now rewrite E2, Hstream.
  - exfalso. exact (Hnd t es' El).
  - unfold set_root. cbn [hamlib progress].
    unfold bind. now rewrite E2, Hstream.
Qed.

(** C8, as the code has it.  When the stream fails partway, the call
    reports the failure and returns at once: the archive file is left in
    the installation root with the bytes received so far, the other entries
    are untouched, and the content of archives plays no part in the
    outcome, since the clearing and the extraction are not reached. *)
Theorem partial_archive_is_left (env : Env) (s : St) (dest : string)
  (rr : AssetResponse) (e : Exn) :
  fails_partway env s dest rr e ->
  let out := download_latest_release env s in
  fst out = (false, "Download/extract failed: " ++ str e)
  /\ lookup dest (entries_of (hamlib (snd out)))
     = Some (File (bytes_of (chunks rr)))
  /\ others dest (entries_of (hamlib (snd out)))
     = others dest (entries_of (hamlib s))
  /\ (forall u, download_latest_release (with_unzip u env) s = out).
Proof.
  intros [latest [url [Hfeed [Hdir [Hsel [Hfetch [Hstatus [Htotal [Hopen
            [Hnd Hstream]]]]]]]]]].
  destruct (download_stream_fails env url dest rr e (entries_of (hamlib s))
              (progress s) Hfetch Hstatus Htotal Hopen Hnd Hstream)
    as [s2 [Hdl H2]].
  assert (Hout : forall env', feed env' = feed env ->
                              mkdir_error env' = mkdir_error env ->
                              fetch env' = fetch env ->
                              open_error env' = open_error env ->
            download_latest_release env' s
            = ((false, "Download/extract failed: " ++ str e), s2)).
  { intros env' Hfe Hm Hf Ho.
    apply (try_block_download_fails env' s latest e
             (mkSt (Some (entries_of (hamlib s))) (progress s)));
      [congruence|apply ensure_returns; now rewrite Hm|].
    rewrite Hsel. cbn [fst snd].
    rewrite (download_ext env env') by assumption. exact Hdl. }
  cbv zeta. rewrite (Hout env eq_refl eq_refl eq_refl eq_refl). cbn [fst snd].
  rewrite H2. cbn [entries_of]. split; [reflexivity|].
  split; [apply lookup_put_same|]. split; [apply others_put|].
  intros u. apply Hout; reflexivity.
Qed.

Lemma partial_archive_is_left_witness :
  fails_partway Samples.broken_stream (mkSt None []) "hamlib-w64-4.5.zip"
    (mkResponse None (Some "4096") ["PK"]
       (Some (RequestException "Connection broken")))
    (RequestException "Connection broken")
  /\ fst (download_latest_release Samples.broken_stream (mkSt None []))
     = (false, "Download/extract failed: Connection broken").
Proof.
  assert (H : fails_partway Samples.broken_stream (mkSt None [])
                "hamlib-w64-4.5.zip"
                (mkResponse None (Some "4096") ["PK"]
                   (Some (RequestException "Connection broken")))
                (RequestException "Connection broken")).
  { unfold fails_partway. do 2 eexists.
    split; [reflexivity|]. split; [reflexivity|].
    split; [reflexivity|]. split; [reflexivity|].
    split; [reflexivity|]. split; [discriminate|]. split; [reflexivity|].
    split; [discriminate|reflexivity]. }
  split; [exact H|].
  exact (proj1 (partial_archive_is_left _ _ _ _ _ H)).
Defined.

(** C8, as the specification words it, fails: after an attempt into an
    empty root whose connection breaks after the first chunk, the call has
    returned failure and the partial archive is still in the root. *)
Lemma partial_archive_not_removed :
  fst (fst (download_latest_release Samples.broken_stream (mkSt (Some []) [])))
  = false
  /\ lookup "hamlib-w64-4.5.zip"
       (entries_of (hamlib (snd (download_latest_release Samples.broken_stream
                                   (mkSt (Some []) [])))))
     = Some (File "PK")
  /\ lookup "hamlib-w64-4.5.zip"
       (entries_of (hamlib (snd (download_latest_release Samples.broken_stream
                                   (mkSt (Some []) [])))))
     <> None.
Proof. split; [reflexivity|]. split; [reflexivity|discriminate]. Qed.

(** C9, as the code has it.  Every install attempt whose extraction
    completes without error reports success with the tag of the release,
    in the state the extraction left: no step follows the extraction, and
    the resolver is not asked. *)
Theorem extraction_success_is_reported (env : Env) (s s' : St)
  (latest : Release) :
  extraction_completes env s latest s' ->
  download_latest_release env s
  = ((true, "Installed release " ++ or_default (tag_name latest) "unknown"),
     s').
Proof.
  intros [Hfeed Hrun]. unfold download_latest_release, try_block.
  rewrite Hfeed. destruct (select_asset latest) as [url dest].
  simpl in Hrun. unfold bind in *.
  destruct (ensure_hamlib_dir env s) as [[e1|[]] s1]; [discriminate|].
  destruct (download env url dest s1) as [[e2|[]] s2]; [discriminate|].
  destruct (clear env dest s2) as [[e3|[]] s3]; [discriminate|].
  destruct (extract env dest s3) as [[e4|[]] s4]; [discriminate|].
  inversion Hrun; subst. reflexivity.
Qed.

Lemma extraction_success_is_reported_witness :
  fst (download_latest_release Samples.archive_without_daemons
         (mkSt Samples.installed_45 []))
  = (true, "Installed release 4.5").
Proof.
  assert (H : extraction_completes Samples.archive_without_daemons
                (mkSt Samples.installed_45 []) Samples.release_45
                (snd (download_latest_release Samples.archive_without_daemons
                        (mkSt Samples.installed_45 [])))).
  { split; reflexivity. }
  rewrite (extraction_success_is_reported _ _ _ _ H). reflexivity.
Defined.

(** C9, as the specification words it, fails: an archive that arrives
    whole and extracts without error but holds no daemon is reported as
    installed, although none of the three daemons resolves afterwards. *)
Lemma success_without_any_daemon :
  extraction_completes Samples.archive_without_daemons
    (mkSt Samples.installed_45 []) Samples.release_45
    (snd (download_latest_release Samples.archive_without_daemons
            (mkSt Samples.installed_45 [])))
  /\ fst (download_latest_release Samples.archive_without_daemons
            (mkSt Samples.installed_45 []))
     = (true, "Installed release 4.5")
  /\ Forall (fun n =>
       find_exe n (hamlib (snd (download_latest_release
                                  Samples.archive_without_daemons
                                  (mkSt Samples.installed_45 []))))
       = None) daemons.
Proof.
  split; [split; reflexivity|]. split; [reflexivity|].
  repeat constructor.
Qed.

End InstallerFacts.
(** ** Properties of the list threads *)

Module ListThreadFacts.
Import PyStr Resolver Catalog ListThreads.

(** What each list thread hands to its parser once the executable is found
    and the invocation returns: the radio thread the two streams joined,
    the rotator and amplifier threads the standard output alone. *)
Lemma list_thread_input (k : DaemonKind) (root : Root) (out err : string)
  (p : Path) :
  find_exe (match k with
            | Radio => "rigctld.exe"
            | Rotor => "rotctld.exe"
            | Amplifier => "ampctld.exe"
            end) root = Some p ->
  list_thread_run k root (Completed out err)
  = [result (parser_of k (match k with
                          | Radio => out ++ err
                          | Rotor | Amplifier => out
                          end))].
Proof.
  intros H. destruct k; simpl;
    unfold RigctlListThread_run, RotctlListThread_run, AmpctlListThread_run;
    now rewrite H.
Qed.

(** C7 at a failing input: [rotctld --list] and [ampctld --list] print their
    table on the standard error stream.  The two streams joined parse to
    one record, and the radio thread does parse the joined streams; the
    rotator and the amplifier threads emit the empty list. *)
Theorem rotor_and_amplifier_lists_drop_stderr :
  let root := Some [("hamlib-w64-4.5", Dir 100 [("bin", Samples.full_bin)])] in
  parse_device_list ("" ++ Samples.rot_table)
    = [mkRecord 1 "Hamlib" "Dummy" "Hamlib - Dummy"]
  /\ RotctlListThread_run root (Completed "" Samples.rot_table) = [result []]
  /\ AmpctlListThread_run root (Completed "" Samples.rot_table) = [result []]
  /\ RigctlListThread_run root (Completed "" Samples.rig_table)
     = [result [mkRecord 1 "Yaesu" "FT-817" "Yaesu - FT-817"]].
Proof. repeat split; reflexivity. Qed.

End ListThreadFacts.

(** ** Properties of the supervisor *)

Module SupervisorFacts.
Import PyStr Resolver Supervisor.

Lemma count_stopped_app l1 l2 :
  count_stopped (l1 ++ l2) = count_stopped l1 + count_stopped l2.
Proof.
  induction l1 as [|[| |t] l1 IH]; simpl; [reflexivity|exact IH| |exact IH].
  now rewrite IH.
Qed.

Lemma existsb_eqb_In k l : existsb (Nat.eqb k) l = true <-> In k l.
Proof.
  rewrite existsb_exists. split.
  - intros [j [Hin Hj]]. apply Nat.eqb_eq in Hj. now subst.
  - intros H. exists k. split; [exact H|apply Nat.eqb_refl].
Qed.

Lemma reading_In k w : reading k w = true <-> In k (readers w).
Proof. apply existsb_eqb_In. Qed.

Lemma in_finally_In k w : in_finally k w = true <-> In k (finishing w).
Proof. apply existsb_eqb_In. Qed.

(** *** Where the children are *)

Lemma placed_perm n l l' : Permutation l l' -> placed n l -> placed n l'.
Proof.
  intros Hp [Hin Hnd]. split.
  - intros j. rewrite Hin. split; apply Permutation_in;
      [exact Hp|now apply Permutation_sym].
  - eapply Permutation_NoDup; eauto.
Qed.

Lemma placed_new n l l' :
  Permutation (n :: l) l' -> placed n l -> placed (S n) l'.
Proof.
  intros Hp [Hin Hnd]. apply (placed_perm (S n) (n :: l)); [exact Hp|].
  split.
  - intros j. simpl. rewrite <- Hin. lia.
  - constructor; [|exact Hnd]. rewrite <- Hin. lia.
Qed.

Lemma placed_length n l : placed n l -> List.length l = n.
Proof.
  intros [Hin Hnd]. pose proof (length_seq n 0) as Hs.
  assert (H1 : List.length l <= List.length (seq 0 n)).
  { apply NoDup_incl_length; [exact Hnd|].
    intros j Hj. apply in_seq. apply Hin in Hj. lia. }
  assert (H2 : List.length (seq 0 n) <= List.length l).
  { apply NoDup_incl_length; [apply seq_NoDup|].
    intros j Hj. apply in_seq in Hj. apply Hin. lia. }
  lia.
Qed.

Lemma without_perm k l :
  NoDup l -> In k l -> Permutation l (k :: without k l).
Proof.
  induction l as [|x l IH]; intros Hnd Hin; [destruct Hin|].
  inversion Hnd as [|? ? Hx Hl]; subst. unfold without. simpl.
  destruct (Nat.eqb x k) eqn:E; simpl.
  - apply Nat.eqb_eq in E. subst x. apply perm_skip.
    replace (filter (fun j => negb (Nat.eqb j k)) l) with l; [reflexivity|].
    clear - Hx. induction l as [|y l IH]; [reflexivity|]. simpl.
    destruct (Nat.eqb y k) eqn:Ey.
    + apply Nat.eqb_eq in Ey. subst y. exfalso. apply Hx. now left.
    + simpl. f_equal. apply IH. intros H. apply Hx. now right.
  - destruct Hin as [->|Hin]; [now rewrite Nat.eqb_refl in E|].
    eapply perm_trans; [apply perm_skip, IH; assumption|]. apply perm_swap.
Qed.

Lemma consistent_placed w :
  consistent w -> placed (List.length (children w)) (whereabouts w).
Proof. intros [_ H2 H3 _]. now split. Qed.

Lemma consistent_intro w :
  readers w = match process w with Some k => [k] | None => [] end ->
  placed (List.length (children w)) (whereabouts w) ->
  count_stopped (emitted w) = List.length (exited w) ->
  consistent w.
Proof. intros H1 [H2 H3] H4. now constructor. Qed.

Lemma new_runner_consistent n : consistent (new_runner n).
Proof.
  apply consistent_intro; try reflexivity. split; [|constructor].
  intros j. simpl. split; [lia|intros []].
Qed.

Lemma emit_consistent s w :
  s <> stopped -> consistent w -> consistent (emit s w).
Proof.
  intros Hs Hw. pose proof (consistent_placed w Hw) as Hp.
  destruct Hw as [H1 _ _ H4]. apply consistent_intro; try assumption.
  simpl. rewrite count_stopped_app, H4.
  destruct s; simpl; [lia|congruence|lia].
Qed.

Lemma emit_output_consistent t w : consistent w -> consistent (emit (output t) w).
Proof. apply emit_consistent. discriminate. Qed.

(** [Popen] returned and a later statement of the [try] block raised: the
    new child is abandoned. *)
Lemma abandoned_consistent c l w :
  process w = None -> count_stopped l = 0 -> consistent w ->
  consistent (mkRunner (exe_name w) None (emitted w ++ l)
                (children w ++ [c]) (readers w) (finishing w)
                (terminated w) (exited w)
                (abandoned w ++ [List.length (children w)])).
Proof.
  intros Ep Hl Hw. pose proof (consistent_placed w Hw) as Hp.
  destruct Hw as [H1 _ _ H4]. rewrite Ep in H1.
  apply consistent_intro; simpl.
  - exact H1.
  - rewrite length_app, Nat.add_1_r. revert Hp. apply placed_new.
    unfold whereabouts. simpl. rewrite !app_assoc.
    apply Permutation_cons_append.
  - rewrite count_stopped_app. lia.
Qed.

Lemma start_consistent root a e w : consistent w -> consistent (start root a e w).
Proof.
  intros Hw. unfold start.
  destruct (process w) as [p|] eqn:Ep; [now apply emit_output_consistent|].
  destruct (find_exe (exe_name w) root) as [path|];
    [|now apply emit_output_consistent].
  destruct e as [[msg|msg|msg]|].
  - unfold failed_to_start. cbn [process emit]. rewrite Ep.
    apply (emit_output_consistent ("Failed to start: " ++ msg)) in Hw.
    pose proof (consistent_placed _ Hw) as Hp.
    destruct Hw as [H1 _ _ H4]. cbn [process emit readers] in H1.
    rewrite Ep in H1. apply consistent_intro; assumption.
  - exact (abandoned_consistent (mkPopen path a (removelast path))
             [output ("Failed to start: " ++ msg)] w Ep eq_refl Hw).
  - pose proof (abandoned_consistent
                  (mkPopen path a (removelast path))
                  ([started] ++ [output ("Failed to start: " ++ msg)])
                  w Ep eq_refl Hw) as H.
    rewrite (app_assoc (emitted w)) in H. exact H.
  - pose proof (consistent_placed w Hw) as Hp.
    destruct Hw as [H1 _ _ H4]. rewrite Ep in H1.
    apply consistent_intro; simpl.
    + now rewrite H1.
    + rewrite length_app, Nat.add_1_r. revert Hp. apply placed_new.
      unfold whereabouts. simpl. rewrite H1. reflexivity.
    + rewrite count_stopped_app. simpl. lia.
Qed.

Lemma stop_consistent w : consistent w -> consistent (stop w).
Proof.
  intros Hw. unfold stop. destruct (process w) as [k|] eqn:Ep; [|exact Hw].
  pose proof (consistent_placed w Hw) as Hp.
  destruct Hw as [H1 _ _ H4]. apply consistent_intro; assumption.
Qed.

Lemma reading_handle k w :
  consistent w -> reading k w = true ->
  process w = Some k /\ readers w = [k].
Proof.
  intros [H1 _ _ _] Hk. apply reading_In in Hk.
  destruct (process w) as [p|]; rewrite H1 in Hk.
  - destruct Hk as [->|[]]. now split.
  - destruct Hk.
Qed.

Lemma reader_clear_consistent k w :
  reading k w = true -> consistent w -> consistent (reader_clear k w).
Proof.
  intros Hk Hw. destruct (reading_handle k w Hw Hk) as [Ep Hr].
  pose proof (consistent_placed w Hw) as Hp.
  destruct Hw as [_ _ _ H4]. apply consistent_intro; simpl.
  - rewrite Hr. unfold without. simpl. now rewrite Nat.eqb_refl.
  - revert Hp. apply placed_perm. unfold whereabouts. simpl. rewrite Hr.
    unfold without. simpl. rewrite Nat.eqb_refl. simpl.
    rewrite <- app_assoc. apply Permutation_middle.
  - exact H4.
Qed.

Lemma reader_stopped_consistent k w :
  in_finally k w = true -> consistent w -> consistent (reader_stopped k w).
Proof.
  intros Hk Hw. apply in_finally_In in Hk.
  pose proof (consistent_placed w Hw) as Hp.
  destruct Hw as [H1 _ H3 H4]. apply consistent_intro; simpl.
  - exact H1.
  - revert Hp. apply placed_perm. unfold whereabouts. simpl.
    assert (Hf : NoDup (finishing w)).
    { unfold whereabouts in H3. apply NoDup_app_remove_l in H3.
      now apply NoDup_app_remove_r in H3. }
    apply Permutation_app_head.
    rewrite (without_perm k (finishing w) Hf Hk) at 1.
    rewrite <- !app_assoc. simpl.
    rewrite !app_assoc. apply Permutation_cons_app. reflexivity.
  - rewrite count_stopped_app, length_app. simpl. lia.
Qed.

Create HintDb runner.
#[local] Hint Resolve emit_output_consistent start_consistent
  stop_consistent reader_clear_consistent reader_stopped_consistent : runner.

Lemma step_consistent op w w' :
  step op w = Some w' -> consistent w -> consistent w'.
Proof.
  destruct op as [root a e| |k line|k|k]; simpl.
  - intros H Hw. inversion H; subst. auto with runner.
  - intros H Hw. inversion H; subst. auto with runner.
  - destruct (reading k w); [|discriminate]. intros H Hw. inversion H; subst.
    unfold reader_line. auto with runner.
  - destruct (reading k w) eqn:Hk; [|discriminate]. intros H Hw.
    inversion H; subst. auto with runner.
  - destruct (in_finally k w) eqn:Hk; [|discriminate]. intros H Hw.
    inversion H; subst. auto with runner.
Qed.

Lemma runner_of_set_same k w m : runner_of k (set_runner k w m) = w.
Proof. destruct k; reflexivity. Qed.

Lemma runner_of_set_other k k' w m :
  k' <> k -> runner_of k' (set_runner k w m) = runner_of k' m.
Proof. destruct k, k'; intros H; try reflexivity; congruence. Qed.

Lemma kind_eq_dec (k k' : DaemonKind) : {k = k'} + {k <> k'}.
Proof. decide equality. Qed.

(** A property of the runner of each kind that holds at the start and is
    kept by every step holds in every state the runners reach. *)
Lemma run_invariant (P : DaemonKind -> HamlibRunner -> Prop) :
  (forall k op w w', P k w -> step op w = Some w' -> P k w') ->
  forall ops m m',
    (forall k, P k (runner_of k m)) ->
    run ops m = Some m' ->
    forall k, P k (runner_of k m').
Proof.
  intros Hstep. induction ops as [|[k0 op] rest IH]; intros m m' Hm Hrun.
  - simpl in Hrun. inversion Hrun; subst. exact Hm.
  - simpl in Hrun. unfold step_kind in Hrun.
    destruct (step op (runner_of k0 m)) as [w|] eqn:Es; [|discriminate].
    apply (IH _ _) with (2 := Hrun). intros k.
    destruct (kind_eq_dec k k0) as [->|Hne].
    + rewrite runner_of_set_same. eapply Hstep; eauto.
    + rewrite runner_of_set_other by exact Hne. apply Hm.
Qed.

Lemma run_consistent ops m m' :
  (forall k, consistent (runner_of k m)) ->
  run ops m = Some m' ->
  forall k, consistent (runner_of k m').
Proof.
  apply (run_invariant (fun _ => consistent)).
  intros k op w w' Hw Hs. eapply step_consistent; eauto.
Qed.

Lemma reachable_consistent ops m k :
  run ops new_window = Some m -> consistent (runner_of k m).
Proof.
  intros Hrun. apply (run_consistent ops new_window m); [|exact Hrun].
  intros k'. destruct k'; apply new_runner_consistent.
Qed.

(** *** Children without a reader thread *)





(** C1. In every state the three runners can reach, each kind has at most
    one live child, a child with a reader thread inside its loop; and a
    call of [start] for a kind that has a process handle does nothing but
    emit the text "Already running": no process is spawned, the handle and
    the reader thread are what they were, and the runners of the other
    kinds are untouched. *)
Theorem second_start_is_rejected (ops : list (DaemonKind * Op))
  (m : MainWindow) (kind : DaemonKind) :
  run ops new_window = Some m ->
  let w := runner_of kind m in
  (List.length (live w) <= 1)%nat
  /\ forall p root a e,
       process w = Some p ->
       let w' := start root a e w in
       w' = emit (output "Already running") w
       /\ children w' = children w
       /\ process w' = Some p
       /\ live w' = [p]
       /\ step_kind kind (Start root a e) m = Some (set_runner kind w' m)
       /\ (forall k', k' <> kind ->
                      runner_of k' (set_runner kind w' m) = runner_of k' m).
Proof.
  intros Hrun w.
  pose proof (reachable_consistent ops m kind Hrun) as Hc.
  fold w in Hc. destruct Hc as [H1 _ _ _]. split.
  - unfold live. rewrite H1. destruct (process w); simpl; lia.
  - intros p root a e Hp w'.
    assert (Hw' : w' = emit (output "Already running") w).
    { unfold w', start. now rewrite Hp. }
    split; [exact Hw'|]. rewrite Hw'. simpl.
    split; [reflexivity|]. split; [exact Hp|].
    split; [unfold live; simpl; now rewrite H1, Hp|].
    split.
    + unfold step_kind. simpl. fold w. unfold w' in Hw'. now rewrite Hw'.
    + intros k' Hk. now apply runner_of_set_other.
Qed.

Lemma second_start_is_rejected_witness :
  let root := Some Samples.two_full_trees in
  exists m,
    run [(Rotor, Start root ["--port=4533"; "-vvvv"] None)] new_window = Some m
    /\ start root ["--port=4533"; "-vvvv"] None (runner_of Rotor m)
       = emit (output "Already running") (runner_of Rotor m)
    /\ children (start root ["--port=4533"; "-vvvv"] None (runner_of Rotor m))
       = children (runner_of Rotor m).
Proof.
  intros root. eexists. split; [reflexivity|].
  pose proof (second_start_is_rejected
                [(Rotor, Start root ["--port=4533"; "-vvvv"] None)]
                _ Rotor eq_refl) as [_ H].
  destruct (H 0%nat root ["--port=4533"; "-vvvv"] None eq_refl)
    as [H1 [H2 _]].
  exact (conj H1 H2).
Defined.




End SupervisorFacts.
(** ** Facts about the Python primitives *)

Module PyFacts.
Import PyStr PyMore Catalog.

Lemma app_nil_r_s (s : string) : s ++ "" = s.
Proof. induction s; simpl; congruence. Qed.

Lemma app_assoc_s (a b c : string) : (a ++ b) ++ c = a ++ b ++ c.
Proof. induction a; simpl; congruence. Qed.

Lemma snoc_app cur c r : snoc cur c ++ r = cur ++ String c r.
Proof. unfold snoc. now rewrite app_assoc_s. Qed.

Lemma is_empty_true s : is_empty s = true -> s = "".
Proof. destruct s; [reflexivity|discriminate]. Qed.

Lemma is_empty_false s : is_empty s = false <-> s <> "".
Proof. destruct s; simpl; split; congruence. Qed.

Lemma linebreak_is_space c : is_linebreak c = true -> is_space c = true.
Proof.
  destruct c as [[] [] [] [] [] [] [] []]; vm_compute; congruence.
Qed.

(** *** Whitespace at the two ends *)

Lemma ends_with_space_cons c s :
  ends_with_space (String c s)
  = if is_empty s then is_space c else ends_with_space s.
Proof. destruct s; reflexivity. Qed.

Lemma ends_with_space_app a c r :
  ends_with_space (a ++ String c r) = ends_with_space (String c r).
Proof.
  induction a as [|x a IH]; [reflexivity|].
  change (String x a ++ String c r) with (String x (a ++ String c r)).
  rewrite ends_with_space_cons.
  destruct (a ++ String c r) eqn:E; [|exact IH].
  destruct a; discriminate.
Qed.

Lemma starts_with_space_app a s :
  a <> "" -> starts_with_space (a ++ s) = starts_with_space a.
Proof. destruct a; [congruence|reflexivity]. Qed.

Lemma lstrip_no_lead s : starts_with_space (lstrip s) = false.
Proof.
  induction s as [|c r IH]; [reflexivity|]. simpl.
  destruct (is_space c) eqn:E; [exact IH|]. simpl. exact E.
Qed.

Lemma rstrip_no_trail s : ends_with_space (rstrip s) = false.
Proof.
  induction s as [|c r IH]; [reflexivity|].
  change (rstrip (String c r))
    with (if is_empty (rstrip r) && is_space c then ""
          else String c (rstrip r)).
  destruct (is_empty (rstrip r)) eqn:Ee; cbn [andb].
  - destruct (is_space c) eqn:Ec; [reflexivity|].
    rewrite ends_with_space_cons, Ee. exact Ec.
  - rewrite ends_with_space_cons, Ee. exact IH.
Qed.

Lemma rstrip_keeps_lead s :
  starts_with_space s = false -> starts_with_space (rstrip s) = false.
Proof.
  destruct s as [|c r]; [reflexivity|]. simpl. intros E. rewrite E.
  rewrite andb_false_r. simpl. exact E.
Qed.

Lemma strip_ends s :
  starts_with_space (strip s) = false /\ ends_with_space (strip s) = false.
Proof.
  unfold strip. split.
  - apply rstrip_keeps_lead, lstrip_no_lead.
  - apply rstrip_no_trail.
Qed.

Lemma lstrip_id s : starts_with_space s = false -> lstrip s = s.
Proof. destruct s as [|c r]; [reflexivity|]. simpl. now intros ->. Qed.

Lemma rstrip_id s : ends_with_space s = false -> rstrip s = s.
Proof.
  induction s as [|c r IH]; [reflexivity|].
  rewrite ends_with_space_cons.
  change (rstrip (String c r))
    with (if is_empty (rstrip r) && is_space c then ""
          else String c (rstrip r)).
  destruct r as [|y r2].
  - simpl. now intros ->.
  - cbn [is_empty]. intros E. rewrite (IH E). reflexivity.
Qed.

Lemma strip_id s :
  starts_with_space s = false -> ends_with_space s = false -> strip s = s.
Proof.
  intros Hl Ht. unfold strip. rewrite (lstrip_id _ Hl). now apply rstrip_id.
Qed.

(** What [int()] skips is white space for [strip()] too. *)
Lemma int_space_is_space c : is_space c = false -> is_int_space c = false.
Proof.
  destruct c as [[] [] [] [] [] [] [] []]; vm_compute; congruence.
Qed.

Lemma int_lstrip_id s : starts_with_space s = false -> int_lstrip s = s.
Proof.
  destruct s as [|c r]; [reflexivity|]. simpl. intros E.
  now rewrite (int_space_is_space c E).
Qed.

Lemma int_rstrip_id s : ends_with_space s = false -> int_rstrip s = s.
Proof.
  induction s as [|c r IH]; [reflexivity|].
  rewrite ends_with_space_cons.
  change (int_rstrip (String c r))
    with (if is_empty (int_rstrip r) && is_int_space c then ""
          else String c (int_rstrip r)).
  destruct r as [|y r2].
  - simpl. intros E. now rewrite (int_space_is_space c E).
  - cbn [is_empty]. intros E. rewrite (IH E). reflexivity.
Qed.

Lemma int_strip_id s :
  starts_with_space s = false -> ends_with_space s = false ->
  int_strip s = s.
Proof.
  intros Hl Ht. unfold int_strip. rewrite (int_lstrip_id _ Hl).
  now apply int_rstrip_id.
Qed.

Lemma no_space_ends s :
  no_space s = true ->
  starts_with_space s = false /\ ends_with_space s = false.
Proof.
  induction s as [|c r IH]; [now split|]. simpl. intros H.
  apply andb_true_iff in H. destruct H as [Hc Hr].
  apply negb_true_iff in Hc. split; [exact Hc|].
  destruct r; [exact Hc|]. now apply IH.
Qed.

(** *** The fields of [re.split] on a stripped line *)

Lemma re_split_from_trimmed s :
  (forall cur,
     cur ++ s <> "" ->
     starts_with_space (cur ++ s) = false ->
     ends_with_space (cur ++ s) = false ->
     (ends_with_space cur = true -> starts_with_space s = false) ->
     Forall trimmed (re_split_from cur false s))
  /\ (s <> "" -> ends_with_space s = false ->
      Forall trimmed (re_split_from "" true s)).
Proof.
  induction s as [|c r [IHn IHs]]; split.
  - intros cur Hne Hl Ht _. rewrite app_nil_r_s in *. simpl.
    constructor; [now repeat split|constructor].
  - congruence.
  - intros cur Hne Hl Ht Hgap. simpl.
    destruct (is_space c && starts_with_space r) eqn:Esep.
    + apply andb_true_iff in Esep. destruct Esep as [Ec Er].
      assert (Hcur : cur <> "").
      { intros ->. simpl in Hl. congruence. }
      constructor.
      * split; [exact Hcur|]. split.
        -- now rewrite starts_with_space_app in Hl.
        -- destruct (ends_with_space cur) eqn:E; [|reflexivity].
           specialize (Hgap eq_refl). simpl in Hgap. congruence.
      * apply IHs.
        -- destruct r; [discriminate|congruence].
        -- rewrite ends_with_space_app, ends_with_space_cons in Ht.
           destruct r; [discriminate|exact Ht].
    + apply IHn; rewrite ?snoc_app; try assumption.
      unfold snoc. rewrite ends_with_space_app. simpl. intros Ec.
      rewrite Ec in Esep. simpl in Esep. exact Esep.
  - intros _ Ht. simpl. rewrite ends_with_space_cons in Ht.
    destruct (is_space c) eqn:Ec.
    + destruct r as [|y r2]; [simpl in Ht; congruence|].
      apply IHs; [discriminate|exact Ht].
    + apply IHn.
      * discriminate.
      * simpl. exact Ec.
      * change (String c "" ++ r) with (String c r).
        rewrite ends_with_space_cons, Ec. exact Ht.
      * simpl. congruence.
Qed.

Lemma fields_trimmed line :
  strip line <> "" -> Forall trimmed (fields line).
Proof.
  intros Hne. unfold fields, re_split_ws2.
  destruct (strip_ends line) as [Hl Ht].
  apply (proj1 (re_split_from_trimmed (strip line)) ""); simpl;
    try assumption. discriminate.
Qed.

(** *** [int] reads back what [str] prints *)

Lemma digit_char_facts d :
  (0 <= d < 10)%Z ->
  is_digit (digit_char d) = true
  /\ digit_value (digit_char d) = d
  /\ is_space (digit_char d) = false
  /\ Ascii.eqb (digit_char d) "+" = false
  /\ Ascii.eqb (digit_char d) "-" = false.
Proof.
  intros H.
  assert (Hd : (d = 0 \/ d = 1 \/ d = 2 \/ d = 3 \/ d = 4 \/ d = 5 \/ d = 6
                \/ d = 7 \/ d = 8 \/ d = 9)%Z) by lia.
  repeat (destruct Hd as [->|Hd]; [vm_compute; auto|]).
  subst. vm_compute. auto.
Qed.

Lemma int_digits_digit a b c r :
  is_digit c = true ->
  int_digits a b (String c r) = int_digits (10 * a + digit_value c) false r.
Proof. intros H. cbn [int_digits]. now rewrite H. Qed.

Lemma digits_from_value f : forall n acc,
  (0 <= n < 2 ^ Z.of_nat (S f))%Z ->
  exists k, forall a,
    int_digits a false (digits_from (S f) n acc)
    = int_digits (a * 10 ^ Z.of_nat (S k) + n) false acc.
Proof.
  induction f as [|f IH]; intros n acc Hn.
  - exists 0%nat. intros a. simpl digits_from.
    assert (Hlt : (n <? 10)%Z = true) by (apply Z.ltb_lt; simpl in Hn; lia).
    rewrite Hlt. simpl in Hn.
    assert (Hmod : (n mod 10 = n)%Z) by (apply Z.mod_small; lia).
    rewrite Hmod.
    destruct (digit_char_facts n) as [Hd [Hv _]]; [lia|].
    rewrite (int_digits_digit _ _ _ _ Hd), Hv. f_equal.
    change (Z.of_nat 1) with 1%Z. rewrite Z.pow_1_r. lia.
  - change (digits_from (S (S f)) n acc)
      with (if (n <? 10)%Z then String (digit_char (n mod 10)) acc
            else digits_from (S f) (n / 10)
                   (String (digit_char (n mod 10)) acc)).
    assert (Hmodr : (0 <= n mod 10 < 10)%Z) by (apply Z.mod_pos_bound; lia).
    destruct (digit_char_facts (n mod 10) Hmodr) as [Hd [Hv _]].
    destruct (Z.ltb_spec n 10) as [Hlt|Hge].
    + exists 0%nat. intros a.
      assert (Hmod : (n mod 10 = n)%Z) by (apply Z.mod_small; lia).
      rewrite (int_digits_digit _ _ _ _ Hd), Hv, Hmod. f_equal.
      change (Z.of_nat 1) with 1%Z. rewrite Z.pow_1_r. lia.
    + assert (Hdiv : (0 <= n / 10 < 2 ^ Z.of_nat (S f))%Z).
      { split; [apply Z.div_pos; lia|].
        apply Z.div_lt_upper_bound; [lia|].
        rewrite (Nat2Z.inj_succ (S f)), Z.pow_succ_r in Hn by lia. lia. }
      destruct (IH (n / 10)%Z (String (digit_char (n mod 10)) acc) Hdiv)
        as [k Hk].
      exists (S k). intros a. rewrite Hk.
      rewrite (int_digits_digit _ _ _ _ Hd), Hv. f_equal.
      rewrite (Nat2Z.inj_succ (S k)), Z.pow_succ_r by lia.
      pose proof (Z.div_mod n 10 ltac:(lia)). lia.
Qed.

Lemma digits_from_head f : forall n acc,
  (0 <= n)%Z ->
  no_space acc = true ->
  exists d r, digits_from (S f) n acc = String (digit_char d) r
              /\ (0 <= d < 10)%Z /\ no_space r = true.
Proof.
  induction f as [|f IH]; intros n acc Hn Hacc.
  - assert (Hmodr : (0 <= n mod 10 < 10)%Z) by (apply Z.mod_pos_bound; lia).
    simpl. destruct (n <? 10)%Z; exists (n mod 10)%Z, acc; auto.
  - change (digits_from (S (S f)) n acc)
      with (if (n <? 10)%Z then String (digit_char (n mod 10)) acc
            else digits_from (S f) (n / 10)
                   (String (digit_char (n mod 10)) acc)).
    assert (Hmodr : (0 <= n mod 10 < 10)%Z) by (apply Z.mod_pos_bound; lia).
    destruct (n <? 10)%Z.
    + exists (n mod 10)%Z, acc. auto.
    + apply IH; [apply Z.div_pos; lia|].
      simpl. destruct (digit_char_facts _ Hmodr) as [_ [_ [Hs _]]].
      now rewrite Hs.
Qed.

Lemma str_nonneg_fuel n :
  (0 <= n)%Z -> (0 <= n < 2 ^ Z.of_nat (S (Z.to_nat (Z.log2 n))))%Z.
Proof.
  intros Hn. split; [exact Hn|].
  rewrite Nat2Z.inj_succ, Z2Nat.id by apply Z.log2_nonneg.
  destruct (Z.eq_dec n 0) as [->|Hne]; [reflexivity|].
  apply Z.log2_spec. lia.
Qed.

Lemma int_unsigned_str_nonneg n :
  (0 <= n)%Z ->
  int_unsigned (str_nonneg n) = Some n
  /\ exists d r, str_nonneg n = String (digit_char d) r
                 /\ (0 <= d < 10)%Z /\ no_space r = true.
Proof.
  intros Hn. unfold str_nonneg.
  destruct (digits_from_head (Z.to_nat (Z.log2 n)) n "" Hn eq_refl)
    as [d [r [E [Hd Hr]]]].
  split; [|eauto].
  destruct (digits_from_value (Z.to_nat (Z.log2 n)) n ""
              (str_nonneg_fuel n Hn)) as [k Hk].
  specialize (Hk 0%Z). rewrite E in *. simpl in Hk.
  destruct (digit_char_facts d Hd) as [Hdig [Hv _]].
  unfold int_unsigned. rewrite Hdig in *. exact Hk.
Qed.

Lemma str_nonneg_strip n :
  (0 <= n)%Z -> int_strip (str_nonneg n) = str_nonneg n.
Proof.
  intros Hn. destruct (int_unsigned_str_nonneg n Hn) as [_ [d [r [E [Hd Hr]]]]].
  rewrite E. destruct (digit_char_facts d Hd) as [_ [_ [Hs _]]].
  assert (Hns : no_space (String (digit_char d) r) = true)
    by (simpl; now rewrite Hs, Hr).
  destruct (no_space_ends _ Hns). now apply int_strip_id.
Qed.

Lemma int_str_int z : int (str_int z) = Some z.
Proof.
  unfold str_int. destruct (Z.ltb_spec z 0) as [Hneg|Hpos].
  - assert (Hn : (0 <= - z)%Z) by lia.
    destruct (int_unsigned_str_nonneg _ Hn) as [Hint [d [r [E [Hd Hr]]]]].
    assert (Hstrip : int_strip ("-" ++ str_nonneg (- z))
                     = "-" ++ str_nonneg (- z)).
    { assert (Hns : no_space ("-" ++ str_nonneg (- z)) = true).
      { rewrite E. destruct (digit_char_facts d Hd) as [_ [_ [Hs _]]].
        simpl. now rewrite Hs, Hr. }
      destruct (no_space_ends _ Hns). now apply int_strip_id. }
    unfold int. rewrite Hstrip. simpl. rewrite Hint. simpl.
    f_equal. lia.
  - destruct (int_unsigned_str_nonneg _ Hpos) as [Hint [d [r [E [Hd Hr]]]]].
    unfold int. rewrite (str_nonneg_strip z Hpos).
    rewrite E in *.
    assert (Hcases : (d = 0 \/ d = 1 \/ d = 2 \/ d = 3 \/ d = 4 \/ d = 5
                      \/ d = 6 \/ d = 7 \/ d = 8 \/ d = 9)%Z) by lia.
    repeat (destruct Hcases as [->|Hcases]; [exact Hint|]).
    subst. exact Hint.
Qed.

Lemma str_int_inj a b : str_int a = str_int b -> a = b.
Proof.
  intros H. pose proof (int_str_int a) as Ha. rewrite H, int_str_int in Ha.
  congruence.
Qed.

Lemma str_int_nonempty z : str_int z <> "".
Proof.
  intros H. pose proof (int_str_int z) as Hz. rewrite H in Hz. discriminate.
Qed.

(** *** Lines and words *)

Lemma is_line_snoc cur c :
  is_line cur = true -> is_linebreak c = false -> is_line (snoc cur c) = true.
Proof.
  intros Hcur Hc. unfold snoc. induction cur as [|x cur IH]; simpl.
  - now rewrite Hc.
  - simpl in Hcur. apply andb_true_iff in Hcur. destruct Hcur as [Hx Hr].
    now rewrite Hx, IH.
Qed.

Lemma splitlines_from_are_lines s : forall cur b,
  is_line cur = true ->
  Forall (fun l => is_line l = true) (splitlines_from cur b s).
Proof.
  induction s as [|c r IH]; intros cur b Hcur; simpl.
  - destruct (is_empty cur); repeat constructor. exact Hcur.
  - destruct (b && Ascii.eqb c LF); [now apply IH|].
    destruct (is_linebreak c) eqn:Ec.
    + constructor; [exact Hcur|now apply IH].
    + apply IH. now apply is_line_snoc.
Qed.

Lemma splitlines_from_first s : forall cur,
  cur <> "" ->
  exists l rest, splitlines_from cur false s = l :: rest /\ l <> "".
Proof.
  induction s as [|c r IH]; intros cur Hcur; simpl.
  - destruct cur; [congruence|]. simpl. eauto.
  - destruct (is_linebreak c); [eauto|].
    apply IH. unfold snoc. destruct cur; discriminate.
Qed.

Lemma no_space_snoc cur c :
  no_space cur = true -> is_space c = false -> no_space (snoc cur c) = true.
Proof.
  intros Hcur Hc. unfold snoc. induction cur as [|x cur IH]; simpl.
  - now rewrite Hc.
  - simpl in Hcur. apply andb_true_iff in Hcur. destruct Hcur as [Hx Hr].
    now rewrite Hx, IH.
Qed.

Lemma split_from_words s : forall cur,
  no_space cur = true ->
  Forall (fun w => w <> "" /\ no_space w = true) (split_from cur s).
Proof.
  induction s as [|c r IH]; intros cur Hcur; simpl.
  - destruct cur; simpl; repeat constructor; [discriminate|exact Hcur].
  - destruct (is_space c) eqn:Ec.
    + destruct cur; simpl.
      * now apply IH.
      * constructor; [split; [discriminate|exact Hcur]|now apply IH].
    + apply IH. now apply no_space_snoc.
Qed.

Lemma no_space_is_line s : no_space s = true -> is_line s = true.
Proof.
  induction s as [|c r IH]; [reflexivity|]. simpl. intros H.
  apply andb_true_iff in H. destruct H as [Hc Hr]. rewrite (IH Hr).
  destruct (is_linebreak c) eqn:E; [|reflexivity].
  apply linebreak_is_space in E. rewrite E in Hc. discriminate.
Qed.

Lemma is_line_app a b :
  is_line a = true -> is_line b = true -> is_line (a ++ b) = true.
Proof.
  intros Ha Hb. induction a as [|x a IH]; [exact Hb|]. simpl in *.
  apply andb_true_iff in Ha. destruct Ha as [Hx Ha]. now rewrite Hx, IH.
Qed.

End PyFacts.
(** ** More about the parsers *)

Module CatalogMore.
Import PyStr PyMore Catalog PyFacts.

Lemma line_record_Some line r :
  line_record line = Some r <->
  exists n, well_formed line n /\ r = record_of line n.
Proof.
  split.
  - unfold line_record, well_formed.
    destruct (is_empty (strip line)); [discriminate|].
    destruct (Nat.ltb_spec (List.length (fields line)) 3) as [Hlt|Hge];
      [discriminate|].
    destruct (int (item (fields line) 0)) as [n|]; [|discriminate].
    intros H. inversion H. exists n. auto.
  - intros [n [Hwf ->]]. now apply CatalogFacts.well_formed_record.
Qed.

Lemma line_record_nonblank line r :
  line_record line = Some r -> strip line <> "".
Proof.
  unfold line_record. destruct (strip line); [discriminate|discriminate].
Qed.

Lemma parse_with_after_header marker text pre hdr post :
  splitlines text = (pre ++ hdr :: post)%list ->
  Forall (fun l => marker l = false) pre ->
  marker hdr = true ->
  parse_with marker text = data_loop post [].
Proof.
  intros Ht Hpre Hhdr. rewrite CatalogFacts.parse_with_lines, Ht.
  rewrite CatalogFacts.after_first_app.
  rewrite (CatalogFacts.after_first_none _ _ Hpre). simpl. now rewrite Hhdr.
Qed.

Lemma data_loop_records r lines :
  In r (data_loop lines []) <->
  exists line n, In line lines /\ well_formed line n /\ r = record_of line n.
Proof.
  rewrite CatalogFacts.data_loop_In. split.
  - intros [[]|[line [Hin Hr]]]. apply line_record_Some in Hr.
    destruct Hr as [n [Hwf ->]]. eauto.
  - intros [line [n [Hin [Hwf ->]]]]. right. exists line. split; [exact Hin|].
    now apply CatalogFacts.well_formed_record.
Qed.

(** X1. When the text has a header line, the records come from the lines
    after the first header line and from nothing else: the lines up to and
    including it yield nothing, well formed or not, and every record of the
    result is the record of a well-formed line after it. *)
Theorem records_come_from_lines_after_header (text hdr : string)
  (pre post : list string) (r : HardwareRecord) :
  splitlines text = (pre ++ hdr :: post)%list ->
  (Forall (fun l => search_rig_marker l = false) pre ->
   search_rig_marker hdr = true ->
   parse_rig_list text = data_loop post []
   /\ (In r (parse_rig_list text) <->
       exists line n,
         In line post /\ well_formed line n /\ r = record_of line n))
  /\ (Forall (fun l => search_device_marker l = false) pre ->
      search_device_marker hdr = true ->
      parse_device_list text = data_loop post []
      /\ (In r (parse_device_list text) <->
          exists line n,
            In line post /\ well_formed line n /\ r = record_of line n)).
Proof.
  intros Ht.
  assert (Hgen : forall marker,
    Forall (fun l => marker l = false) pre -> marker hdr = true ->
    parse_with marker text = data_loop post []
    /\ (In r (parse_with marker text) <->
        exists line n,
          In line post /\ well_formed line n /\ r = record_of line n)).
  { intros marker Hpre Hhdr.
    rewrite (parse_with_after_header marker text pre hdr post Ht Hpre Hhdr).
    split; [reflexivity|apply data_loop_records]. }
  split; intros Hpre Hhdr; now apply Hgen.
Qed.

Lemma records_come_from_lines_after_header_witness :
  parse_rig_list ("7  Early  Bird" ++ nl ++ "Rig #  Mfg  Model" ++ nl
                  ++ "1  Yaesu  FT-817")
  = data_loop ["1  Yaesu  FT-817"] [].
Proof.
  apply (records_come_from_lines_after_header _ "Rig #  Mfg  Model"
           ["7  Early  Bird"] ["1  Yaesu  FT-817"]
           (mkRecord 1 "Yaesu" "FT-817" "Yaesu - FT-817")).
  - reflexivity.
  - apply Forall_cons; [reflexivity|apply Forall_nil].
  - reflexivity.
Defined.

Lemma item_In l i : (i < List.length l)%nat -> In (item l i) l.
Proof. intros H. unfold item. now apply nth_In. Qed.

Lemma record_of_trimmed line n :
  strip line <> "" -> well_formed line n ->
  mfg (record_of line n) = item (fields line) 1
  /\ model (record_of line n) = item (fields line) 2
  /\ trimmed (item (fields line) 1) /\ trimmed (item (fields line) 2).
Proof.
  intros Hne [Hlen _].
  pose proof (fields_trimmed line Hne) as Hall.
  rewrite Forall_forall in Hall.
  assert (H1 : trimmed (item (fields line) 1)) by (apply Hall, item_In; lia).
  assert (H2 : trimmed (item (fields line) 2)) by (apply Hall, item_In; lia).
  unfold record_of. simpl.
  destruct H1 as [Hn1 [Hl1 Ht1]]. destruct H2 as [Hn2 [Hl2 Ht2]].
  rewrite !strip_id by assumption. repeat split; assumption.
Qed.

(** X2. Every record the parsers return has a manufacturer and a model
    that are not empty and carry no whitespace at either end (the calls of
    [strip] on the fields change nothing), an id that is what [int] reads in
    the first field of its line, and the label "<mfg> - <model>". *)
Theorem record_fields_are_trimmed (text : string) (r : HardwareRecord) :
  In r (parse_rig_list text) \/ In r (parse_device_list text) ->
  trimmed (mfg r) /\ trimmed (model r)
  /\ label r = mfg r ++ " - " ++ model r
  /\ exists line, In line (splitlines text)
                  /\ mfg r = item (fields line) 1
                  /\ model r = item (fields line) 2
                  /\ int (item (fields line) 0) = Some (id r).
Proof.
  assert (Hgen : forall marker, In r (parse_with marker text) ->
    trimmed (mfg r) /\ trimmed (model r)
    /\ label r = mfg r ++ " - " ++ model r
    /\ exists line, In line (splitlines text)
                    /\ mfg r = item (fields line) 1
                    /\ model r = item (fields line) 2
                    /\ int (item (fields line) 0) = Some (id r)).
  { intros marker Hin. rewrite CatalogFacts.parse_with_lines in Hin.
    apply CatalogFacts.data_loop_In in Hin.
    destruct Hin as [[]|[line [Hline Hrec]]].
    assert (Hsrc : In line (splitlines text)).
    { destruct (after_first marker (splitlines text)) as [b|] eqn:E;
        [|exact Hline].
      clear - E Hline. revert b E Hline.
      induction (splitlines text) as [|l rest IH]; intros b E Hline;
        [discriminate|]. simpl in E.
      destruct (marker l).
      - inversion E; subst. now right.
      - right. eapply IH; eauto. }
    pose proof (line_record_nonblank _ _ Hrec) as Hne.
    apply line_record_Some in Hrec. destruct Hrec as [n [Hwf ->]].
    destruct (record_of_trimmed line n Hne Hwf) as [Em [Ed [Hm Hd]]].
    split; [rewrite Em; exact Hm|]. split; [rewrite Ed; exact Hd|].
    split; [reflexivity|].
    exists line. repeat split; try assumption. apply Hwf. }
  intros [H|H]; eapply Hgen; exact H.
Qed.

Lemma record_fields_are_trimmed_witness :
  trimmed "Yaesu" /\ trimmed "FT-817".
Proof.
  pose proof (record_fields_are_trimmed
                ("Rig #  Mfg  Model" ++ nl ++ "  1   Yaesu    FT-817  ")
                (mkRecord 1 "Yaesu" "FT-817" "Yaesu - FT-817")) as H.
  assert (Hin : In (mkRecord 1 "Yaesu" "FT-817" "Yaesu - FT-817")
                   (parse_rig_list ("Rig #  Mfg  Model" ++ nl
                                    ++ "  1   Yaesu    FT-817  ")))
    by (left; reflexivity).
  destruct (H (or_introl Hin)) as [Hm [Hd _]]. exact (conj Hm Hd).
Defined.

End CatalogMore.
(** ** The installed version *)

Module VersionFacts.
Import PyStr PyMore Catalog Resolver ListThreads Version PyFacts.

Lemma last_In (l : list string) d : l <> [] -> In (last l d) l.
Proof.
  induction l as [|x r IH]; [congruence|]. intros _.
  destruct r as [|y r2]; [now left|]. right. apply IH. discriminate.
Qed.

Lemma is_line_space s : is_line (String " " s) = is_line s.
Proof. reflexivity. Qed.

Lemma stripped_first_line out :
  out <> "" -> starts_with_space out = false ->
  exists l rest, splitlines out = l :: rest /\ l <> "" /\ is_line l = true.
Proof.
  intros Hne Hl. destruct out as [|c r]; [congruence|]. simpl in Hl.
  assert (Hc : is_linebreak c = false).
  { destruct (is_linebreak c) eqn:E; [|reflexivity].
    apply linebreak_is_space in E. congruence. }
  unfold splitlines. simpl. rewrite Hc.
  destruct (splitlines_from_first r (snoc "" c)) as [l [rest [E Hl']]];
    [discriminate|].
  exists l, rest. split; [exact E|]. split; [exact Hl'|].
  pose proof (splitlines_from_are_lines r (snoc "" c) false) as Hall.
  rewrite E in Hall. simpl in Hall. rewrite Hc in Hall.
  specialize (Hall eq_refl). now inversion Hall.
Qed.

(** X3. [get_installed_version] returns nothing exactly when [rigctld.exe]
    does not resolve; whatever it returns otherwise is one line that is
    not empty, whether the probe raised, printed nothing or printed a
    banner. *)
Theorem installed_version_is_one_line (root : Root) (p : RunOutcome) :
  (get_installed_version root p = None
   <-> find_exe "rigctld.exe" root = None)
  /\ forall v, get_installed_version root p = Some v ->
               v <> "" /\ is_line v = true.
Proof.
  unfold get_installed_version. split.
  - destruct (find_exe "rigctld.exe" root); [|tauto].
    split; [|discriminate]. destruct p as [e|out err]; [discriminate|].
    destruct (is_empty _); [discriminate|].
    destruct (4 <=? _)%nat; [discriminate|].
    destruct (splitlines _); discriminate.
  - intros v. destruct (find_exe "rigctld.exe" root); [|discriminate].
    destruct p as [e|stdout stderr].
    + intros H. inversion H. split; [discriminate|reflexivity].
    + set (out := if truthy (strip stdout) then strip stdout
                  else strip stderr).
      assert (Hlead : starts_with_space out = false).
      { unfold out. destruct (truthy (strip stdout)); apply strip_ends. }
      destruct (is_empty out) eqn:Eout.
      * intros H. inversion H. split; [discriminate|reflexivity].
      * apply is_empty_false in Eout.
        destruct (Nat.leb_spec 4 (List.length (split out))) as [Hlen|Hlen].
        -- intros H. inversion H. clear H.
           pose proof (split_from_words out "" eq_refl) as Hall.
           fold (split out) in Hall. rewrite Forall_forall in Hall.
           assert (Hi1 : In (item (split out) 1) (split out))
             by (apply CatalogMore.item_In; lia).
           assert (Hi2 : In (item (split out) 2) (split out))
             by (apply CatalogMore.item_In; lia).
           assert (Hi3 : In (last (split out) "") (split out)).
           { apply last_In. intros E. rewrite E in Hlen. simpl in Hlen. lia. }
           apply Hall in Hi1, Hi2, Hi3.
           destruct Hi1 as [N1 S1], Hi2 as [N2 S2], Hi3 as [N3 S3]. split.
           ++ destruct (item (split out) 1); [congruence|discriminate].
           ++ apply is_line_app; [now apply no_space_is_line|].
              rewrite is_line_space.
              apply is_line_app; [now apply no_space_is_line|].
              rewrite is_line_space. now apply no_space_is_line.
        -- destruct (stripped_first_line out Eout Hlead)
             as [l [rest [E [Hne Hline]]]].
           rewrite E. intros H. inversion H. subst. now split.
Qed.

Lemma installed_version_is_one_line_witness :
  get_installed_version (Some Samples.two_full_trees)
    (Completed ("rigctl Hamlib 4.5.5 Apr 05 2023 SHA=6eecd3" ++ nl) "")
  = Some "Hamlib 4.5.5 SHA=6eecd3"
  /\ is_line "Hamlib 4.5.5 SHA=6eecd3" = true.
Proof.
  split; [reflexivity|].
  apply (installed_version_is_one_line (Some Samples.two_full_trees)
           (Completed ("rigctl Hamlib 4.5.5 Apr 05 2023 SHA=6eecd3" ++ nl) "")).
  reflexivity.
Defined.

End VersionFacts.

(** ** More about the list threads *)

Module ListThreadMore.
Import PyStr Catalog Resolver ListThreads Vocabulary.

(** X4. Whatever happens, each of the three list threads emits exactly
    one [result].  When the executable does not resolve or the invocation
    raises, that result is the empty list and exactly one message goes with
    it.  When the invocation returns, the result is the list its parser
    reads in the text handed to it, the two streams joined for the radio
    and the standard output for the rotator and the amplifier, and it is
    the only signal. *)
Theorem list_thread_emits_one_result (k : DaemonKind) (root : Root)
  (p : RunOutcome) :
  count_results (list_thread_run k root p) = 1%nat
  /\ (find_exe (exe_of k) root = None \/ (exists e, p = Raised e) ->
      In (result []) (list_thread_run k root p)
      /\ (forall rs, In (result rs) (list_thread_run k root p) -> rs = [])
      /\ count_messages (list_thread_run k root p) = 1%nat)
  /\ (find_exe (exe_of k) root <> None ->
      forall out err, p = Completed out err ->
      list_thread_run k root p
      = [result (parser_of k match k with
                             | Radio => out ++ err
                             | Rotor | Amplifier => out
                             end)]).
Proof.
  assert (Hone : forall (rs : list HardwareRecord) (t : string) l,
            (l = [result []; message t] \/ l = [message t; result []]) ->
            In (result rs) l -> rs = []).
  { intros rs t l [-> | ->] [H|[H|[]]]; try discriminate H;
      now inversion H. }
  destruct k; cbn [list_thread_run exe_of parser_of];
    unfold RigctlListThread_run, RotctlListThread_run, AmpctlListThread_run;
    destruct (find_exe _ root) as [path|]; destruct p as [e|out err];
    (split; [reflexivity|]);
    (split;
     [ intros [H|[e' H]]; try discriminate H;
       (split; [simpl; auto|]);
       (split; [intros rs; eapply Hone; eauto|reflexivity])
     | intros H out' err' E; try discriminate E; try congruence;
       now inversion E ]).
Qed.

Lemma list_thread_emits_one_result_witness :
  In (result []) (list_thread_run Rotor None (Completed "1  A  B" ""))
  /\ list_thread_run Amplifier (Some Samples.two_full_trees)
       (Completed "1  A  B" "")
     = [result [mkRecord 1 "A" "B" "A - B"]].
Proof.
  split.
  - apply (list_thread_emits_one_result Rotor None (Completed "1  A  B" "")).
    left. reflexivity.
  - destruct (list_thread_emits_one_result Amplifier
                (Some Samples.two_full_trees) (Completed "1  A  B" ""))
      as [_ [_ H]].
    rewrite (H ltac:(discriminate) "1  A  B" "" eq_refl). reflexivity.
Defined.

End ListThreadMore.

(** ** The stored selection *)

Module SettingsFacts.
Import PyStr PyMore Catalog Settings PyFacts.

Lemma restore_from_found items : forall i v j,
  restore_from i items v = Some j ->
  exists k r, j = (i + k)%nat /\ nth_error items k = Some r
              /\ str_int (id r) = str v
              /\ forall k' r', (k' < k)%nat -> nth_error items k' = Some r' ->
                               str_int (id r') <> str v.
Proof.
  induction items as [|d rest IH]; intros i v j H; [discriminate|].
  simpl in H. destruct (String.eqb_spec (str_int (id d)) (str v)) as [E|E].
  - inversion H; subst. exists 0%nat, d. repeat split; [lia|exact E|].
    intros k' r' Hk. lia.
  - apply IH in H. destruct H as [k [r [Hj [Hn [Hs Hfirst]]]]].
    exists (S k), r. repeat split; [lia|exact Hn|exact Hs|].
    intros k' r' Hk Hn'. destruct k' as [|k']; simpl in Hn'.
    + inversion Hn'; subst. exact E.
    + apply (Hfirst k' r'); [lia|exact Hn'].
Qed.

Lemma restore_from_none items : forall i v,
  restore_from i items v = None <->
  Forall (fun r => str_int (id r) <> str v) items.
Proof.
  induction items as [|d rest IH]; intros i v; simpl.
  - split; [constructor|reflexivity].
  - destruct (String.eqb_spec (str_int (id d)) (str v)) as [E|E].
    + split; [discriminate|]. intros H. inversion H; subst. contradiction.
    + rewrite IH. split; [now constructor|]. intros H. now inversion H.
Qed.

(** X5. Saving and restoring the selection is a round trip: in a catalog
    whose ids are distinct, [restore_selected_items] selects exactly the
    item whose id [save_settings] stored, whether the store hands the id
    back as an integer or as its text.  When nothing was selected at saving
    time, or no item has the stored id, no index is set, and an index that
    is set always carries the stored id. *)
Theorem restore_selects_saved_item (items : list HardwareRecord)
  (i : nat) (r : HardwareRecord) (v : Value) :
  restore_index items (saved_id None) = None
  /\ (Forall (fun x => str_int (id x) <> str v) items ->
      restore_index items v = None)
  /\ (forall j, restore_index items v = Some j ->
                exists x, nth_error items j = Some x
                          /\ str_int (id x) = str v)
  /\ (NoDup (map id items) -> nth_error items i = Some r ->
      str v = str (saved_id (Some r)) ->
      restore_index items v = Some i).
Proof.
  unfold restore_index. split; [|split; [|split]].
  - apply restore_from_none. apply Forall_forall. intros x _.
    simpl. apply str_int_nonempty.
  - apply restore_from_none.
  - intros j H. apply restore_from_found in H.
    destruct H as [k [x [-> [Hn [Hs _]]]]]. eauto.
  - intros Hnd Hn Hv. simpl in Hv.
    destruct (restore_from 0 items v) as [j|] eqn:E.
    + apply restore_from_found in E.
      destruct E as [k [x [-> [Hk [Hs _]]]]]. simpl.
      rewrite Hv in Hs. apply str_int_inj in Hs.
      f_equal. apply (proj1 (NoDup_nth_error (map id items)) Hnd).
      * rewrite length_map. apply nth_error_Some. congruence.
      * rewrite !nth_error_map, Hk, Hn. simpl. now rewrite Hs.
    + apply restore_from_none in E. rewrite Forall_forall in E.
      exfalso. apply (E r); [eapply nth_error_In; eauto|].
      now rewrite Hv.
Qed.

Lemma restore_selects_saved_item_witness :
  restore_index
    [mkRecord 1 "Hamlib" "Dummy" "Hamlib - Dummy";
     mkRecord 1020 "Yaesu" "FT-817" "Yaesu - FT-817";
     mkRecord 3073 "Icom" "IC-7300" "Icom - IC-7300"] (VStr "1020")
  = Some 1%nat.
Proof.
  apply (restore_selects_saved_item _ 1%nat
           (mkRecord 1020 "Yaesu" "FT-817" "Yaesu - FT-817") (VStr "1020")).
  - simpl. repeat constructor; simpl; intuition discriminate.
  - reflexivity.
  - reflexivity.
Defined.

End SettingsFacts.
(** ** The argument vector of a session *)

Module SessionFacts.
Import PyStr PyMore Catalog Resolver Supervisor Session PyFacts.

Lemma filter_truthy_all l :
  Forall (fun a => truthy a = true) l -> filter truthy l = l.
Proof.
  induction 1 as [|a l Ha _ IH]; [reflexivity|]. simpl. now rewrite Ha, IH.
Qed.

Lemma Forall_app_intro {A} (P : A -> Prop) a b :
  Forall P a -> Forall P b -> Forall P (a ++ b)%list.
Proof. intros Ha Hb. apply Forall_app. now split. Qed.

Lemma Some_inj {A} (a b : A) : Some a = Some b -> a = b.
Proof. congruence. Qed.

Lemma truthy_not_empty a : truthy a = true -> a <> "".
Proof. destruct a; [discriminate|discriminate]. Qed.

Lemma opt_arg_truthy flag v :
  flag <> "" -> Forall (fun a => truthy a = true) (opt_arg flag v).
Proof.
  intros Hf. unfold opt_arg.
  destruct (truthy v); [constructor; [|constructor]|constructor].
  unfold arg. destruct flag; [congruence|reflexivity].
Qed.

Lemma radio_args ui data :
  radio_data (radio_tab ui) = Some data ->
  session_args Radio ui
  = Some (radio_vector (radio_tab ui) data ++ ["-vvvv"])%list.
Proof.
  intros Hd. unfold session_args, raw_args. rewrite Hd.
  fold (radio_vector (radio_tab ui) data).
  rewrite filter_truthy_all; [reflexivity|].
  unfold radio_vector.
  apply Forall_app_intro; [constructor; [reflexivity|constructor]|].
  apply Forall_app_intro; [apply opt_arg_truthy; discriminate|].
  apply Forall_app_intro.
  { destruct (is_icom data); [apply opt_arg_truthy; discriminate|constructor]. }
  apply Forall_app_intro.
  { destruct (ptt_checked (radio_tab ui));
      [constructor; [reflexivity|constructor; [reflexivity|constructor]]
      |constructor]. }
  apply Forall_app_intro; [apply opt_arg_truthy; discriminate|].
  constructor; [reflexivity|constructor].
Qed.

Lemma device_args flag d :
  filter truthy
    [if truthy (dev_serial_text d) then arg flag (dev_serial_text d) else "";
     if truthy (dev_baud_text d)
     then arg "--serial-speed=" (dev_baud_text d) else "";
     arg "--port=" (str_int (dev_port_value d))]
  = ((if truthy (dev_serial_text d) then [arg flag (dev_serial_text d)]
      else [])
     ++ (if truthy (dev_baud_text d)
         then [arg "--serial-speed=" (dev_baud_text d)] else [])
     ++ [arg "--port=" (str_int (dev_port_value d))])%list.
Proof.
  destruct (dev_serial_text d) as [|a s], (dev_baud_text d) as [|b t];
    unfold arg; simpl; try reflexivity.
  - destruct flag; reflexivity.
  - destruct flag; reflexivity.
Qed.

(** X6. Every argument vector [_start_runner] builds ends with the
    listen-port flag of its tab followed by ["-vvvv"], and holds no empty
    string; the radio tab builds none exactly when no radio is selected. *)
Theorem session_args_end_with_port_and_verbosity (tab : DaemonKind)
  (ui : Widgets) (args : list string) :
  (session_args tab ui = None
   <-> tab = Radio /\ radio_data (radio_tab ui) = None)
  /\ (session_args tab ui = Some args ->
      Forall (fun a => a <> "") args
      /\ exists pre,
           args = (pre ++ [arg "--port=" (str_int (port_of tab ui));
                           "-vvvv"])%list).
Proof.
  split.
  - destruct tab; unfold session_args, raw_args; simpl.
    + destruct (radio_data (radio_tab ui)); split;
        try discriminate; try tauto. intros [_ H]. discriminate.
    + split; [discriminate|]. intros [H _]. discriminate.
    + split; [discriminate|]. intros [H _]. discriminate.
  - intros H. unfold session_args in H.
    destruct (raw_args tab ui) as [raw|] eqn:Er; [|discriminate].
    apply Some_inj in H. subst args. split.
    + apply Forall_app_intro; [|constructor; [discriminate|constructor]].
      apply Forall_forall. intros a Ha. apply filter_In in Ha.
      now apply truthy_not_empty.
    + assert (Hraw : exists pre0,
                raw = (pre0 ++ [arg "--port=" (str_int (port_of tab ui))])%list).
      { destruct tab; unfold raw_args in Er; cbn [port_of].
        - destruct (radio_data (radio_tab ui)) as [data|]; [|discriminate].
          apply Some_inj in Er. subst raw. eexists.
          rewrite !app_assoc. reflexivity.
        - apply Some_inj in Er. subst raw.
          now exists [if truthy (dev_serial_text (rotor_tab ui))
                      then arg "--rot-file=" (dev_serial_text (rotor_tab ui))
                      else "";
                      if truthy (dev_baud_text (rotor_tab ui))
                      then arg "--serial-speed=" (dev_baud_text (rotor_tab ui))
                      else ""].
        - apply Some_inj in Er. subst raw.
          now exists [if truthy (dev_serial_text (amp_tab ui))
                      then arg "--amp-file=" (dev_serial_text (amp_tab ui))
                      else "";
                      if truthy (dev_baud_text (amp_tab ui))
                      then arg "--serial-speed=" (dev_baud_text (amp_tab ui))
                      else ""]. }
      destruct Hraw as [pre0 ->]. exists (filter truthy pre0).
      rewrite filter_app. cbn [filter]. unfold arg at 1.
      cbn [append truthy is_empty negb]. now rewrite <- app_assoc.
Qed.

Lemma session_args_end_with_port_and_verbosity_witness :
  session_args Rotor
    (mkWidgets (mkRadioTab None "" "" false "" "" "" 4532)
               (mkDeviceTab "COM3" "" 4533) (mkDeviceTab "" "" 4534))
  = Some ["--rot-file=COM3"; "--port=4533"; "-vvvv"]
  /\ exists pre, ["--rot-file=COM3"; "--port=4533"; "-vvvv"]
                 = (pre ++ ["--port=4533"; "-vvvv"])%list.
Proof.
  split; [reflexivity|].
  apply (session_args_end_with_port_and_verbosity Rotor
           (mkWidgets (mkRadioTab None "" "" false "" "" "" 4532)
                      (mkDeviceTab "COM3" "" 4533) (mkDeviceTab "" "" 4534))
           ["--rot-file=COM3"; "--port=4533"; "-vvvv"]).
  reflexivity.
Defined.

(** X7. The argument vectors of the rotor tab and of the amplifier tab
    never carry a model flag: [_start_runner] reads the serial device, the
    speed and the port of these tabs and nothing else. *)
Theorem device_tabs_pass_no_model (ui : Widgets) (args : list string) :
  session_args Rotor ui = Some args \/ session_args Amplifier ui = Some args ->
  has_flag "--model=" args = false.
Proof.
  unfold session_args, raw_args. rewrite !device_args.
  intros [H|H]; apply Some_inj in H; subst args; unfold has_flag, arg;
    destruct (truthy (dev_serial_text _)), (truthy (dev_baud_text _));
    reflexivity.
Qed.

Lemma device_tabs_pass_no_model_witness :
  has_flag "--model=" ["--amp-file=COM7"; "--serial-speed=9600";
                       "--port=4534"; "-vvvv"] = false.
Proof.
  apply (device_tabs_pass_no_model
           (mkWidgets (mkRadioTab None "" "" false "" "" "" 4532)
                      (mkDeviceTab "" "" 4533)
                      (mkDeviceTab "COM7" "9600" 4534))).
  right. reflexivity.
Defined.

(** X8. For a selected radio, the vector starts with the model flag, whose
    digits read back as the id of the record; the CI-V address is passed
    exactly when the CI-V field is enabled for that radio and, stripped, is
    not empty; the two PTT flags are passed together, exactly when the box
    is checked; the serial device and the speed are passed exactly when
    their texts are not empty. *)
Theorem radio_vector_flags (ui : Widgets) (data : HardwareRecord)
  (args : list string) :
  radio_data (radio_tab ui) = Some data ->
  session_args Radio ui = Some args ->
  let r := radio_tab ui in
  (exists rest, args = ("--model=" ++ str_int (id data)) :: rest
                /\ int (str_int (id data)) = Some (id data))
  /\ has_flag "--model=" args = true
  /\ has_flag "--civaddr=" args
     = civ_enabled (Some data) && truthy (strip (civ_text r))
  /\ has_flag "--ptt-file=" args = ptt_checked r
  /\ has_flag "--ptt-type=" args = ptt_checked r
  /\ has_flag "--rig-file=" args = truthy (serial_text r)
  /\ has_flag "--serial-speed=" args = truthy (baud_text r).
Proof.
  intros Hd Hs r. rewrite (radio_args ui data Hd) in Hs.
  apply Some_inj in Hs. subst args. fold r.
  split; [eexists; split; [reflexivity|apply int_str_int]|].
  unfold radio_vector, has_flag, opt_arg, arg, civ_enabled.
  destruct (is_icom data), (truthy (strip (civ_text r))), (ptt_checked r),
    (truthy (serial_text r)), (truthy (baud_text r));
    repeat split; reflexivity.
Qed.

Lemma radio_vector_flags_witness :
  session_args Radio
    (mkWidgets
       (mkRadioTab (Some (mkRecord 3073 "Icom" "IC-7300" "Icom - IC-7300"))
                   "COM4" " 94h " true "COM5" "RTS" "19200" 4532)
       (mkDeviceTab "" "" 4533) (mkDeviceTab "" "" 4534))
  = Some ["--model=3073"; "--rig-file=COM4"; "--civaddr=94h";
          "--ptt-file=COM5"; "--ptt-type=RTS"; "--serial-speed=19200";
          "--port=4532"; "-vvvv"]
  /\ has_flag "--civaddr="
       ["--model=3073"; "--rig-file=COM4"; "--civaddr=94h";
        "--ptt-file=COM5"; "--ptt-type=RTS"; "--serial-speed=19200";
        "--port=4532"; "-vvvv"] = true.
Proof.
  split; [reflexivity|].
  apply (radio_vector_flags
           (mkWidgets
              (mkRadioTab
                 (Some (mkRecord 3073 "Icom" "IC-7300" "Icom - IC-7300"))
                 "COM4" " 94h " true "COM5" "RTS" "19200" 4532)
              (mkDeviceTab "" "" 4533) (mkDeviceTab "" "" 4534))
           (mkRecord 3073 "Icom" "IC-7300" "Icom - IC-7300")).
  - reflexivity.
  - reflexivity.
Defined.

(** X9. A press of a connect button changes the runner of its tab only,
    and spawns at most one child; a child it spawns runs with exactly the
    vector of the session, which ends in ["-vvvv"].  With no radio selected
    the radio button changes nothing. *)
Theorem start_runner_spawns_the_session (tab : DaemonKind) (ui : Widgets)
  (root : Root) (raised : option Raise) (m : MainWindow) :
  let out := _start_runner tab ui root raised m in
  (forall k, k <> tab -> runner_of k (snd out) = runner_of k m)
  /\ (session_args tab ui = None -> out = (None, m))
  /\ (children (runner_of tab (snd out)) = children (runner_of tab m)
      \/ exists c,
           children (runner_of tab (snd out))
           = (children (runner_of tab m) ++ [c])%list
           /\ Some (Supervisor.args c) = session_args tab ui
           /\ last (Supervisor.args c) "" = "-vvvv").
Proof.
  unfold _start_runner.
  destruct (session_args tab ui) as [a|] eqn:Ea; cbn [snd].
  - split; [intros k Hk; now apply SupervisorFacts.runner_of_set_other|].
    split; [discriminate|].
    rewrite SupervisorFacts.runner_of_set_same. unfold start.
    destruct (process (runner_of tab m)); [now left|].
    destruct (find_exe _ root) as [path|]; [|now left].
    assert (Hlast : last a "" = "-vvvv").
    { unfold session_args in Ea. destruct (raw_args tab ui); [|discriminate].
      apply Some_inj in Ea. subst a. apply last_last. }
    destruct raised as [[e|e|e]|];
      [left; unfold failed_to_start; cbn -[String.append];
       now destruct (process (runner_of tab m))| | |];
      right; exists (mkPopen path a (removelast path));
      (split; [reflexivity|]); (split; [reflexivity|]); exact Hlast.
  - split; [reflexivity|]. split; [reflexivity|]. now left.
Qed.

Lemma start_runner_spawns_the_session_witness :
  _start_runner Radio
    (mkWidgets (mkRadioTab None "COM4" "" false "" "" "9600" 4532)
               (mkDeviceTab "" "" 4533) (mkDeviceTab "" "" 4534))
    (Some Samples.two_full_trees) None new_window
  = (None, new_window).
Proof.
  apply (start_runner_spawns_the_session Radio
           (mkWidgets (mkRadioTab None "COM4" "" false "" "" "9600" 4532)
                      (mkDeviceTab "" "" 4533) (mkDeviceTab "" "" 4534))
           (Some Samples.two_full_trees) None new_window).
  reflexivity.
Defined.

End SessionFacts.
(** ** More about the resolver *)

Module ResolverMore.
Import PyStr Resolver Vocabulary.

Lemma lookup_Some_In n x es : lookup n es = Some x -> In (n, x) es.
Proof.
  induction es as [|[m y] r IH]; [discriminate|]. simpl.
  destruct (String.eqb_spec m n) as [->|_].
  - intros H. inversion H. now left.
  - intros H. right. now apply IH.
Qed.

Lemma At_nonempty p es x : At p es x -> p <> [].
Proof. destruct 1; discriminate. Qed.

Lemma last_cons_nonempty (n : string) p d : p <> [] -> last (n :: p) d = last p d.
Proof. destruct p; [congruence|reflexivity]. Qed.

Lemma resolve_At p : forall es x, resolve p es = Some x -> At p es x.
Proof.
  induction p as [|n p IH]; intros es x H; [discriminate|].
  destruct p as [|n' q].
  - simpl in H. apply At_here. now apply lookup_Some_In.
  - change (match lookup n es with
            | Some (Dir _ es') => resolve (n' :: q) es'
            | _ => None
            end = Some x) in H.
    destruct (lookup n es) as [[c|t es']|] eqn:E; try discriminate.
    apply At_below with (t := t) (es' := es').
    + now apply lookup_Some_In.
    + now apply IH.
Qed.

Lemma in_files_In name es :
  in_files name es = true <-> exists c, In (name, File c) es.
Proof.
  induction es as [|[n [c|t es']] r IH]; simpl.
  - split; [discriminate|]. intros [c []].
  - rewrite orb_true_iff, IH. split.
    + intros [H|[c' H]]; [apply String.eqb_eq in H; subst; eauto|eauto].
    + intros [c' [H|H]]; [left; inversion H; apply String.eqb_refl|eauto].
  - rewrite IH. split.
    + intros [c H]. eauto.
    + intros [c [H|H]]; [discriminate|eauto].
Qed.

Lemma first_some_Some {A B} (f : A -> option B) l b :
  first_some f l = Some b -> exists a, In a l /\ f a = Some b.
Proof.
  induction l as [|a r IH]; [discriminate|]. simpl.
  destruct (f a) as [b'|] eqn:E.
  - intros H. inversion H; subst. exists a. auto.
  - intros H. destruct (IH H) as [a' [Hin Hf]]. exists a'. auto.
Qed.

Lemma first_some_In {A B} (f : A -> option B) l a :
  In a l -> f a <> None -> first_some f l <> None.
Proof.
  induction l as [|a' r IH]; [intros []|]. simpl. intros [->|Hin] Hf.
  - destruct (f a); [discriminate|congruence].
  - destruct (f a'); [discriminate|now apply IH].
Qed.

(** What the walk returns is a file of the name asked for, below the
    directory walked. *)
Lemma walk_sound name x : forall here p,
  walk name here x = Some p ->
  exists t es q c, x = Dir t es /\ p = (here ++ q)%list
                   /\ At q es (File c) /\ last q "" = name.
Proof.
  induction x as [c|t es IH] using ResolverFacts.Node_tree_ind; intros here p H;
    [discriminate|].
  simpl in H. destruct (in_files name es) eqn:Ef.
  - inversion H; subst. apply in_files_In in Ef. destruct Ef as [c Hc].
    exists t, es, [name], c. repeat split. now apply At_here.
  - apply first_some_Some in H. destruct H as [[d child] [Hin Hw]].
    rewrite Forall_forall in IH. specialize (IH _ Hin (here ++ [d])%list p Hw).
    destruct IH as [t' [es' [q [c [Hx [Hp [Hat Hlast]]]]]]].
    simpl in Hx. subst child.
    exists t, es, (d :: q), c. repeat split.
    + now rewrite Hp, <- app_assoc.
    + now apply At_below with (t := t') (es' := es').
    + rewrite last_cons_nonempty; [exact Hlast|].
      eapply At_nonempty; eauto.
Qed.

(** The walk finds a file of the name asked for wherever one is. *)
Lemma walk_complete q es x :
  At q es x ->
  forall c name here t,
    x = File c -> last q "" = name -> walk name here (Dir t es) <> None.
Proof.
  induction 1 as [n x es Hin|n t' es' es p x Hin Hat IH];
    intros c name here t Hx Hlast.
  - subst x. simpl in Hlast. subst n. simpl.
    assert (Hf : in_files name es = true) by (apply in_files_In; eauto).
    rewrite Hf. discriminate.
  - simpl. destruct (in_files name es); [discriminate|].
    apply first_some_In with (a := (n, Dir t' es')); [exact Hin|].
    apply (IH c name (here ++ [n])%list t' Hx).
    rewrite last_cons_nonempty in Hlast; [exact Hlast|].
    eapply At_nonempty; eauto.
Qed.

Lemma has_bin_exe_At name x :
  has_bin_exe name x = true ->
  exists t es y, x = Dir t es /\ At ["bin"; name] es y.
Proof.
  unfold has_bin_exe, exists_in. destruct x as [c|t es]; [discriminate|].
  destruct (lookup "bin" es) as [[c|t' bes]|] eqn:Eb; try discriminate.
  destruct (lookup name bes) as [y|] eqn:En; [|discriminate]. intros _.
  exists t, es, y. split; [reflexivity|].
  apply At_below with (t := t') (es' := bes).
  - now apply lookup_Some_In.
  - apply At_here. now apply lookup_Some_In.
Qed.

Lemma find_exe_sound name es p :
  find_exe name (Some es) = Some p ->
  exists x, At p es x /\ last p "" = name.
Proof.
  unfold find_exe.
  assert (Hwalk : os_walk name (Some es) = Some p ->
                  exists x, At p es x /\ last p "" = name).
  { unfold os_walk. intros H. apply walk_sound in H.
    destruct H as [t [es' [q [c [Hx [Hp [Hat Hlast]]]]]]].
    inversion Hx; subst. simpl. eauto. }
  destruct (get_latest_bin_dir (Some es)) as [d|]; [|exact Hwalk].
  destruct (path_exists (d ++ [name])%list (Some es)) eqn:E; [|exact Hwalk].
  intros H. inversion H; subst. unfold path_exists in E.
  destruct (resolve (d ++ [name])%list es) as [x|] eqn:Er; [|discriminate].
  exists x. split; [now apply resolve_At|apply last_last].
Qed.

(** X10. What [find_exe] returns is there: the path it gives leads to an
    entry of the tree and ends in the name asked for.  Without the
    directory nothing resolves. *)
Theorem find_exe_result_exists (name : string) (es : Entries) (p : Path) :
  find_exe name None = None
  /\ (find_exe name (Some es) = Some p ->
      exists x, At p es x /\ last p "" = name).
Proof. split; [reflexivity|apply find_exe_sound]. Qed.

Lemma find_exe_result_exists_witness :
  exists x, At ["hamlib-w64-4.6"; "bin"; "ampctld.exe"]
               Samples.two_full_trees x.
Proof.
  destruct (find_exe_result_exists "ampctld.exe" Samples.two_full_trees
              ["hamlib-w64-4.6"; "bin"; "ampctld.exe"]) as [_ H].
  destruct (H eq_refl) as [x [Hx _]]. exists x. exact Hx.
Defined.

(** X11. [find_exe] finds every executable that is a file anywhere below
    the root, whatever the layout: it returns nothing only when no file of
    that name exists in the whole tree. *)
Theorem find_exe_finds_any_file (name : string) (es : Entries) (q : Path)
  (c : string) :
  At q es (File c) -> last q "" = name ->
  find_exe name (Some es) <> None.
Proof.
  intros Hat Hlast. unfold find_exe.
  assert (Hwalk : os_walk name (Some es) <> None).
  { unfold os_walk. eapply walk_complete; eauto. }
  destruct (get_latest_bin_dir (Some es)) as [d|]; [|exact Hwalk].
  destruct (path_exists (d ++ [name])%list (Some es));
    [discriminate|exact Hwalk].
Qed.

Lemma find_exe_finds_any_file_witness :
  find_exe "rotctld.exe"
    (Some [("tools", Dir 5 [("old", Dir 4 [("rotctld.exe", File "MZ")])])])
  <> None.
Proof.
  apply (find_exe_finds_any_file "rotctld.exe" _
           ["tools"; "old"; "rotctld.exe"] "MZ").
  - apply At_below with (t := 5%Z) (es' := [("old", Dir 4 [("rotctld.exe", File "MZ")])]);
      [left; reflexivity|].
    apply At_below with (t := 4%Z) (es' := [("rotctld.exe", File "MZ")]);
      [left; reflexivity|].
    apply At_here. left. reflexivity.
  - reflexivity.
Defined.

(** X12. [get_latest_bin_dir] returns a directory called [bin] that holds
    [rigctld.exe], and it returns one whenever an immediate sub-directory of
    the root, or the root itself, has [bin/rigctld.exe]. *)
Theorem latest_bin_dir_holds_rigctld (es : Entries) (d : Path)
  (e : string * Node) :
  (get_latest_bin_dir (Some es) = Some d ->
   last d "" = "bin"
   /\ exists x, At (d ++ ["rigctld.exe"])%list es x)
  /\ (In e es -> has_bin_exe "rigctld.exe" (snd e) = true ->
      get_latest_bin_dir (Some es) <> None)
  /\ (has_bin_exe "rigctld.exe" (Dir 0 es) = true ->
      get_latest_bin_dir (Some es) <> None).
Proof.
  unfold get_latest_bin_dir. split; [|split].
  - destruct (candidates es) as [|c cs] eqn:Ec.
    + destruct (has_bin_exe "rigctld.exe" (Dir 0 es)) eqn:Eb; [|discriminate].
      intros H. inversion H; subst. split; [reflexivity|].
      apply has_bin_exe_At in Eb. destruct Eb as [t [es' [y [Hx Hat]]]].
      inversion Hx; subst. eauto.
    + intros H. inversion H; subst. split; [reflexivity|].
      pose proof (ResolverFacts.max_by_mtime_In cs c) as Hin.
      rewrite <- Ec in Hin. apply ResolverFacts.candidates_sound in Hin.
      destruct Hin as [Hin Hb]. apply has_bin_exe_At in Hb.
      destruct Hb as [t [es' [y [Hx Hat]]]].
      destruct (max_by_mtime c cs) as [sub node]. simpl in *. subst node.
      exists y. now apply At_below with (t := t) (es' := es').
  - intros Hin Hb.
    assert (Hc : In e (candidates es)) by (apply filter_In; auto).
    destruct (candidates es); [destruct Hc|discriminate].
  - intros Hb. destruct (candidates es); [now rewrite Hb|discriminate].
Qed.

Lemma latest_bin_dir_holds_rigctld_witness :
  get_latest_bin_dir (Some Samples.two_full_trees)
    = Some ["hamlib-w64-4.6"; "bin"]
  /\ exists x, At ["hamlib-w64-4.6"; "bin"; "rigctld.exe"]
                  Samples.two_full_trees x.
Proof.
  split; [reflexivity|].
  destruct (latest_bin_dir_holds_rigctld Samples.two_full_trees
              ["hamlib-w64-4.6"; "bin"] ("", File "")) as [H _].
  destruct (H eq_refl) as [_ Hx]. exact Hx.
Defined.

End ResolverMore.
(** ** More about the installer *)

Module InstallerMore.
Import PyStr Resolver Installer Vocabulary InstallerFacts.

Lemma length_append (a b : string) :
  String.length (a ++ b) = (String.length a + String.length b)%nat.
Proof. induction a; simpl; congruence. Qed.

Lemma names_put n k x (es : Entries) :
  In n (map fst (put_entry k x es)) <-> n = k \/ In n (map fst es).
Proof.
  induction es as [|[m y] r IH]; simpl.
  - intuition congruence.
  - destruct (String.eqb_spec m k) as [->|Hm]; simpl.
    + intuition congruence.
    + rewrite IH. intuition congruence.
Qed.

Lemma names_extracted n (ms : Entries) : forall base : Entries,
  In n (map fst (fold_left (fun es m => put_entry (fst m) (snd m) es) ms base))
  <-> In n (map fst base) \/ In n (map fst ms).
Proof.
  induction ms as [|[k x] r IH]; intros base; simpl.
  - tauto.
  - rewrite IH, names_put. simpl. intuition congruence.
Qed.

Lemma lookup_cleared dest (es : Entries) :
  lookup dest (filter (fun e => String.eqb (fst e) dest) es) = lookup dest es.
Proof.
  induction es as [|[m y] r IH]; [reflexivity|]. simpl.
  destruct (String.eqb m dest) eqn:E; simpl; now rewrite ?E.
Qed.

Lemma names_cleared n dest (es : Entries) :
  In n (map fst (filter (fun e => String.eqb (fst e) dest) es)) -> n = dest.
Proof.
  rewrite in_map_iff. intros [[m y] [Hn Hin]]. apply filter_In in Hin.
  destruct Hin as [_ E]. simpl in *. apply String.eqb_eq in E. congruence.
Qed.

(** The clearing loop, when no removal raises, leaves the entries called
    [dest]. *)
Lemma clear_items_returns env dest (es left : Entries) :
  clear_items env dest es = (None, left) ->
  left = filter (fun e => String.eqb (fst e) dest) es.
Proof.
  revert left. induction es as [|[m y] r IH]; intros left; simpl.
  - intros H. now inversion H.
  - destruct (String.eqb m dest).
    + destruct (clear_items env dest r) as [e l0]. intros H.
      inversion H; subst. f_equal. now apply IH.
    + destruct (remove_error env m y) as [[msg remains]|]; [discriminate|].
      apply IH.
Qed.

Lemma clear_returns env dest s s' :
  clear env dest s = (inr tt, s') ->
  s' = mkSt (Some (filter (fun e => String.eqb (fst e) dest)
                          (entries_of (hamlib s)))) (progress s).
Proof.
  unfold clear, bind, get_root. destruct (hamlib s) as [es|]; [|discriminate].
  destruct (clear_items env dest es) as [e left] eqn:Ec.
  unfold set_root. cbn [hamlib progress]. destruct e as [e|]; [discriminate|].
  intros H. inversion H; subst. apply clear_items_returns in Ec.
  now subst left.
Qed.

Lemma clear_keeps_progress env dest s r s' :
  clear env dest s = (r, s') -> progress s' = progress s.
Proof.
  unfold clear, bind, get_root.
  destruct (hamlib s) as [es|]; [|intros H; now inversion H].
  destruct (clear_items env dest es) as [e left].
  unfold set_root. cbn [hamlib progress].
  destruct e; intros H; now inversion H.
Qed.

Lemma clear_keeps_the_directory env dest s r s' :
  clear env dest s = (r, s') -> hamlib s <> None -> hamlib s' <> None.
Proof.
  unfold clear, bind, get_root.
  destruct (hamlib s) as [es|] eqn:Eh; [|congruence].
  destruct (clear_items env dest es) as [e left].
  unfold set_root. cbn [hamlib progress].
  destruct e; intros H _; inversion H; discriminate.
Qed.

(** [mkdir] raises and leaves everything as it is, or it returns. *)
Lemma ensure_cases env s :
  (exists msg, hamlib s = None /\ mkdir_error env = Some msg
               /\ ensure_hamlib_dir env s = (inl (OSError msg), s))
  \/ ensure_hamlib_dir env s
     = (inr tt, mkSt (Some (entries_of (hamlib s))) (progress s)).
Proof.
  unfold ensure_hamlib_dir, bind, get_root.
  destruct s as [[es|] pr]; cbn [hamlib progress entries_of];
    [now right|].
  destruct (mkdir_error env) as [msg|]; [left; now exists msg|now right].
Qed.

(** The download step, when it returns: the whole body is in [dest]. *)
Lemma download_returns env url dest s s' :
  download env url dest s = (inr tt, s') ->
  exists u rr,
    url = Some u /\ fetch env u = inr rr /\ stream_error rr = None
    /\ hamlib s'
       = Some (put_entry dest (File (bytes_of (chunks rr)))
                 (entries_of (hamlib s))).
Proof.
  unfold download. destruct url as [u|]; [|discriminate].
  destruct (fetch env u) as [m|rr] eqn:Ef; [discriminate|].
  destruct (status_error rr); [discriminate|].
  destruct (header_total rr) as [total|]; [|discriminate].
  unfold bind at 1. unfold open_wb.
  destruct (open_error env); [discriminate|].
  unfold bind at 1. unfold get_root.
  assert (Hwritten :
    (write_chunks dest total 0 (chunks rr);;;
     match stream_error rr with
     | Some e => raise e
     | None => ret tt
     end) (mkSt (Some (put_entry dest (File "") (entries_of (hamlib s))))
                (progress s)) = (inr tt, s') ->
    stream_error rr = None
    /\ hamlib s'
       = Some (put_entry dest (File (bytes_of (chunks rr)))
                 (entries_of (hamlib s)))).
  { intros H.
    destruct (write_chunks_effect dest total (entries_of (hamlib s))
                (chunks rr) 0%Z ""
                (mkSt (Some (put_entry dest (File "") (entries_of (hamlib s))))
                      (progress s)) eq_refl) as [s2 [E2 H2]].
    unfold bind in H. rewrite E2 in H.
    destruct (stream_error rr) eqn:Es; [discriminate|].
    inversion H; subst. split; [reflexivity|exact H2]. }
  destruct (lookup dest (entries_of (hamlib s))) as [[c0|t es']|];
    try discriminate;
    (intros H; destruct (Hwritten H) as [Hs Hh]; exists u, rr; auto).
Qed.

(** X13. After an install whose extraction completes, the root holds the
    archive and what the extraction wrote, and nothing else: an entry
    under another name than the archive's is there exactly when the archive
    has a member of that name.  Every entry of the old installation is
    gone unless the archive brings it again. *)
Theorem successful_install_replaces_the_tree (env : Env) (s s' : St)
  (latest : Release) (n : string) :
  extraction_completes env s latest s' ->
  let dest := snd (select_asset latest) in
  exists u rr,
    fst (select_asset latest) = Some u
    /\ fetch env u = inr rr
    /\ zip_error (unzip env (bytes_of (chunks rr))) = None
    /\ In dest (map fst (entries_of (hamlib s')))
    /\ (n <> dest ->
        (In n (map fst (entries_of (hamlib s')))
         <-> In n (map fst (members (unzip env (bytes_of (chunks rr))))))).
Proof.
  intros [Hfeed Hrun] dest. fold dest in Hrun.
  destruct (select_asset latest) as [url d0] eqn:Esel. simpl in dest, Hrun.
  subst dest.
  unfold bind at 1 in Hrun.
  destruct (ensure_hamlib_dir env s) as [[e|[]] s0] eqn:Ee; [discriminate|].
  apply ensure_effect in Ee. subst s0.
  unfold bind at 1 in Hrun.
  destruct (download env url d0 _) as [[e|[]] s1] eqn:Ed; [discriminate|].
  apply download_returns in Ed.
  destruct Ed as [u [rr [-> [Hfetch [_ Hs1]]]]]. simpl in Hs1.
  unfold bind at 1 in Hrun.
  destruct (clear env d0 s1) as [[e|[]] s2] eqn:Ec; [discriminate|].
  apply clear_returns in Ec. subst s2. rewrite Hs1 in Hrun.
  cbn [entries_of] in Hrun.
  unfold extract, bind, get_root, set_root in Hrun. cbn [hamlib entries_of] in Hrun.
  rewrite lookup_cleared, lookup_put_same in Hrun.
  destruct (zip_error (unzip env (bytes_of (chunks rr)))) eqn:Ez;
    [discriminate|].
  inversion Hrun; subst s'. clear Hrun. cbn [hamlib entries_of].
  exists u, rr. split; [reflexivity|]. split; [exact Hfetch|].
  split; [exact Ez|]. split.
  - apply names_extracted. left. apply in_map_iff.
    exists (d0, File (bytes_of (chunks rr))). split; [reflexivity|].
    apply filter_In. split; [|apply String.eqb_refl].
    apply ResolverMore.lookup_Some_In, lookup_put_same.
  - intros Hn. split.
    + intros H. apply names_extracted in H. destruct H as [H|H]; [|exact H].
      apply names_cleared in H. contradiction.
    + intros H. apply names_extracted. now right.
Qed.

Lemma successful_install_replaces_the_tree_witness :
  ~ In "hamlib-w64-4.5"
      (map fst (entries_of (hamlib (snd (download_latest_release
                                           Samples.archive_without_daemons
                                           (mkSt Samples.installed_45 [])))))).
Proof.
  pose (out := download_latest_release Samples.archive_without_daemons
                 (mkSt Samples.installed_45 [])).
  assert (H : extraction_completes Samples.archive_without_daemons
                (mkSt Samples.installed_45 []) Samples.release_45 (snd out))
    by (split; reflexivity).
  destruct (successful_install_replaces_the_tree _ _ _ _ "hamlib-w64-4.5" H)
    as [u [rr [Hu [Hf [_ [_ Hiff]]]]]].
  intros Hin. apply Hiff in Hin; [|discriminate].
  simpl in Hu. inversion Hu; subst u. simpl in Hf. inversion Hf; subst rr.
  simpl in Hin. intuition discriminate.
Defined.

(** *** Progress *)

Lemma write_keeps_progress dest chunk s r s' :
  write dest chunk s = (r, s') -> progress s' = progress s.
Proof.
  unfold write, bind, get_root, set_root, raise.
  destruct (lookup dest (entries_of (hamlib s))) as [[c|t es]|];
    intros H; inversion H; reflexivity.
Qed.

Lemma increasing_cons d l :
  Forall (fun x => (d < x)%Z) l -> increasing l -> increasing (d :: l).
Proof.
  intros Hall Hinc. simpl. split; [|exact Hinc].
  destruct l; [exact I|]. now inversion Hall.
Qed.

Lemma write_chunks_progress dest total cs : forall d s r s',
  write_chunks dest total d cs s = (r, s') ->
  exists ds,
    progress s' = (progress s ++ map (fun x => (x, total)) ds)%list
    /\ increasing ds
    /\ Forall (fun x => (d < x <= d + Z.of_nat (String.length (bytes_of cs)))%Z)
              ds
    /\ (total = 0%Z -> ds = []).
Proof.
  induction cs as [|chunk rest IH]; intros d s r s' H.
  - inversion H; subst. exists []. rewrite app_nil_r. simpl. auto.
  - simpl in H. destruct chunk as [|a chunk'].
    + simpl in H. destruct (IH _ _ _ _ H) as [ds [Hp [Hi [Hb Hz]]]].
      exists ds. auto.
    + set (chunk := String a chunk') in *.
      change (truthy chunk) with true in H. cbv iota in H.
      unfold bind at 1 in H.
      destruct (write dest chunk s) as [[e|[]] s1] eqn:Ew.
      * inversion H; subst. apply write_keeps_progress in Ew.
        exists []. rewrite app_nil_r. simpl. auto.
      * apply write_keeps_progress in Ew.
        set (d1 := (d + Z.of_nat (String.length chunk))%Z) in *.
        assert (Hd1 : (d < d1)%Z) by (unfold d1, chunk; simpl; lia).
        assert (Hlen : Z.of_nat (String.length (bytes_of (chunk :: rest)))
                       = (Z.of_nat (String.length chunk)
                          + Z.of_nat (String.length (bytes_of rest)))%Z).
        { change (bytes_of (chunk :: rest)) with (chunk ++ bytes_of rest).
          rewrite length_append. lia. }
        unfold bind at 1 in H.
        destruct (Z.eqb_spec total 0) as [Ht|Ht].
        -- unfold ret in H.
           destruct (IH _ _ _ _ H) as [ds [Hp [Hi [Hb Hz]]]].
           exists ds. rewrite Hp, Ew. repeat split; auto.
           eapply Forall_impl; [|exact Hb]. intros x Hx. cbv beta in *. unfold d1 in *. lia.
        -- unfold report in H.
           destruct (IH _ _ _ _ H) as [ds [Hp [Hi [Hb Hz]]]].
           exists (d1 :: ds). cbn [progress] in Hp. rewrite Hp, Ew.
           rewrite <- app_assoc.
           split; [reflexivity|]. split; [|split].
           ++ apply increasing_cons; [|exact Hi].
              eapply Forall_impl; [|exact Hb]. intros x Hx. cbv beta in *. unfold d1 in *. lia.
           ++ constructor; [unfold d1 in *; lia|].
              eapply Forall_impl; [|exact Hb]. intros x Hx. cbv beta in *. unfold d1 in *. lia.
           ++ intros E. contradiction.
Qed.

Lemma download_progress env u dest rr total s r s' :
  fetch env u = inr rr -> header_total rr = Some total ->
  download env (Some u) dest s = (r, s') ->
  exists ds,
    progress s' = (progress s ++ map (fun x => (x, total)) ds)%list
    /\ increasing ds
    /\ Forall (fun x =>
         (0 < x <= Z.of_nat (String.length (bytes_of (chunks rr))))%Z) ds
    /\ (total = 0%Z -> ds = []).
Proof.
  intros Hf Ht. unfold download. rewrite Hf, Ht.
  assert (Hnone : forall q : Exn + unit, (q, s) = (r, s') ->
    exists ds,
      progress s' = (progress s ++ map (fun x => (x, total)) ds)%list
      /\ increasing ds
      /\ Forall (fun x =>
           (0 < x <= Z.of_nat (String.length (bytes_of (chunks rr))))%Z) ds
      /\ (total = 0%Z -> ds = [])).
  { intros q H. inversion H; subst. exists []. rewrite app_nil_r.
    simpl. auto. }
  destruct (status_error rr); [apply Hnone|].
  unfold bind at 1. unfold open_wb.
  destruct (open_error env); [apply Hnone|].
  unfold bind at 1. unfold get_root.
  assert (Hwritten :
    (write_chunks dest total 0 (chunks rr);;;
     match stream_error rr with
     | Some e => raise e
     | None => ret tt
     end) (mkSt (Some (put_entry dest (File "") (entries_of (hamlib s))))
                (progress s)) = (r, s') ->
    exists ds,
      progress s' = (progress s ++ map (fun x => (x, total)) ds)%list
      /\ increasing ds
      /\ Forall (fun x =>
           (0 < x <= Z.of_nat (String.length (bytes_of (chunks rr))))%Z) ds
      /\ (total = 0%Z -> ds = [])).
  { unfold bind.
    destruct (write_chunks dest total 0 (chunks rr) _) as [q s2] eqn:Ew.
    apply write_chunks_progress in Ew. cbn [progress] in Ew.
    intros H.
    assert (Hs : s2 = s').
    { destruct q as [e|[]]; [now inversion H|].
      destruct (stream_error rr); now inversion H. }
    subst s2. exact Ew. }
  destruct (lookup dest (entries_of (hamlib s))) as [[c0|t es']|];
    [exact Hwritten|apply Hnone|exact Hwritten].
Qed.

Lemma extract_keeps_progress env dest s r s' :
  extract env dest s = (r, s') -> progress s' = progress s.
Proof.
  unfold extract, bind, get_root, set_root, raise, ret.
  destruct (lookup dest (entries_of (hamlib s))) as [[c|t es]|];
    try (intros H; inversion H; reflexivity).
  destruct (zip_error (unzip env c)); intros H; inversion H; reflexivity.
Qed.

(** X14. The values handed to the progress callback during one call have
    the total of the [Content-Length] header as denominator, and numerators
    that are positive, strictly increasing and at most the number of bytes
    received; nothing is reported when the header is absent or zero. *)
Theorem progress_reports_increase (env : Env) (s : St) (latest : Release)
  (u dest : string) (rr : AssetResponse) (total : Z) :
  feed env = inr latest ->
  select_asset latest = (Some u, dest) ->
  fetch env u = inr rr ->
  header_total rr = Some total ->
  exists ds,
    progress (snd (download_latest_release env s))
    = (progress s ++ map (fun x => (x, total)) ds)%list
    /\ increasing ds
    /\ Forall (fun x =>
         (0 < x <= Z.of_nat (String.length (bytes_of (chunks rr))))%Z) ds
    /\ (total = 0%Z -> ds = []).
Proof.
  intros Hfeed Hsel Hfetch Htotal.
  unfold download_latest_release, try_block. rewrite Hfeed, Hsel.
  unfold bind at 1.
  destruct (ensure_cases env s) as [[msg [_ [_ Em]]]|Em]; rewrite Em.
  { exists []. cbn [snd map]. rewrite app_nil_r.
    repeat split; constructor. }
  unfold bind at 1.
  destruct (download env (Some u) dest _) as [q s1] eqn:Ed.
  apply (download_progress env u dest rr total _ _ _ Hfetch Htotal) in Ed.
  cbn [progress] in Ed.
  destruct q as [e|[]]; [exact Ed|].
  unfold bind at 1.
  destruct (clear env dest s1) as [q s2] eqn:Ec.
  apply clear_keeps_progress in Ec.
  destruct q as [e|[]]; [cbn [snd]; rewrite Ec; exact Ed|].
  unfold bind at 1.
  destruct (extract env dest s2) as [q s3] eqn:Ee.
  apply extract_keeps_progress in Ee.
  destruct q as [e|[]]; cbn [snd ret]; rewrite Ee, Ec; exact Ed.
Qed.

Lemma progress_reports_increase_witness :
  progress (snd (download_latest_release Samples.archive_without_daemons
                   (mkSt None [])))
  = [(2, 4); (4, 4)]%Z.
Proof.
  destruct (progress_reports_increase Samples.archive_without_daemons
              (mkSt None []) Samples.release_45
              "https://example.org/hamlib-w64-4.5.zip" "hamlib-w64-4.5.zip"
              (mkResponse None (Some "4") ["PK"; "ZZ"] None) 4%Z
              eq_refl eq_refl eq_refl eq_refl) as [ds [Hp _]].
  reflexivity.
Defined.

(** X15. Whatever the release descriptor lists, the file the archive is
    downloaded to has a name that ends in ".zip" in lower case; it is never
    [bin] and never one of the three daemons. *)
Theorem archive_name_ends_in_zip (latest : Release) :
  endswith ".zip" (lower (snd (select_asset latest))) = true
  /\ snd (select_asset latest) <> "bin"
  /\ ~ In (snd (select_asset latest)) daemons.
Proof.
  split; [apply asset_name_is_zip|apply dest_is_no_daemon].
Qed.

Lemma download_keeps_the_directory env url dest s r s' :
  download env url dest s = (r, s') -> hamlib s <> None -> hamlib s' <> None.
Proof.
  intros Ed Hs. apply download_effect in Ed.
  destruct Ed as [-> | [_ [c ->]]]; [exact Hs|discriminate].
Qed.

Lemma extract_keeps_the_directory env dest s r s' :
  extract env dest s = (r, s') -> hamlib s <> None -> hamlib s' <> None.
Proof.
  unfold extract, bind, get_root, set_root, raise, ret.
  destruct (lookup dest (entries_of (hamlib s))) as [[c|t es]|];
    try (intros H Hs; inversion H; subst; exact Hs).
  destruct (zip_error (unzip env c)); intros H _; inversion H; discriminate.
Qed.

(** X16. A call that fails before the download touches nothing: when the
    query of the release feed fails, or when the installation directory
    does not exist and cannot be created, the call reports failure and
    leaves the state as it was, the directory not created.  No step removes
    the directory itself: a directory that exists before the call exists
    after it, however the call ends, and so does the directory of every
    call that reports success.  A call after which there is no directory
    has failed and has touched nothing. *)
Theorem early_failure_touches_nothing (env : Env) (s : St) :
  let out := download_latest_release env s in
  (forall msg, feed env = inl msg ->
     out = ((false, "Download/extract failed: " ++ msg), s))
  /\ (forall latest msg,
        feed env = inr latest -> hamlib s = None ->
        mkdir_error env = Some msg ->
        fst (fst out) = false /\ snd out = s)
  /\ (hamlib s <> None -> hamlib (snd out) <> None)
  /\ (fst (fst out) = true -> hamlib (snd out) <> None)
  /\ (hamlib (snd out) = None -> fst (fst out) = false /\ snd out = s).
Proof.
  assert (Hexists : forall latest,
            feed env = inr latest ->
            (hamlib s = None -> mkdir_error env = None) ->
            hamlib (snd (download_latest_release env s)) <> None).
  { intros latest H Hdir. unfold download_latest_release, try_block.
    rewrite H. destruct (select_asset latest) as [url dest].
    unfold bind at 1. rewrite (ensure_returns env s Hdir). unfold bind at 1.
    destruct (download env url dest _) as [q s1] eqn:Ed.
    assert (H1 : hamlib s1 <> None).
    { apply (download_keeps_the_directory _ _ _ _ _ _ Ed). discriminate. }
    destruct q as [e|[]]; [exact H1|].
    unfold bind at 1.
    destruct (clear env dest s1) as [q s2] eqn:Ec.
    pose proof (clear_keeps_the_directory _ _ _ _ _ Ec H1) as H2.
    destruct q as [e|[]]; [exact H2|].
    unfold bind at 1.
    destruct (extract env dest s2) as [q s3] eqn:Ee.
    pose proof (extract_keeps_the_directory _ _ _ _ _ Ee H2) as H3.
    destruct q as [e|[]]; exact H3. }
  assert (Hfeed : forall msg, feed env = inl msg ->
            download_latest_release env s
            = ((false, "Download/extract failed: " ++ msg), s)).
  { intros msg H. unfold download_latest_release, try_block. now rewrite H. }
  assert (Hmkdir : forall latest msg,
            feed env = inr latest -> hamlib s = None ->
            mkdir_error env = Some msg ->
            download_latest_release env s
            = ((false, "Download/extract failed: " ++ msg), s)).
  { intros latest msg H Hs Hm. unfold download_latest_release, try_block.
    rewrite H. destruct (select_asset latest) as [url dest].
    unfold bind at 1. unfold ensure_hamlib_dir, bind, get_root.
    now rewrite Hs, Hm. }
  assert (Hcases : (exists msg, download_latest_release env s
                      = ((false, "Download/extract failed: " ++ msg), s))
                   \/ hamlib (snd (download_latest_release env s)) <> None).
  { destruct (feed env) as [msg|latest] eqn:Ef; [left; eauto|].
    destruct (hamlib s) eqn:Es; [right; apply (Hexists latest eq_refl);
                                 discriminate|].
    destruct (mkdir_error env) as [msg|] eqn:Em;
      [left; exists msg; now apply (Hmkdir latest)|].
    right. now apply (Hexists latest). }
  cbv zeta. split; [exact Hfeed|]. split.
  { intros latest msg H Hs Hm. now rewrite (Hmkdir latest msg H Hs Hm). }
  split.
  { intros Hs. destruct Hcases as [[msg E]|H]; [|exact H].
    now rewrite E. }
  split.
  { intros Ht. destruct Hcases as [[msg E]|H]; [|exact H].
    rewrite E in Ht. discriminate. }
  intros Hn. destruct Hcases as [[msg E]|H]; [|contradiction].
  now rewrite E.
Qed.

Lemma early_failure_touches_nothing_witness :
  snd (download_latest_release
         (mkEnv (inr Samples.release_45) (Some "Permission denied")
                (fun _ => inl "unreachable") None (fun _ _ => None)
                (fun _ => mkZip [] None))
         (mkSt None []))
  = mkSt None [].
Proof.
  apply (proj1 (proj2 (early_failure_touches_nothing
           (mkEnv (inr Samples.release_45) (Some "Permission denied")
                  (fun _ => inl "unreachable") None (fun _ _ => None)
                  (fun _ => mkZip [] None))
           (mkSt None []))) Samples.release_45 "Permission denied");
    reflexivity.
Defined.

End InstallerMore.
(** ** More about the supervisor *)

Module SupervisorMore.
Import PyStr Resolver Supervisor Vocabulary SupervisorFacts.

Lemma count_started_app l1 l2 :
  count_started (l1 ++ l2) = (count_started l1 + count_started l2)%nat.
Proof.
  induction l1 as [|[| |t] l1 IH]; simpl; [reflexivity| |exact IH|exact IH].
  now rewrite IH.
Qed.

Lemma without_length k l :
  NoDup l -> In k l -> S (List.length (without k l)) = List.length l.
Proof.
  intros Hnd Hin.
  now rewrite (Permutation_length (without_perm k l Hnd Hin)).
Qed.

Lemma finishing_NoDup w : consistent w -> NoDup (finishing w).
Proof.
  intros [_ _ H3 _]. unfold whereabouts in H3.
  apply NoDup_app_remove_l in H3. now apply NoDup_app_remove_r in H3.
Qed.

Lemma step_tallies op w w' : tallies w -> step op w = Some w' -> tallies w'.
Proof.
  intros [Hc [H1 H2]] Hstep. split; [eapply step_consistent; eauto|].
  destruct op as [root a e| |k line|k|k]; simpl in Hstep.
  - inversion Hstep; subst w'. clear Hstep. unfold start.
    destruct (process w) eqn:Ep;
      [simpl; rewrite count_started_app, count_stopped_app; simpl; lia|].
    destruct (find_exe (exe_name w) root);
      [|simpl; rewrite count_started_app, count_stopped_app; simpl; lia].
    destruct e as [[x|x|x]|]; unfold failed_to_start;
      cbn -[String.append count_started count_stopped]; rewrite ?Ep;
      cbn -[String.append count_started count_stopped];
      rewrite ?count_started_app, ?count_stopped_app, ?length_app;
      simpl; lia.
  - inversion Hstep; subst w'. unfold stop.
    destruct (process w); simpl; auto.
  - destruct (reading k w); [|discriminate]. inversion Hstep; subst w'.
    simpl. rewrite count_started_app, count_stopped_app. simpl. lia.
  - destruct (reading k w) eqn:Hk; [|discriminate].
    inversion Hstep; subst w'.
    destruct (reading_handle k w Hc Hk) as [_ Hr].
    simpl. rewrite length_app, Hr in *. unfold without. simpl.
    rewrite Nat.eqb_refl. simpl in *. lia.
  - destruct (in_finally k w) eqn:Hk; [|discriminate].
    inversion Hstep; subst w'. apply in_finally_In in Hk.
    pose proof (without_length k (finishing w) (finishing_NoDup w Hc) Hk).
    simpl. rewrite count_started_app, count_stopped_app. simpl. lia.
Qed.

(** X17. In every state the runners reach, the children of a runner are as
    many as its [stopped] signals, its reader threads that run or are about
    to emit [stopped], and the children left without a reader thread,
    together.  The [started] signals are at most one per child and at least
    one per reader thread that runs or has run, so they are exactly one per
    child when no call of [start] raised after [Popen] had returned; and
    while there is a handle, more [started] than [stopped] signals have
    been emitted. *)
Theorem started_and_stopped_tally (ops : list (DaemonKind * Op))
  (m : MainWindow) (kind : DaemonKind) :
  run ops new_window = Some m ->
  let w := runner_of kind m in
  List.length (children w)
  = (count_stopped (emitted w) + List.length (live w)
     + List.length (finishing w) + List.length (abandoned w))%nat
  /\ (count_stopped (emitted w) + List.length (live w)
      + List.length (finishing w) <= count_started (emitted w))%nat
  /\ (count_started (emitted w) <= List.length (children w))%nat
  /\ (abandoned w = [] ->
      count_started (emitted w) = List.length (children w))
  /\ (process w <> None ->
      (count_stopped (emitted w) < count_started (emitted w))%nat).
Proof.
  intros Hrun w.
  assert (Ht : tallies w).
  { apply (run_invariant (fun _ => tallies)) with (ops := ops)
                                                  (m := new_window).
    - intros k op x x'. apply step_tallies.
    - intros k. split; [destruct k; apply new_runner_consistent|].
      destruct k; split; simpl; lia.
    - exact Hrun. }
  destruct Ht as [Hc [H1 H2]]. unfold live.
  pose proof (placed_length _ _ (consistent_placed w Hc)) as Hlen.
  unfold whereabouts in Hlen. rewrite !length_app in Hlen.
  destruct Hc as [Hr _ _ H4].
  split; [lia|]. split; [exact H1|]. split; [exact H2|]. split.
  - intros Ha. rewrite Ha in Hlen. simpl in Hlen. lia.
  - intros Hp. rewrite Hr in H1. destruct (process w); [|congruence].
    simpl in H1. lia.
Qed.

Lemma started_and_stopped_tally_witness :
  exists m,
    run [(Rotor, Start (Some Samples.two_full_trees) ["-vvvv"] None);
         (Rotor, Start (Some Samples.two_full_trees) ["-vvvv"] None);
         (Rotor, Stop); (Rotor, ReaderClear 0);
         (Rotor, Start (Some Samples.two_full_trees) ["-vvvv"]
                       (Some (in_started_emit "deleted")));
         (Rotor, ReaderStopped 0);
         (Rotor, Start None ["-vvvv"] None)] new_window = Some m
    /\ (count_started (emitted (runner_of Rotor m))
        <= List.length (children (runner_of Rotor m)))%nat.
Proof.
  pose (ops := [(Rotor, Start (Some Samples.two_full_trees) ["-vvvv"] None);
                (Rotor, Start (Some Samples.two_full_trees) ["-vvvv"] None);
                (Rotor, Stop); (Rotor, ReaderClear 0);
                (Rotor, Start (Some Samples.two_full_trees) ["-vvvv"]
                              (Some (in_started_emit "deleted")));
                (Rotor, ReaderStopped 0);
                (Rotor, Start None ["-vvvv"] None)]).
  assert (E : { m | run ops new_window = Some m }).
  { eexists. vm_compute. reflexivity. }
  destruct E as [m E]. exists m. split; [exact E|].
  exact (proj1 (proj2 (proj2 (started_and_stopped_tally ops m Rotor E)))).
Defined.

Lemma find_exe_ends_in_name name root p :
  find_exe name root = Some p -> p = (removelast p ++ [name])%list.
Proof.
  destruct root as [es|]; [|discriminate]. intros H.
  destruct (ResolverMore.find_exe_sound name es p H) as [x [Hat Hlast]].
  rewrite <- Hlast.
  apply app_removelast_last. eapply ResolverMore.At_nonempty; eauto.
Qed.

Lemma step_in_own_folder k op w w' :
  in_own_folder k w -> step op w = Some w' -> in_own_folder k w'.
Proof.
  intros [Hn Hall] Hstep.
  destruct op as [root a e| |j line|j|j]; simpl in Hstep.
  - inversion Hstep; subst w'. clear Hstep. unfold start.
    destruct (process w) eqn:Ep; [now split|].
    destruct (find_exe (exe_name w) root) as [path|] eqn:Ef; [|now split].
    assert (Hnew : Forall (fun c => exe c = (cwd c ++ [exe_of k])%list)
                     (children w ++ [mkPopen path a (removelast path)])).
    { apply Forall_app. split; [exact Hall|]. constructor; [|constructor].
      simpl. rewrite <- Hn.
      now apply find_exe_ends_in_name with (root := root). }
    destruct e as [[x|x|x]|]; unfold failed_to_start;
      cbn -[String.append]; rewrite ?Ep; now split.
  - inversion Hstep; subst w'. unfold stop.
    destruct (process w); now split.
  - destruct (reading j w); [|discriminate]. inversion Hstep; subst w'.
    now split.
  - destruct (reading j w); [|discriminate]. inversion Hstep; subst w'.
    now split.
  - destruct (in_finally j w); [|discriminate]. inversion Hstep; subst w'.
    now split.
Qed.

(** X19. In every state the runners reach, every child of a runner was
    spawned on the executable of its kind and with the folder of that
    executable as working directory. *)
Theorem children_run_in_their_folder (ops : list (DaemonKind * Op))
  (m : MainWindow) (kind : DaemonKind) (c : Popen) :
  run ops new_window = Some m ->
  In c (children (runner_of kind m)) ->
  exe c = (cwd c ++ [exe_of kind])%list
  /\ last (exe c) "" = exe_of kind.
Proof.
  intros Hrun Hin.
  assert (H : in_own_folder kind (runner_of kind m)).
  { apply (run_invariant in_own_folder) with (ops := ops) (m := new_window).
    - intros k op x x'. apply step_in_own_folder.
    - intros k. destruct k; split; try reflexivity; constructor.
    - exact Hrun. }
  destruct H as [_ Hall]. rewrite Forall_forall in Hall.
  specialize (Hall c Hin). split; [exact Hall|].
  rewrite Hall. apply last_last.
Qed.

Lemma children_run_in_their_folder_witness :
  last ["hamlib-w64-4.6"; "bin"; "ampctld.exe"] "" = exe_of Amplifier.
Proof.
  pose (ops := [(Amplifier,
                 Start (Some Samples.two_full_trees) ["-vvvv"] None)]).
  assert (E : { m | run ops new_window = Some m
                    /\ In (mkPopen ["hamlib-w64-4.6"; "bin"; "ampctld.exe"]
                                   ["-vvvv"] ["hamlib-w64-4.6"; "bin"])
                          (children (runner_of Amplifier m)) }).
  { eexists. split; [vm_compute; reflexivity|]. left. reflexivity. }
  destruct E as [m [E Hin]].
  exact (proj2 (children_run_in_their_folder ops m Amplifier _ E Hin)).
Defined.

(** *** The lines handed to the output signal *)

Lemma ends_with_lf_cons c s :
  ends_with_lf (String c s)
  = if is_empty s then Ascii.eqb c LF else ends_with_lf s.
Proof. destruct s; reflexivity. Qed.

Lemma rstrip_nl_cons c r :
  rstrip_nl (String c r)
  = if is_empty (rstrip_nl r) && Ascii.eqb c LF then ""
    else String c (rstrip_nl r).
Proof. reflexivity. Qed.

Lemma rstrip_nl_no_lf s : ends_with_lf (rstrip_nl s) = false.
Proof.
  induction s as [|c r IH]; [reflexivity|]. rewrite rstrip_nl_cons.
  destruct (is_empty (rstrip_nl r)) eqn:Ee; cbn [andb].
  - destruct (Ascii.eqb c LF) eqn:Ec; [reflexivity|].
    now rewrite ends_with_lf_cons, Ee.
  - now rewrite ends_with_lf_cons, Ee.
Qed.

Lemma rstrip_nl_id s : ends_with_lf s = false -> rstrip_nl s = s.
Proof.
  induction s as [|c r IH]; [reflexivity|].
  rewrite ends_with_lf_cons, rstrip_nl_cons. destruct r as [|y r2].
  - simpl. now intros ->.
  - cbn [is_empty]. intros E. rewrite (IH E). reflexivity.
Qed.

Lemma rstrip_nl_app_lf s : rstrip_nl (s ++ String LF "") = rstrip_nl s.
Proof.
  induction s as [|c r IH]; [reflexivity|].
  change (String c r ++ String LF "") with (String c (r ++ String LF "")).
  now rewrite !rstrip_nl_cons, IH.
Qed.

(** X20. A line of the child reaches the output signal without its line
    feed: the text emitted never ends in a line feed, it is the line itself
    when the line has none, and the line without it when the line ends in
    one; nothing else of the runner changes. *)
Theorem reader_line_drops_the_line_feed (line : string) (w : HamlibRunner) :
  exists t,
    emitted (reader_line line w) = (emitted w ++ [output t])%list
    /\ ends_with_lf t = false
    /\ (ends_with_lf line = false -> t = line)
    /\ (forall body, ends_with_lf body = false ->
                     line = body ++ String LF "" -> t = body)
    /\ process (reader_line line w) = process w
    /\ children (reader_line line w) = children w.
Proof.
  exists (rstrip_nl line). split; [reflexivity|].
  split; [apply rstrip_nl_no_lf|]. split; [apply rstrip_nl_id|].
  split; [|split; reflexivity].
  intros body Hb ->. rewrite rstrip_nl_app_lf. now apply rstrip_nl_id.
Qed.

Lemma reader_line_drops_the_line_feed_witness :
  emitted (reader_line ("rigctld: ready" ++ String LF "")
             (new_runner "rigctld.exe"))
  = [output "rigctld: ready"].
Proof.
  destruct (reader_line_drops_the_line_feed
              ("rigctld: ready" ++ String LF "") (new_runner "rigctld.exe"))
    as [t [He [_ [_ [Hb _]]]]].
  rewrite He. rewrite (Hb "rigctld: ready" eq_refl eq_refl). reflexivity.
Defined.

End SupervisorMore.
